(** * tbaggaley/quiz: continuation registry, question types and quiz flows

    A shallow embedding of [src/index.js].  The server keeps every paused
    procedure as a promise-resolving function in the plain object
    [continuations], keyed by a uuid; the authoring and play procedures are
    [async] functions that pause at every [sendSuspend].  The embedding keeps
    the source's names and follows its statements in order. *)

From Stdlib Require Import ZArith Ascii String DecimalFacts DecimalN.
From Stdlib Require Import Floats.SpecFloat.
From stdpp Require Import gmap strings list fin_maps.

Local Open Scope string_scope.
Local Open Scope nat_scope.
Local Open Scope list_scope.

(* ===================================================================== *)
(** * Part I.  Definitions                                                *)
(* ===================================================================== *)

(** ** JavaScript objects used as maps

    [continuations] and [questionTypes] are created by the literal [{}], so a
    property read that finds no own property continues in [Object.prototype].
    These are the property names [Object.prototype] carries. *)

Definition object_prototype_keys : list string :=
  [ "constructor"; "__defineGetter__"; "__defineSetter__"; "hasOwnProperty";
    "__lookupGetter__"; "__lookupSetter__"; "isPrototypeOf";
    "propertyIsEnumerable"; "toString"; "valueOf"; "__proto__";
    "toLocaleString" ].

Definition is_object_prototype_key (key : string) : bool :=
  bool_decide (key ∈ object_prototype_keys).

(** What [o[key]] evaluates to for an object [o] whose own properties are the
    finite map [own]. *)
Inductive property (V : Type) : Type :=
  | Own (v : V)                 (* an own property *)
  | Inherited (name : string)   (* a member of Object.prototype *)
  | Undefined.                  (* undefined *)
Arguments Own {V} v.
Arguments Inherited {V} name.
Arguments Undefined {V}.

Definition get_property {V : Type} (own : gmap string V) (key : string) : property V :=
  match own !! key with
  | Some v => Own v
  | None => if is_object_prototype_key key then Inherited key else Undefined
  end.

(** ** Tokens

    [uuidv4()] returns the canonical 36-character text of a version-4 UUID:
    lower-case hexadecimal digits with a hyphen at offsets 8, 13, 18 and 23. *)

Definition is_lower_hex (c : ascii) : bool :=
  let n := nat_of_ascii c in
  (((48 <=? n) && (n <=? 57)) || ((97 <=? n) && (n <=? 102)))%nat.

Fixpoint uuid_chars (pos : nat) (s : string) : bool :=
  match s with
  | EmptyString => (pos =? 36)%nat
  | String c rest =>
      (if ((pos =? 8) || (pos =? 13) || (pos =? 18) || (pos =? 23))%nat
       then Ascii.eqb c "-" else is_lower_hex c)
      && uuid_chars (S pos) rest
  end.

Definition uuid_shaped (s : string) : bool := uuid_chars 0 s.

(** ** Continuation handling logic (index.js, lines 10-52) *)

Definition MAX_CONTINUATIONS : nat := 100.

(** The two module-level variables [continuations] and [uuids].  [K] is the
    type of the stored promise-resolving functions. *)
Record registry (K : Type) : Type := Registry {
  continuations : gmap string K;
  uuids : list string
}.
Arguments Registry {K} _ _.
Arguments continuations {K} _.
Arguments uuids {K} _.

Definition initial {K : Type} : registry K := Registry ∅ [].

(** Lines 21-24:
      while(uuids.length > MAX_CONTINUATIONS) {
        const oldestUUID = uuids.shift();
        delete continuations[oldestUUID];
      } *)
Fixpoint evict {K : Type} (us : list string) (cs : gmap string K)
  : list string * gmap string K :=
  match us with
  | [] => (us, cs)
  | oldestUUID :: us' =>
      if MAX_CONTINUATIONS <? length us
      then evict us' (delete oldestUUID cs)
      else (us, cs)
  end.

Definition continueURL (continuationID : string) : string :=
  "/continue/" +:+ continuationID.

(** [sendSuspend], lines 16-30, for the identifier [continuationID] returned
    by [uuidv4()] and the [resolve] function of the promise it returns.
    Line 18 is [uuids.push[continuationID]]: it reads the property named by
    the identifier from the function [uuids.push] and discards it; nothing is
    pushed, so [uuids] goes into the loop as it was.  The promise executor of
    line 29 runs at once and stores [resolve] under the identifier (a uuid,
    so never the key [__proto__], which an assignment treats apart).  What
    line 27 sends is part of [handle] below. *)
Definition sendSuspend {K : Type} (continuationID : string) (resolve : K)
    (st : registry K) : registry K :=
  let '(us, cs) := evict (uuids st) (continuations st) in
  Registry (<[continuationID := resolve]> cs) us.

(** What a request to [/continue/:continuationID] leads to. *)
Inductive response (K : Type) : Type :=
  | Resumed (continuation : K)       (* line 49 on a stored function *)
  | CalledInherited (name : string)  (* line 49 on a member of Object.prototype *)
  | Expired.                         (* line 51: the expired-or-invalid notice *)
Arguments Resumed {K} continuation.
Arguments CalledInherited {K} name.
Arguments Expired {K}.

(** The handler of lines 45-52. *)
Definition continue_handler {K : Type} (continuationID : string) (st : registry K)
  : response K * registry K :=
  match get_property (continuations st) continuationID with
  | Own continuation =>
      (Resumed continuation,
       Registry (delete continuationID (continuations st)) (uuids st))
  | Inherited name =>
      (CalledInherited name,
       Registry (delete continuationID (continuations st)) (uuids st))
  | Undefined => (Expired, st)
  end.

(** The server is single-threaded: a run is a sequence of suspensions and
    resumption requests, each carried out to its end before the next. *)
Inductive event (K : Type) : Type :=
  | Suspend (continuationID : string) (resolve : K)
  | Continue (continuationID : string).
Arguments Suspend {K} continuationID resolve.
Arguments Continue {K} continuationID.

(** Runs the events from [st]; the log holds, oldest first, the token and the
    response of every resumption request. *)
Fixpoint run {K : Type} (tr : list (event K)) (st : registry K)
  : list (string * response K) * registry K :=
  match tr with
  | [] => ([], st)
  | Suspend continuationID resolve :: tr' =>
      run tr' (sendSuspend continuationID resolve st)
  | Continue continuationID :: tr' =>
      let '(r, st') := continue_handler continuationID st in
      let '(log, st'') := run tr' st' in
      ((continuationID, r) :: log, st'')
  end.

(** The event is a suspension for which [uuidv4()] returned [t]. *)
Definition mints {K : Type} (t : string) (e : event K) : bool :=
  match e with
  | Suspend continuationID _ => bool_decide (continuationID = t)
  | Continue _ => false
  end.

(** The log entry is a request with the token [t] that reached a stored
    function. *)
Definition resumes {K : Type} (t : string) (entry : string * response K) : bool :=
  match entry with
  | (continuationID, Resumed _) => bool_decide (continuationID = t)
  | _ => false
  end.

(** The log entry, if it is a request with the token [t], got the notice. *)
Definition expires {K : Type} (t : string) (entry : string * response K) : bool :=
  match entry with
  | (continuationID, Expired) => true
  | (continuationID, _) => negb (bool_decide (continuationID = t))
  end.

(** A run that only suspends: the [n]-th suspension stores the function
    [n] under the [n]-th identifier.  The identifiers below are what such a run
    is exercised on: uuid-shaped texts that differ in their last three
    digits. *)
Definition suspensions (ids : list string) : list (event nat) :=
  imap (λ n id, Suspend id n) ids.

Definition decimal_digit (n : nat) : ascii := ascii_of_nat (48 + n mod 10).

Definition nth_uuid (n : nat) : string :=
  "00000000-0000-4000-8000-000000000" +:+
  String (decimal_digit (n / 100))
    (String (decimal_digit (n / 10)) (String (decimal_digit n) EmptyString)).

Definition first_uuids (n : nat) : list string := nth_uuid <$> seq 0 n.

(** ** JavaScript values

    The data a quiz is made of: what [JSON.parse] returns, what the request's
    query holds, and [undefined].  The numbers that a quiz holds are the safe
    integers (a quiz with a fraction in it is outside the model); a text is
    the sequence of its UTF-8 bytes; an object is the list of its own
    properties in enumeration order. *)
#[local] Unset Elimination Schemes.
Inductive value : Type :=
  | JUndefined
  | JNull
  | JBool (b : bool)
  | JNumber (n : Z)
  | JString (s : string)
  | JArray (elements : list value)
  | JObject (members : list (string * value)).
#[local] Set Elimination Schemes.

Definition is_safe_integer (n : Z) : bool :=
  ((-9007199254740991 <=? n) && (n <=? 9007199254740991))%Z.

(** A statement either completes with a value or throws. *)
Inductive error : Type := TypeError | SyntaxError.

Inductive completion (A : Type) : Type :=
  | Normal (a : A)
  | Throw (e : error).
Arguments Normal {A} a.
Arguments Throw {A} e.

#[global] Instance completion_ret : MRet completion := λ A a, Normal a.
#[global] Instance completion_bind : MBind completion := λ A B f m,
  match m with
  | Normal a => f a
  | Throw e => Throw e
  end.

(** [v.key] for a key that no prototype defines (the flows read [title],
    [questions], [text], [answer], [type] and [choices]): the own property of
    an object, [undefined] on any other value that has properties, a
    [TypeError] on [undefined] and [null]. *)
Fixpoint assoc (key : string) (members : list (string * value)) : option value :=
  match members with
  | [] => None
  | (k, v) :: members' => if String.eqb k key then Some v else assoc key members'
  end.

Definition get (v : value) (key : string) : completion value :=
  match v with
  | JUndefined | JNull => Throw TypeError
  | JObject members => Normal (default JUndefined (assoc key members))
  | _ => Normal JUndefined
  end.

(** *** Texts

    A text is kept as the sequence of its UTF-8 bytes; the operations of
    JavaScript that look at characters work on the code points that the bytes
    encode. *)
Definition byte (c : ascii) : Z := Z.of_N (N_of_ascii c).
Definition byte_char (b : Z) : ascii := ascii_of_N (Z.to_N b).

(** The code points a text can hold: all but the surrogates. *)
Definition is_scalar (c : Z) : bool :=
  ((0 <=? c) && (c <? 0xD800) || (0xE000 <=? c) && (c <? 0x110000))%Z.

Definition is_continuation (c : ascii) : bool :=
  ((0x80 <=? byte c) && (byte c <? 0xC0))%Z.

Definition low_bits (c : ascii) : Z := (byte c - 0x80)%Z.

(** The code points of a text; [None] when the bytes are not well-formed
    UTF-8 (no JavaScript string has them as its text). *)
Fixpoint utf8_decode (s : string) : option (list Z) :=
  match s with
  | EmptyString => Some []
  | String c0 s1 =>
      let b0 := byte c0 in
      if (b0 <? 0x80)%Z then cons b0 <$> utf8_decode s1
      else if (b0 <? 0xC2)%Z then None
      else if (b0 <? 0xE0)%Z then
        match s1 with
        | String c1 s2 =>
            if is_continuation c1
            then cons ((b0 - 0xC0) * 64 + low_bits c1)%Z <$> utf8_decode s2
            else None
        | _ => None
        end
      else if (b0 <? 0xF0)%Z then
        match s1 with
        | String c1 (String c2 s3) =>
            let c := ((b0 - 0xE0) * 4096 + low_bits c1 * 64 + low_bits c2)%Z in
            if is_continuation c1 && is_continuation c2
               && (0x800 <=? c)%Z && is_scalar c
            then cons c <$> utf8_decode s3
            else None
        | _ => None
        end
      else if (b0 <? 0xF5)%Z then
        match s1 with
        | String c1 (String c2 (String c3 s4)) =>
            let c := ((b0 - 0xF0) * 262144 + low_bits c1 * 4096
                      + low_bits c2 * 64 + low_bits c3)%Z in
            if is_continuation c1 && is_continuation c2 && is_continuation c3
               && (0x10000 <=? c)%Z && (c <? 0x110000)%Z
            then cons c <$> utf8_decode s4
            else None
        | _ => None
        end
      else None
  end.

Definition utf8_encode_char (c : Z) (rest : string) : string :=
  if (c <? 0x80)%Z then String (byte_char c) rest
  else if (c <? 0x800)%Z then
    String (byte_char (0xC0 + c / 64))
      (String (byte_char (0x80 + c mod 64)) rest)
  else if (c <? 0x10000)%Z then
    String (byte_char (0xE0 + c / 4096))
      (String (byte_char (0x80 + c / 64 mod 64))
         (String (byte_char (0x80 + c mod 64)) rest))
  else
    String (byte_char (0xF0 + c / 262144))
      (String (byte_char (0x80 + c / 4096 mod 64))
         (String (byte_char (0x80 + c / 64 mod 64))
            (String (byte_char (0x80 + c mod 64)) rest))).

Fixpoint utf8_encode (cps : list Z) : string :=
  match cps with
  | [] => EmptyString
  | c :: cps' => utf8_encode_char c (utf8_encode cps')
  end.

(** **** Letter case (the Unicode Character Database, version 14.0)

    [capital_runs] lists the characters that have a small letter: a run
    [(first, last, step, delta)] stands for the characters [first],
    [first + step], ..., [last], and the small letter of [c] is [c + delta].
    [cased_ranges] and [case_ignorable_ranges] are the properties [Cased] and
    [Case_Ignorable]. *)
Definition capital_runs : list (Z * Z * Z * Z) :=
  [
    (0x41, 0x5A, 1, 32); (0xC0, 0xD6, 1, 32); (0xD8, 0xDE, 1, 32);
    (0x100, 0x12E, 2, 1); (0x130, 0x130, 1, -199); (0x132, 0x136, 2, 1);
    (0x139, 0x147, 2, 1); (0x14A, 0x176, 2, 1); (0x178, 0x178, 1, -121);
    (0x179, 0x17D, 2, 1); (0x181, 0x181, 1, 210); (0x182, 0x184, 2, 1);
    (0x186, 0x186, 1, 206); (0x187, 0x187, 1, 1); (0x189, 0x18A, 1, 205);
    (0x18B, 0x18B, 1, 1); (0x18E, 0x18E, 1, 79); (0x18F, 0x18F, 1, 202);
    (0x190, 0x190, 1, 203); (0x191, 0x191, 1, 1); (0x193, 0x193, 1, 205);
    (0x194, 0x194, 1, 207); (0x196, 0x196, 1, 211); (0x197, 0x197, 1, 209);
    (0x198, 0x198, 1, 1); (0x19C, 0x19C, 1, 211); (0x19D, 0x19D, 1, 213);
    (0x19F, 0x19F, 1, 214); (0x1A0, 0x1A4, 2, 1); (0x1A6, 0x1A6, 1, 218);
    (0x1A7, 0x1A7, 1, 1); (0x1A9, 0x1A9, 1, 218); (0x1AC, 0x1AC, 1, 1);
    (0x1AE, 0x1AE, 1, 218); (0x1AF, 0x1AF, 1, 1); (0x1B1, 0x1B2, 1, 217);
    (0x1B3, 0x1B5, 2, 1); (0x1B7, 0x1B7, 1, 219); (0x1B8, 0x1B8, 1, 1);
    (0x1BC, 0x1BC, 1, 1); (0x1C4, 0x1C4, 1, 2); (0x1C5, 0x1C5, 1, 1);
    (0x1C7, 0x1C7, 1, 2); (0x1C8, 0x1C8, 1, 1); (0x1CA, 0x1CA, 1, 2);
    (0x1CB, 0x1DB, 2, 1); (0x1DE, 0x1EE, 2, 1); (0x1F1, 0x1F1, 1, 2);
    (0x1F2, 0x1F4, 2, 1); (0x1F6, 0x1F6, 1, -97); (0x1F7, 0x1F7, 1, -56);
    (0x1F8, 0x21E, 2, 1); (0x220, 0x220, 1, -130); (0x222, 0x232, 2, 1);
    (0x23A, 0x23A, 1, 10795); (0x23B, 0x23B, 1, 1); (0x23D, 0x23D, 1, -163);
    (0x23E, 0x23E, 1, 10792); (0x241, 0x241, 1, 1); (0x243, 0x243, 1, -195);
    (0x244, 0x244, 1, 69); (0x245, 0x245, 1, 71); (0x246, 0x24E, 2, 1);
    (0x370, 0x372, 2, 1); (0x376, 0x376, 1, 1); (0x37F, 0x37F, 1, 116);
    (0x386, 0x386, 1, 38); (0x388, 0x38A, 1, 37); (0x38C, 0x38C, 1, 64);
    (0x38E, 0x38F, 1, 63); (0x391, 0x3A1, 1, 32); (0x3A3, 0x3AB, 1, 32);
    (0x3CF, 0x3CF, 1, 8); (0x3D8, 0x3EE, 2, 1); (0x3F4, 0x3F4, 1, -60);
    (0x3F7, 0x3F7, 1, 1); (0x3F9, 0x3F9, 1, -7); (0x3FA, 0x3FA, 1, 1);
    (0x3FD, 0x3FF, 1, -130); (0x400, 0x40F, 1, 80); (0x410, 0x42F, 1, 32);
    (0x460, 0x480, 2, 1); (0x48A, 0x4BE, 2, 1); (0x4C0, 0x4C0, 1, 15);
    (0x4C1, 0x4CD, 2, 1); (0x4D0, 0x52E, 2, 1); (0x531, 0x556, 1, 48);
    (0x10A0, 0x10C5, 1, 7264); (0x10C7, 0x10C7, 1, 7264);
    (0x10CD, 0x10CD, 1, 7264); (0x13A0, 0x13EF, 1, 38864);
    (0x13F0, 0x13F5, 1, 8); (0x1C90, 0x1CBA, 1, -3008);
    (0x1CBD, 0x1CBF, 1, -3008); (0x1E00, 0x1E94, 2, 1);
    (0x1E9E, 0x1E9E, 1, -7615); (0x1EA0, 0x1EFE, 2, 1);
    (0x1F08, 0x1F0F, 1, -8); (0x1F18, 0x1F1D, 1, -8);
    (0x1F28, 0x1F2F, 1, -8); (0x1F38, 0x1F3F, 1, -8);
    (0x1F48, 0x1F4D, 1, -8); (0x1F59, 0x1F5F, 2, -8);
    (0x1F68, 0x1F6F, 1, -8); (0x1F88, 0x1F8F, 1, -8);
    (0x1F98, 0x1F9F, 1, -8); (0x1FA8, 0x1FAF, 1, -8);
    (0x1FB8, 0x1FB9, 1, -8); (0x1FBA, 0x1FBB, 1, -74);
    (0x1FBC, 0x1FBC, 1, -9); (0x1FC8, 0x1FCB, 1, -86);
    (0x1FCC, 0x1FCC, 1, -9); (0x1FD8, 0x1FD9, 1, -8);
    (0x1FDA, 0x1FDB, 1, -100); (0x1FE8, 0x1FE9, 1, -8);
    (0x1FEA, 0x1FEB, 1, -112); (0x1FEC, 0x1FEC, 1, -7);
    (0x1FF8, 0x1FF9, 1, -128); (0x1FFA, 0x1FFB, 1, -126);
    (0x1FFC, 0x1FFC, 1, -9); (0x2126, 0x2126, 1, -7517);
    (0x212A, 0x212A, 1, -8383); (0x212B, 0x212B, 1, -8262);
    (0x2132, 0x2132, 1, 28); (0x2160, 0x216F, 1, 16); (0x2183, 0x2183, 1, 1);
    (0x24B6, 0x24CF, 1, 26); (0x2C00, 0x2C2F, 1, 48); (0x2C60, 0x2C60, 1, 1);
    (0x2C62, 0x2C62, 1, -10743); (0x2C63, 0x2C63, 1, -3814);
    (0x2C64, 0x2C64, 1, -10727); (0x2C67, 0x2C6B, 2, 1);
    (0x2C6D, 0x2C6D, 1, -10780); (0x2C6E, 0x2C6E, 1, -10749);
    (0x2C6F, 0x2C6F, 1, -10783); (0x2C70, 0x2C70, 1, -10782);
    (0x2C72, 0x2C72, 1, 1); (0x2C75, 0x2C75, 1, 1);
    (0x2C7E, 0x2C7F, 1, -10815); (0x2C80, 0x2CE2, 2, 1);
    (0x2CEB, 0x2CED, 2, 1); (0x2CF2, 0x2CF2, 1, 1); (0xA640, 0xA66C, 2, 1);
    (0xA680, 0xA69A, 2, 1); (0xA722, 0xA72E, 2, 1); (0xA732, 0xA76E, 2, 1);
    (0xA779, 0xA77B, 2, 1); (0xA77D, 0xA77D, 1, -35332);
    (0xA77E, 0xA786, 2, 1); (0xA78B, 0xA78B, 1, 1);
    (0xA78D, 0xA78D, 1, -42280); (0xA790, 0xA792, 2, 1);
    (0xA796, 0xA7A8, 2, 1); (0xA7AA, 0xA7AA, 1, -42308);
    (0xA7AB, 0xA7AB, 1, -42319); (0xA7AC, 0xA7AC, 1, -42315);
    (0xA7AD, 0xA7AD, 1, -42305); (0xA7AE, 0xA7AE, 1, -42308);
    (0xA7B0, 0xA7B0, 1, -42258); (0xA7B1, 0xA7B1, 1, -42282);
    (0xA7B2, 0xA7B2, 1, -42261); (0xA7B3, 0xA7B3, 1, 928);
    (0xA7B4, 0xA7C2, 2, 1); (0xA7C4, 0xA7C4, 1, -48);
    (0xA7C5, 0xA7C5, 1, -42307); (0xA7C6, 0xA7C6, 1, -35384);
    (0xA7C7, 0xA7C9, 2, 1); (0xA7D0, 0xA7D0, 1, 1); (0xA7D6, 0xA7D8, 2, 1);
    (0xA7F5, 0xA7F5, 1, 1); (0xFF21, 0xFF3A, 1, 32);
    (0x10400, 0x10427, 1, 40); (0x104B0, 0x104D3, 1, 40);
    (0x10570, 0x1057A, 1, 39); (0x1057C, 0x1058A, 1, 39);
    (0x1058C, 0x10592, 1, 39); (0x10594, 0x10595, 1, 39);
    (0x10C80, 0x10CB2, 1, 64); (0x118A0, 0x118BF, 1, 32);
    (0x16E40, 0x16E5F, 1, 32); (0x1E900, 0x1E921, 1, 34)
  ]%Z.

Definition cased_ranges : list (Z * Z) :=
  [
    (0x41, 0x5A); (0x61, 0x7A); (0xAA, 0xAA); (0xB5, 0xB5); (0xBA, 0xBA);
    (0xC0, 0xD6); (0xD8, 0xF6); (0xF8, 0x1BA); (0x1BC, 0x1BF);
    (0x1C4, 0x293); (0x295, 0x2B8); (0x2C0, 0x2C1); (0x2E0, 0x2E4);
    (0x345, 0x345); (0x370, 0x373); (0x376, 0x377); (0x37A, 0x37D);
    (0x37F, 0x37F); (0x386, 0x386); (0x388, 0x38A); (0x38C, 0x38C);
    (0x38E, 0x3A1); (0x3A3, 0x3F5); (0x3F7, 0x481); (0x48A, 0x52F);
    (0x531, 0x556); (0x560, 0x588); (0x10A0, 0x10C5); (0x10C7, 0x10C7);
    (0x10CD, 0x10CD); (0x10D0, 0x10FA); (0x10FD, 0x10FF); (0x13A0, 0x13F5);
    (0x13F8, 0x13FD); (0x1C80, 0x1C88); (0x1C90, 0x1CBA); (0x1CBD, 0x1CBF);
    (0x1D00, 0x1DBF); (0x1E00, 0x1F15); (0x1F18, 0x1F1D); (0x1F20, 0x1F45);
    (0x1F48, 0x1F4D); (0x1F50, 0x1F57); (0x1F59, 0x1F59); (0x1F5B, 0x1F5B);
    (0x1F5D, 0x1F5D); (0x1F5F, 0x1F7D); (0x1F80, 0x1FB4); (0x1FB6, 0x1FBC);
    (0x1FBE, 0x1FBE); (0x1FC2, 0x1FC4); (0x1FC6, 0x1FCC); (0x1FD0, 0x1FD3);
    (0x1FD6, 0x1FDB); (0x1FE0, 0x1FEC); (0x1FF2, 0x1FF4); (0x1FF6, 0x1FFC);
    (0x2071, 0x2071); (0x207F, 0x207F); (0x2090, 0x209C); (0x2102, 0x2102);
    (0x2107, 0x2107); (0x210A, 0x2113); (0x2115, 0x2115); (0x2119, 0x211D);
    (0x2124, 0x2124); (0x2126, 0x2126); (0x2128, 0x2128); (0x212A, 0x212D);
    (0x212F, 0x2134); (0x2139, 0x2139); (0x213C, 0x213F); (0x2145, 0x2149);
    (0x214E, 0x214E); (0x2160, 0x217F); (0x2183, 0x2184); (0x24B6, 0x24E9);
    (0x2C00, 0x2CE4); (0x2CEB, 0x2CEE); (0x2CF2, 0x2CF3); (0x2D00, 0x2D25);
    (0x2D27, 0x2D27); (0x2D2D, 0x2D2D); (0xA640, 0xA66D); (0xA680, 0xA69D);
    (0xA722, 0xA787); (0xA78B, 0xA78E); (0xA790, 0xA7CA); (0xA7D0, 0xA7D1);
    (0xA7D3, 0xA7D3); (0xA7D5, 0xA7D9); (0xA7F5, 0xA7F6); (0xA7F8, 0xA7FA);
    (0xAB30, 0xAB5A); (0xAB5C, 0xAB68); (0xAB70, 0xABBF); (0xFB00, 0xFB06);
    (0xFB13, 0xFB17); (0xFF21, 0xFF3A); (0xFF41, 0xFF5A); (0x10400, 0x1044F);
    (0x104B0, 0x104D3); (0x104D8, 0x104FB); (0x10570, 0x1057A);
    (0x1057C, 0x1058A); (0x1058C, 0x10592); (0x10594, 0x10595);
    (0x10597, 0x105A1); (0x105A3, 0x105B1); (0x105B3, 0x105B9);
    (0x105BB, 0x105BC); (0x10780, 0x10780); (0x10783, 0x10785);
    (0x10787, 0x107B0); (0x107B2, 0x107BA); (0x10C80, 0x10CB2);
    (0x10CC0, 0x10CF2); (0x118A0, 0x118DF); (0x16E40, 0x16E7F);
    (0x1D400, 0x1D454); (0x1D456, 0x1D49C); (0x1D49E, 0x1D49F);
    (0x1D4A2, 0x1D4A2); (0x1D4A5, 0x1D4A6); (0x1D4A9, 0x1D4AC);
    (0x1D4AE, 0x1D4B9); (0x1D4BB, 0x1D4BB); (0x1D4BD, 0x1D4C3);
    (0x1D4C5, 0x1D505); (0x1D507, 0x1D50A); (0x1D50D, 0x1D514);
    (0x1D516, 0x1D51C); (0x1D51E, 0x1D539); (0x1D53B, 0x1D53E);
    (0x1D540, 0x1D544); (0x1D546, 0x1D546); (0x1D54A, 0x1D550);
    (0x1D552, 0x1D6A5); (0x1D6A8, 0x1D6C0); (0x1D6C2, 0x1D6DA);
    (0x1D6DC, 0x1D6FA); (0x1D6FC, 0x1D714); (0x1D716, 0x1D734);
    (0x1D736, 0x1D74E); (0x1D750, 0x1D76E); (0x1D770, 0x1D788);
    (0x1D78A, 0x1D7A8); (0x1D7AA, 0x1D7C2); (0x1D7C4, 0x1D7CB);
    (0x1DF00, 0x1DF09); (0x1DF0B, 0x1DF1E); (0x1E900, 0x1E943);
    (0x1F130, 0x1F149); (0x1F150, 0x1F169); (0x1F170, 0x1F189)
  ]%Z.

Definition case_ignorable_ranges : list (Z * Z) :=
  [
    (0x27, 0x27); (0x2E, 0x2E); (0x3A, 0x3A); (0x5E, 0x5E); (0x60, 0x60);
    (0xA8, 0xA8); (0xAD, 0xAD); (0xAF, 0xAF); (0xB4, 0xB4); (0xB7, 0xB8);
    (0x2B0, 0x36F); (0x374, 0x375); (0x37A, 0x37A); (0x384, 0x385);
    (0x387, 0x387); (0x483, 0x489); (0x559, 0x559); (0x55F, 0x55F);
    (0x591, 0x5BD); (0x5BF, 0x5BF); (0x5C1, 0x5C2); (0x5C4, 0x5C5);
    (0x5C7, 0x5C7); (0x5F4, 0x5F4); (0x600, 0x605); (0x610, 0x61A);
    (0x61C, 0x61C); (0x640, 0x640); (0x64B, 0x65F); (0x670, 0x670);
    (0x6D6, 0x6DD); (0x6DF, 0x6E8); (0x6EA, 0x6ED); (0x70F, 0x70F);
    (0x711, 0x711); (0x730, 0x74A); (0x7A6, 0x7B0); (0x7EB, 0x7F5);
    (0x7FA, 0x7FA); (0x7FD, 0x7FD); (0x816, 0x82D); (0x859, 0x85B);
    (0x888, 0x888); (0x890, 0x891); (0x898, 0x89F); (0x8C9, 0x902);
    (0x93A, 0x93A); (0x93C, 0x93C); (0x941, 0x948); (0x94D, 0x94D);
    (0x951, 0x957); (0x962, 0x963); (0x971, 0x971); (0x981, 0x981);
    (0x9BC, 0x9BC); (0x9C1, 0x9C4); (0x9CD, 0x9CD); (0x9E2, 0x9E3);
    (0x9FE, 0x9FE); (0xA01, 0xA02); (0xA3C, 0xA3C); (0xA41, 0xA42);
    (0xA47, 0xA48); (0xA4B, 0xA4D); (0xA51, 0xA51); (0xA70, 0xA71);
    (0xA75, 0xA75); (0xA81, 0xA82); (0xABC, 0xABC); (0xAC1, 0xAC5);
    (0xAC7, 0xAC8); (0xACD, 0xACD); (0xAE2, 0xAE3); (0xAFA, 0xAFF);
    (0xB01, 0xB01); (0xB3C, 0xB3C); (0xB3F, 0xB3F); (0xB41, 0xB44);
    (0xB4D, 0xB4D); (0xB55, 0xB56); (0xB62, 0xB63); (0xB82, 0xB82);
    (0xBC0, 0xBC0); (0xBCD, 0xBCD); (0xC00, 0xC00); (0xC04, 0xC04);
    (0xC3C, 0xC3C); (0xC3E, 0xC40); (0xC46, 0xC48); (0xC4A, 0xC4D);
    (0xC55, 0xC56); (0xC62, 0xC63); (0xC81, 0xC81); (0xCBC, 0xCBC);
    (0xCBF, 0xCBF); (0xCC6, 0xCC6); (0xCCC, 0xCCD); (0xCE2, 0xCE3);
    (0xD00, 0xD01); (0xD3B, 0xD3C); (0xD41, 0xD44); (0xD4D, 0xD4D);
    (0xD62, 0xD63); (0xD81, 0xD81); (0xDCA, 0xDCA); (0xDD2, 0xDD4);
    (0xDD6, 0xDD6); (0xE31, 0xE31); (0xE34, 0xE3A); (0xE46, 0xE4E);
    (0xEB1, 0xEB1); (0xEB4, 0xEBC); (0xEC6, 0xEC6); (0xEC8, 0xECD);
    (0xF18, 0xF19); (0xF35, 0xF35); (0xF37, 0xF37); (0xF39, 0xF39);
    (0xF71, 0xF7E); (0xF80, 0xF84); (0xF86, 0xF87); (0xF8D, 0xF97);
    (0xF99, 0xFBC); (0xFC6, 0xFC6); (0x102D, 0x1030); (0x1032, 0x1037);
    (0x1039, 0x103A); (0x103D, 0x103E); (0x1058, 0x1059); (0x105E, 0x1060);
    (0x1071, 0x1074); (0x1082, 0x1082); (0x1085, 0x1086); (0x108D, 0x108D);
    (0x109D, 0x109D); (0x10FC, 0x10FC); (0x135D, 0x135F); (0x1712, 0x1714);
    (0x1732, 0x1733); (0x1752, 0x1753); (0x1772, 0x1773); (0x17B4, 0x17B5);
    (0x17B7, 0x17BD); (0x17C6, 0x17C6); (0x17C9, 0x17D3); (0x17D7, 0x17D7);
    (0x17DD, 0x17DD); (0x180B, 0x180F); (0x1843, 0x1843); (0x1885, 0x1886);
    (0x18A9, 0x18A9); (0x1920, 0x1922); (0x1927, 0x1928); (0x1932, 0x1932);
    (0x1939, 0x193B); (0x1A17, 0x1A18); (0x1A1B, 0x1A1B); (0x1A56, 0x1A56);
    (0x1A58, 0x1A5E); (0x1A60, 0x1A60); (0x1A62, 0x1A62); (0x1A65, 0x1A6C);
    (0x1A73, 0x1A7C); (0x1A7F, 0x1A7F); (0x1AA7, 0x1AA7); (0x1AB0, 0x1ACE);
    (0x1B00, 0x1B03); (0x1B34, 0x1B34); (0x1B36, 0x1B3A); (0x1B3C, 0x1B3C);
    (0x1B42, 0x1B42); (0x1B6B, 0x1B73); (0x1B80, 0x1B81); (0x1BA2, 0x1BA5);
    (0x1BA8, 0x1BA9); (0x1BAB, 0x1BAD); (0x1BE6, 0x1BE6); (0x1BE8, 0x1BE9);
    (0x1BED, 0x1BED); (0x1BEF, 0x1BF1); (0x1C2C, 0x1C33); (0x1C36, 0x1C37);
    (0x1C78, 0x1C7D); (0x1CD0, 0x1CD2); (0x1CD4, 0x1CE0); (0x1CE2, 0x1CE8);
    (0x1CED, 0x1CED); (0x1CF4, 0x1CF4); (0x1CF8, 0x1CF9); (0x1D2C, 0x1D6A);
    (0x1D78, 0x1D78); (0x1D9B, 0x1DFF); (0x1FBD, 0x1FBD); (0x1FBF, 0x1FC1);
    (0x1FCD, 0x1FCF); (0x1FDD, 0x1FDF); (0x1FED, 0x1FEF); (0x1FFD, 0x1FFE);
    (0x200B, 0x200F); (0x2018, 0x2019); (0x2024, 0x2024); (0x2027, 0x2027);
    (0x202A, 0x202E); (0x2060, 0x2064); (0x2066, 0x206F); (0x2071, 0x2071);
    (0x207F, 0x207F); (0x2090, 0x209C); (0x20D0, 0x20F0); (0x2C7C, 0x2C7D);
    (0x2CEF, 0x2CF1); (0x2D6F, 0x2D6F); (0x2D7F, 0x2D7F); (0x2DE0, 0x2DFF);
    (0x2E2F, 0x2E2F); (0x3005, 0x3005); (0x302A, 0x302D); (0x3031, 0x3035);
    (0x303B, 0x303B); (0x3099, 0x309E); (0x30FC, 0x30FE); (0xA015, 0xA015);
    (0xA4F8, 0xA4FD); (0xA60C, 0xA60C); (0xA66F, 0xA672); (0xA674, 0xA67D);
    (0xA67F, 0xA67F); (0xA69C, 0xA69F); (0xA6F0, 0xA6F1); (0xA700, 0xA721);
    (0xA770, 0xA770); (0xA788, 0xA78A); (0xA7F2, 0xA7F4); (0xA7F8, 0xA7F9);
    (0xA802, 0xA802); (0xA806, 0xA806); (0xA80B, 0xA80B); (0xA825, 0xA826);
    (0xA82C, 0xA82C); (0xA8C4, 0xA8C5); (0xA8E0, 0xA8F1); (0xA8FF, 0xA8FF);
    (0xA926, 0xA92D); (0xA947, 0xA951); (0xA980, 0xA982); (0xA9B3, 0xA9B3);
    (0xA9B6, 0xA9B9); (0xA9BC, 0xA9BD); (0xA9CF, 0xA9CF); (0xA9E5, 0xA9E6);
    (0xAA29, 0xAA2E); (0xAA31, 0xAA32); (0xAA35, 0xAA36); (0xAA43, 0xAA43);
    (0xAA4C, 0xAA4C); (0xAA70, 0xAA70); (0xAA7C, 0xAA7C); (0xAAB0, 0xAAB0);
    (0xAAB2, 0xAAB4); (0xAAB7, 0xAAB8); (0xAABE, 0xAABF); (0xAAC1, 0xAAC1);
    (0xAADD, 0xAADD); (0xAAEC, 0xAAED); (0xAAF3, 0xAAF4); (0xAAF6, 0xAAF6);
    (0xAB5B, 0xAB5F); (0xAB69, 0xAB6B); (0xABE5, 0xABE5); (0xABE8, 0xABE8);
    (0xABED, 0xABED); (0xFB1E, 0xFB1E); (0xFBB2, 0xFBC2); (0xFE00, 0xFE0F);
    (0xFE13, 0xFE13); (0xFE20, 0xFE2F); (0xFE52, 0xFE52); (0xFE55, 0xFE55);
    (0xFEFF, 0xFEFF); (0xFF07, 0xFF07); (0xFF0E, 0xFF0E); (0xFF1A, 0xFF1A);
    (0xFF3E, 0xFF3E); (0xFF40, 0xFF40); (0xFF70, 0xFF70); (0xFF9E, 0xFF9F);
    (0xFFE3, 0xFFE3); (0xFFF9, 0xFFFB); (0x101FD, 0x101FD);
    (0x102E0, 0x102E0); (0x10376, 0x1037A); (0x10780, 0x10785);
    (0x10787, 0x107B0); (0x107B2, 0x107BA); (0x10A01, 0x10A03);
    (0x10A05, 0x10A06); (0x10A0C, 0x10A0F); (0x10A38, 0x10A3A);
    (0x10A3F, 0x10A3F); (0x10AE5, 0x10AE6); (0x10D24, 0x10D27);
    (0x10EAB, 0x10EAC); (0x10F46, 0x10F50); (0x10F82, 0x10F85);
    (0x11001, 0x11001); (0x11038, 0x11046); (0x11070, 0x11070);
    (0x11073, 0x11074); (0x1107F, 0x11081); (0x110B3, 0x110B6);
    (0x110B9, 0x110BA); (0x110BD, 0x110BD); (0x110C2, 0x110C2);
    (0x110CD, 0x110CD); (0x11100, 0x11102); (0x11127, 0x1112B);
    (0x1112D, 0x11134); (0x11173, 0x11173); (0x11180, 0x11181);
    (0x111B6, 0x111BE); (0x111C9, 0x111CC); (0x111CF, 0x111CF);
    (0x1122F, 0x11231); (0x11234, 0x11234); (0x11236, 0x11237);
    (0x1123E, 0x1123E); (0x112DF, 0x112DF); (0x112E3, 0x112EA);
    (0x11300, 0x11301); (0x1133B, 0x1133C); (0x11340, 0x11340);
    (0x11366, 0x1136C); (0x11370, 0x11374); (0x11438, 0x1143F);
    (0x11442, 0x11444); (0x11446, 0x11446); (0x1145E, 0x1145E);
    (0x114B3, 0x114B8); (0x114BA, 0x114BA); (0x114BF, 0x114C0);
    (0x114C2, 0x114C3); (0x115B2, 0x115B5); (0x115BC, 0x115BD);
    (0x115BF, 0x115C0); (0x115DC, 0x115DD); (0x11633, 0x1163A);
    (0x1163D, 0x1163D); (0x1163F, 0x11640); (0x116AB, 0x116AB);
    (0x116AD, 0x116AD); (0x116B0, 0x116B5); (0x116B7, 0x116B7);
    (0x1171D, 0x1171F); (0x11722, 0x11725); (0x11727, 0x1172B);
    (0x1182F, 0x11837); (0x11839, 0x1183A); (0x1193B, 0x1193C);
    (0x1193E, 0x1193E); (0x11943, 0x11943); (0x119D4, 0x119D7);
    (0x119DA, 0x119DB); (0x119E0, 0x119E0); (0x11A01, 0x11A0A);
    (0x11A33, 0x11A38); (0x11A3B, 0x11A3E); (0x11A47, 0x11A47);
    (0x11A51, 0x11A56); (0x11A59, 0x11A5B); (0x11A8A, 0x11A96);
    (0x11A98, 0x11A99); (0x11C30, 0x11C36); (0x11C38, 0x11C3D);
    (0x11C3F, 0x11C3F); (0x11C92, 0x11CA7); (0x11CAA, 0x11CB0);
    (0x11CB2, 0x11CB3); (0x11CB5, 0x11CB6); (0x11D31, 0x11D36);
    (0x11D3A, 0x11D3A); (0x11D3C, 0x11D3D); (0x11D3F, 0x11D45);
    (0x11D47, 0x11D47); (0x11D90, 0x11D91); (0x11D95, 0x11D95);
    (0x11D97, 0x11D97); (0x11EF3, 0x11EF4); (0x13430, 0x13438);
    (0x16AF0, 0x16AF4); (0x16B30, 0x16B36); (0x16B40, 0x16B43);
    (0x16F4F, 0x16F4F); (0x16F8F, 0x16F9F); (0x16FE0, 0x16FE1);
    (0x16FE3, 0x16FE4); (0x1AFF0, 0x1AFF3); (0x1AFF5, 0x1AFFB);
    (0x1AFFD, 0x1AFFE); (0x1BC9D, 0x1BC9E); (0x1BCA0, 0x1BCA3);
    (0x1CF00, 0x1CF2D); (0x1CF30, 0x1CF46); (0x1D167, 0x1D169);
    (0x1D173, 0x1D182); (0x1D185, 0x1D18B); (0x1D1AA, 0x1D1AD);
    (0x1D242, 0x1D244); (0x1DA00, 0x1DA36); (0x1DA3B, 0x1DA6C);
    (0x1DA75, 0x1DA75); (0x1DA84, 0x1DA84); (0x1DA9B, 0x1DA9F);
    (0x1DAA1, 0x1DAAF); (0x1E000, 0x1E006); (0x1E008, 0x1E018);
    (0x1E01B, 0x1E021); (0x1E023, 0x1E024); (0x1E026, 0x1E02A);
    (0x1E130, 0x1E13D); (0x1E2AE, 0x1E2AE); (0x1E2EC, 0x1E2EF);
    (0x1E8D0, 0x1E8D6); (0x1E944, 0x1E94B); (0x1F3FB, 0x1F3FF);
    (0xE0001, 0xE0001); (0xE0020, 0xE007F); (0xE0100, 0xE01EF)
  ]%Z.

Definition in_run (c : Z) (run : Z * Z * Z * Z) : bool :=
  let '(first, last, step, _) := run in
  ((first <=? c) && (c <=? last) && ((c - first) mod step =? 0))%Z.

(** The small letter of a capital (or title-case) letter. *)
Definition small_of (c : Z) : option Z :=
  (λ '(_, _, _, delta), (c + delta)%Z) <$> List.find (in_run c) capital_runs.

(** The small letter of a character, or the character itself. *)
Definition lower1 (c : Z) : Z := default c (small_of c).

Definition in_ranges (ranges : list (Z * Z)) (c : Z) : bool :=
  existsb (λ '(first, last), ((first <=? c) && (c <=? last))%Z) ranges.

Definition is_cased : Z → bool := in_ranges cased_ranges.
Definition is_case_ignorable : Z → bool := in_ranges case_ignorable_ranges.

(** Whether a cased letter comes next in [cps], case-ignorable characters
    apart. *)
Fixpoint cased_letter_next (cps : list Z) : bool :=
  match cps with
  | [] => false
  | c :: cps' => if is_case_ignorable c then cased_letter_next cps' else is_cased c
  end.

Definition capital_sigma : Z := 0x3A3.
Definition capital_dotted_i : Z := 0x130.

(** The lower case of the code points [cps] that follow [before] (the
    nearest first) in a text: every character gives its small letter, but for
    the capital sigma, whose small letter is the final sigma at the end of a
    word, and the capital I with a dot, which gives [i] and a combining dot. *)
Fixpoint lowercase (before cps : list Z) : list Z :=
  match cps with
  | [] => []
  | c :: cps' =>
      (if (c =? capital_dotted_i)%Z then [0x69; 0x307]%Z
       else if (c =? capital_sigma)%Z then
         if cased_letter_next before && negb (cased_letter_next cps')
         then [0x3C2%Z] else [0x3C3%Z]
       else [lower1 c])
      ++ lowercase (c :: before) cps'
  end.

(** [String.prototype.toLowerCase]. *)
Definition toLowerCase (s : string) : string :=
  match utf8_decode s with
  | Some cps => utf8_encode (lowercase [] cps)
  | None => s
  end.

(** [x.toLowerCase()]: only a text has the method; reading it from
    [undefined] or [null], or calling what another value has under that name,
    is a [TypeError]. *)
Definition call_toLowerCase (x : value) : completion string :=
  match x with
  | JString s => Normal (toLowerCase s)
  | _ => Throw TypeError
  end.

(** *** Decimal numerals *)

Definition digit_char (d : nat) : ascii := ascii_of_nat (48 + d).

Fixpoint print_uint (d : Decimal.uint) (rest : string) : string :=
  match d with
  | Decimal.Nil => rest
  | Decimal.D0 d' => String (digit_char 0) (print_uint d' rest)
  | Decimal.D1 d' => String (digit_char 1) (print_uint d' rest)
  | Decimal.D2 d' => String (digit_char 2) (print_uint d' rest)
  | Decimal.D3 d' => String (digit_char 3) (print_uint d' rest)
  | Decimal.D4 d' => String (digit_char 4) (print_uint d' rest)
  | Decimal.D5 d' => String (digit_char 5) (print_uint d' rest)
  | Decimal.D6 d' => String (digit_char 6) (print_uint d' rest)
  | Decimal.D7 d' => String (digit_char 7) (print_uint d' rest)
  | Decimal.D8 d' => String (digit_char 8) (print_uint d' rest)
  | Decimal.D9 d' => String (digit_char 9) (print_uint d' rest)
  end.

Definition is_digit (c : ascii) : bool :=
  let n := nat_of_ascii c in (48 <=? n) && (n <=? 57).

Definition digit_cons (c : ascii) (d : Decimal.uint) : Decimal.uint :=
  match nat_of_ascii c - 48 with
  | 0 => Decimal.D0 d | 1 => Decimal.D1 d | 2 => Decimal.D2 d
  | 3 => Decimal.D3 d | 4 => Decimal.D4 d | 5 => Decimal.D5 d
  | 6 => Decimal.D6 d | 7 => Decimal.D7 d | 8 => Decimal.D8 d
  | _ => Decimal.D9 d
  end.

(** The longest run of decimal digits at the head of [s], and what follows. *)
Fixpoint read_uint (s : string) : Decimal.uint * string :=
  match s with
  | EmptyString => (Decimal.Nil, s)
  | String c s' =>
      if is_digit c
      then let '(d, rest) := read_uint s' in (digit_cons c d, rest)
      else (Decimal.Nil, s)
  end.

(** [Number.prototype.toString] on a safe integer, followed by [rest]. *)
Definition print_number (n : Z) (rest : string) : string :=
  if (n <? 0)%Z
  then String "-" (print_uint (N.to_uint (Z.abs_N n)) rest)
  else print_uint (N.to_uint (Z.abs_N n)) rest.

(** *** Conversions *)

(** **** Numbers

    A JavaScript number is an IEEE 754 double. *)
Definition number : Type := spec_float.

Definition number_of_Z (n : Z) : number := binary_normalize 53 1024 n 0 false.

(** [x == y], [x + y], [x - y] and [x / y] on two numbers. *)
Definition number_eqb : number → number → bool := SFeqb.
Definition number_add : number → number → number := SFadd 53 1024.
Definition number_sub : number → number → number := SFsub 53 1024.
Definition number_div : number → number → number := SFdiv 53 1024.

(** The number that a positive integer below 2^53 is, with its sign: the
    mantissa has 53 bits. *)
Definition normal_number (s : bool) (p : positive) : number :=
  S754_finite s (Pos.shiftl p (Z.to_N (53 - Zpos (digits2_pos p))))
    (Zpos (digits2_pos p) - 53).

(** The code points of an ASCII text. *)
Definition codes (s : string) : list Z := byte <$> list_ascii_of_string s.

(** [StrWhiteSpaceChar]: the white space and the line terminators. *)
Definition is_white (c : Z) : bool :=
  bool_decide (c ∈ [0x9; 0xA; 0xB; 0xC; 0xD; 0x20; 0xA0; 0x1680; 0x2028; 0x2029;
                    0x202F; 0x205F; 0x3000; 0xFEFF]%Z)
  || ((0x2000 <=? c) && (c <=? 0x200A))%Z.

Fixpoint skip_white (l : list Z) : list Z :=
  match l with
  | [] => []
  | c :: l' => if is_white c then skip_white l' else l
  end.

Definition trim (l : list Z) : list Z :=
  reverse (skip_white (reverse (skip_white l))).

(** The value of a digit in a base up to 16. *)
Definition digit_value (base c : Z) : option Z :=
  let d := if ((48 <=? c) && (c <=? 57))%Z then (c - 48)%Z
           else if ((97 <=? c) && (c <=? 102))%Z then (c - 87)%Z
           else if ((65 <=? c) && (c <=? 70))%Z then (c - 55)%Z
           else base in
  if (d <? base)%Z then Some d else None.

Definition is_digit_of (base c : Z) : bool := bool_decide (is_Some (digit_value base c)).

(** The mathematical value of a run of digits. *)
Definition digits_value (base : Z) (ds : list Z) : Z :=
  foldl (λ a c, a * base + default 0 (digit_value base c))%Z 0%Z ds.

(** The longest prefix of [l] whose elements satisfy [p], and what follows. *)
Fixpoint span (p : Z → bool) (l : list Z) : list Z * list Z :=
  match l with
  | [] => ([], [])
  | c :: l' =>
      if p c then let '(run, rest) := span p l' in (c :: run, rest) else ([], l)
  end.

(** What a numeric text denotes before it is rounded to a number. *)
Inductive numeral : Type :=
  | Infinite (negative : bool)
  | Finite (negative : bool) (digits : Z) (exponent : Z).
      (* (-1)^negative * digits * 10^exponent *)

(** The number nearest to the value of a numeral, the even one of two. *)
Definition numeral_value (x : numeral) : number :=
  match x with
  | Infinite negative => S754_infinity negative
  | Finite negative digits exponent =>
      match digits with
      | Zpos m =>
          if (0 <=? exponent)%Z
          then binary_normalize 53 1024 (cond_Zopp negative (Zpos m * 10 ^ exponent)) 0 negative
          else SFdiv 53 1024 (S754_finite negative m 0)
                 (S754_finite false (Z.to_pos (10 ^ (- exponent))) 0)
      | _ => S754_zero negative
      end
  end.

(** An optional sign at the head of [l]. *)
Definition sign_of (l : list Z) : bool * list Z :=
  match l with
  | c :: l' =>
      if (c =? 43)%Z then (false, l')
      else if (c =? 45)%Z then (true, l')
      else (false, l)
  | [] => (false, l)
  end.

(** [ExponentPart], up to the end of the literal. *)
Definition exponent_part (l : list Z) : option Z :=
  match l with
  | [] => Some 0%Z
  | c :: l' =>
      if bool_decide (c ∈ codes "eE") then
        let '(negative, l'') := sign_of l' in
        match span (is_digit_of 10) l'' with
        | ((_ :: _) as ds, []) => Some (cond_Zopp negative (digits_value 10 ds))
        | _ => None
        end
      else None
  end.

(** [StrUnsignedFiniteLiteral]: [Infinity], or digits with a point
    somewhere among them or none, and an exponent or none. *)
Definition unsigned_decimal (negative : bool) (l : list Z) : option numeral :=
  if bool_decide (l = codes "Infinity") then Some (Infinite negative)
  else
    let '(whole, rest) := span (is_digit_of 10) l in
    let '(fraction, rest') :=
      match rest with
      | c :: r => if (c =? 46)%Z then span (is_digit_of 10) r else ([], rest)
      | [] => ([], rest)
      end in
    match whole ++ fraction with
    | [] => None
    | ds =>
        e ← exponent_part rest';
        Some (Finite negative (digits_value 10 ds) (e - Z.of_nat (length fraction)))
    end.

(** [NonFiniteIntegerLiteral] after its prefix. *)
Definition radix_integer (base : Z) (l : list Z) : option numeral :=
  match span (is_digit_of base) l with
  | ((_ :: _) as ds, []) => Some (Finite false (digits_value base ds) 0)
  | _ => None
  end.

Definition radix_of (c : Z) : option Z :=
  if bool_decide (c ∈ codes "xX") then Some 16%Z
  else if bool_decide (c ∈ codes "oO") then Some 8%Z
  else if bool_decide (c ∈ codes "bB") then Some 2%Z
  else None.

(** [StrNumericLiteral], or nothing at all. *)
Definition numeric_literal (l : list Z) : option numeral :=
  match l with
  | [] => Some (Finite false 0 0)
  | c :: l' =>
      match (if (c =? 48)%Z then head l' ≫= radix_of else None) with
      | Some base => radix_integer base (tail l')
      | None =>
          let '(negative, l'') := sign_of l in unsigned_decimal negative l''
      end
  end.

(** [ToNumber] on a text; NaN when it is no numeric text. *)
Definition text_to_number (s : string) : number :=
  match utf8_decode s ≫= λ cps, numeric_literal (trim cps) with
  | Some x => numeral_value x
  | None => S754_nan
  end.

Definition has_key (key : string) (members : list (string * value)) : bool :=
  bool_decide (is_Some (assoc key members)).

(** [ToString].  An array is joined with commas, [undefined] and [null]
    elements giving the empty text; a plain object gives
    [Object.prototype.toString]'s text unless an own property (never a
    function here) hides that method, which is a [TypeError]. *)
Fixpoint to_string (v : value) : completion string :=
  match v with
  | JUndefined => Normal "undefined"
  | JNull => Normal "null"
  | JBool true => Normal "true"
  | JBool false => Normal "false"
  | JNumber n => Normal (print_number n "")
  | JString s => Normal s
  | JArray elements =>
      (fix join (l : list value) : completion string :=
         match l with
         | [] => Normal ""
         | x :: l' =>
             sx ← match x with
                  | JUndefined | JNull => Normal ""
                  | _ => to_string x
                  end;
             match l' with
             | [] => Normal sx
             | _ => sl ← join l'; Normal (sx +:+ "," +:+ sl)
             end
         end) elements
  | JObject members =>
      if has_key "toString" members then Throw TypeError
      else Normal "[object Object]"
  end.

(** The primitive values that [==] compares once objects are converted. *)
Inductive primitive : Type :=
  | PBool (b : bool)
  | PNumber (n : Z)
  | PString (s : string).

(** [ToNumber] on a primitive. *)
Definition to_number (p : primitive) : number :=
  match p with
  | PBool true => number_of_Z 1
  | PBool false => number_of_Z 0
  | PNumber n => number_of_Z n
  | PString s => text_to_number s
  end.

(** [x == y], the abstract equality comparison.  [undefined] and [null]
    equal each other and nothing else; two texts are compared as texts;
    otherwise an array or object is first converted to its text, and the two
    sides are compared as numbers, NaN being equal to nothing.  Two objects
    are equal only when they are one object: the answer that comes with a
    request is never the object stored in a question, so the model says
    [false]. *)
Definition to_primitive (v : value) : completion primitive :=
  match v with
  | JBool b => Normal (PBool b)
  | JNumber n => Normal (PNumber n)
  | _ => s ← to_string v; Normal (PString s)
  end.

Definition is_nullish (v : value) : bool :=
  match v with JUndefined | JNull => true | _ => false end.

Definition is_object (v : value) : bool :=
  match v with JArray _ | JObject _ => true | _ => false end.

Definition loose_eq (x y : value) : completion bool :=
  if is_nullish x || is_nullish y then Normal (is_nullish x && is_nullish y)
  else if is_object x && is_object y then Normal false
  else
    px ← to_primitive x;
    py ← to_primitive y;
    match px, py with
    | PString a, PString b => Normal (String.eqb a b)
    | _, _ => Normal (number_eqb (to_number px) (to_number py))
    end.

(** ** Question types (index.js, lines 56-105)

    [questionTypes] is filled by the two calls of [registerQuestionType]. *)
Inductive question_type : Type := free | multiple.

Definition questionTypes : gmap string question_type :=
  {[ "free" := free; "multiple" := multiple ]}.

(** Lines 83 and 101. *)
Definition present (ty : question_type) (question : value) : string :=
  match ty with
  | free => "present-free-text.pug"
  | multiple => "present-multiple-choice.pug"
  end.

(** Lines 85 and 104:
      free:      question.answer.toLowerCase() === answer.toLowerCase()
      multiple:  question.answer == answer *)
Definition mark (ty : question_type) (question answer : value) : completion bool :=
  match ty with
  | free =>
      expected ← get question "answer";
      l ← call_toLowerCase expected;
      r ← call_toLowerCase answer;
      Normal (String.eqb l r)
  | multiple =>
      expected ← get question "answer";
      loose_eq expected answer
  end.

(** [questionTypes[key].method]: a registered type has the method; on a
    member of [Object.prototype] the method is missing, or, for
    [Object.create], fails on the request and response it is given; on
    [undefined] the read itself fails. *)
Definition question_type_of (key : string) : completion question_type :=
  match get_property questionTypes key with
  | Own ty => Normal ty
  | Inherited _ => Throw TypeError
  | Undefined => Throw TypeError
  end.

(** *** The claims' wording, to compare [mark] with *)

(** Two characters that are equal, or are a capital and its small letter, or
    are two capitals of one small letter. *)
Definition same_letter (x y : Z) : bool :=
  (x =? y)%Z
  || bool_decide (small_of x = Some y)
  || bool_decide (small_of y = Some x)
  || match small_of x, small_of y with
     | Some l, Some l' => (l =? l')%Z
     | _, _ => false
     end.

(** Equality of two texts ignoring letter case, letter by letter. *)
Fixpoint equal_letters (a b : list Z) : bool :=
  match a, b with
  | [], [] => true
  | x :: a', y :: b' => same_letter x y && equal_letters a' b'
  | _, _ => false
  end.

Definition equal_ignoring_case (a b : string) : bool :=
  match utf8_decode a, utf8_decode b with
  | Some x, Some y => equal_letters x y
  | _, _ => false
  end.

(** The texts whose lower case is made letter by letter: those that hold
    neither the capital I with a dot nor the capital sigma. *)
Definition letter_by_letter (s : string) : bool :=
  match utf8_decode s with
  | Some cps =>
      forallb (λ c, negb (c =? capital_dotted_i)%Z && negb (c =? capital_sigma)%Z) cps
  | None => false
  end.

(** The characters that [capital_runs] lists. *)
Definition run_capitals (run : Z * Z * Z * Z) : list Z :=
  let '(first, last, step, _) := run in
  (λ k, (first + step * Z.of_nat k)%Z) <$> seq 0 (Z.to_nat ((last - first) / step) + 1).

Definition capitals : list Z := capital_runs ≫= run_capitals.

(** **** Numeric texts, as the grammar [StringNumericLiteral] gives them *)

Definition digits_of (base : Z) (ds : list Z) : Prop :=
  ds ≠ [] ∧ Forall (λ c, is_digit_of base c = true) ds.

Inductive sign_text : list Z → bool → Prop :=
  | sign_none : sign_text [] false
  | sign_plus : sign_text (codes "+") false
  | sign_minus : sign_text (codes "-") true.

Inductive exponent_text : list Z → Z → Prop :=
  | exponent_none : exponent_text [] 0
  | exponent_some (indicator : Z) (sg ds : list Z) (negative : bool) :
      indicator ∈ codes "eE" → sign_text sg negative → digits_of 10 ds →
      exponent_text (indicator :: sg ++ ds) (cond_Zopp negative (digits_value 10 ds)).

Inductive decimal_text : list Z → Z → Z → Prop :=
  | decimal_point (whole fraction ex : list Z) (e : Z) :
      Forall (λ c, is_digit_of 10 c = true) whole →
      Forall (λ c, is_digit_of 10 c = true) fraction →
      whole ++ fraction ≠ [] →
      exponent_text ex e →
      decimal_text (whole ++ codes "." ++ fraction ++ ex)
        (digits_value 10 (whole ++ fraction)) (e - Z.of_nat (length fraction))
  | decimal_integer (whole ex : list Z) (e : Z) :
      digits_of 10 whole → exponent_text ex e →
      decimal_text (whole ++ ex) (digits_value 10 whole) e.

Inductive radix_prefix : Z → Z → Prop :=
  | radix_hex (p : Z) : p ∈ codes "xX" → radix_prefix p 16
  | radix_octal (p : Z) : p ∈ codes "oO" → radix_prefix p 8
  | radix_binary (p : Z) : p ∈ codes "bB" → radix_prefix p 2.

Inductive literal_text : list Z → numeral → Prop :=
  | literal_blank : literal_text [] (Finite false 0 0)
  | literal_infinity (sg : list Z) (negative : bool) :
      sign_text sg negative →
      literal_text (sg ++ codes "Infinity") (Infinite negative)
  | literal_decimal (sg l : list Z) (negative : bool) (m e : Z) :
      sign_text sg negative → decimal_text l m e →
      literal_text (sg ++ l) (Finite negative m e)
  | literal_radix (p base : Z) (ds : list Z) :
      radix_prefix p base → digits_of base ds →
      literal_text (codes "0" ++ p :: ds) (Finite false (digits_value base ds) 0).

(** A text that denotes [x]: a literal with white space around it. *)
Definition numeric_text (l : list Z) (x : numeral) : Prop :=
  ∃ before lit after,
    l = before ++ lit ++ after
    ∧ Forall (λ c, is_white c = true) before
    ∧ Forall (λ c, is_white c = true) after
    ∧ literal_text lit x.

(** The characters of a literal (none of them is white space), and those of
    a decimal literal. *)
Definition literal_char (c : Z) : Prop := (33 ≤ c ≤ 122)%Z.

Definition decimal_char (c : Z) : Prop :=
  (48 ≤ c ≤ 57 ∨ c = 46 ∨ c = 101 ∨ c = 69 ∨ c = 43 ∨ c = 45)%Z.

(** The text [s] reads as the integer [i]: it is a numeric text, and the
    number nearest to what it denotes is [i]. *)
Definition reads_as (s : string) (i : Z) : Prop :=
  ∃ cps x, utf8_decode s = Some cps
           ∧ numeric_text cps x
           ∧ number_eqb (numeral_value x) (number_of_Z i) = true.

(** ** JSON (the built-ins [JSON.stringify] and [JSON.parse]) *)

Definition quote : ascii := ascii_of_nat 34.
Definition backslash : ascii := ascii_of_nat 92.

Definition hex_digit (n : nat) : ascii :=
  if n <? 10 then ascii_of_nat (48 + n) else ascii_of_nat (87 + n).

(** [QuoteJSONString], one character: the quote, the backslash and the
    control characters are escaped, everything else is copied. *)
Definition print_char (c : ascii) (rest : string) : string :=
  let n := nat_of_ascii c in
  if n =? 34 then String backslash (String quote rest)
  else if n =? 92 then String backslash (String backslash rest)
  else if n =? 8 then String backslash (String "b" rest)
  else if n =? 9 then String backslash (String "t" rest)
  else if n =? 10 then String backslash (String "n" rest)
  else if n =? 12 then String backslash (String "f" rest)
  else if n =? 13 then String backslash (String "r" rest)
  else if n <? 32 then
    String backslash (String "u" (String "0" (String "0"
      (String (hex_digit (n / 16)) (String (hex_digit (n mod 16)) rest)))))
  else String c rest.

Fixpoint print_chars (s : string) (rest : string) : string :=
  match s with
  | EmptyString => rest
  | String c s' => print_char c (print_chars s' rest)
  end.

Definition print_string (s : string) (rest : string) : string :=
  String quote (print_chars s (String quote rest)).

(** [SerializeJSONProperty] followed by [rest].  In an array [undefined] is
    written [null]; in an object a property whose value is [undefined] is
    left out.  No value here is a function or has a [toJSON] method. *)
Fixpoint print_value (v : value) (rest : string) : string :=
  match v with
  | JUndefined | JNull => "null" +:+ rest
  | JBool true => "true" +:+ rest
  | JBool false => "false" +:+ rest
  | JNumber n => print_number n rest
  | JString s => print_string s rest
  | JArray elements =>
      String "[" (
        (fix print_elements (l : list value) : string :=
           match l with
           | [] => String "]" rest
           | x :: l' =>
               print_value x
                 match l' with
                 | [] => print_elements l'
                 | _ => String "," (print_elements l')
                 end
           end) elements)
  | JObject members =>
      String "{" (
        (fix print_members (first : bool) (m : list (string * value)) : string :=
           match m with
           | [] => String "}" rest
           | (k, x) :: m' =>
               match x with
               | JUndefined => print_members first m'
               | _ =>
                   (if first then "" else ",") +:+
                   print_string k (String ":" (print_value x (print_members false m')))
               end
           end) true members)
  end.

(** [JSON.stringify(v)]; [None] is [undefined]. *)
Definition JSON_stringify (v : value) : option string :=
  match v with
  | JUndefined => None
  | _ => Some (print_value v "")
  end.

(** The two loops of [print_value], by name. *)
Fixpoint print_elements (l : list value) (rest : string) : string :=
  match l with
  | [] => String "]" rest
  | x :: l' =>
      print_value x
        match l' with
        | [] => print_elements l' rest
        | _ => String "," (print_elements l' rest)
        end
  end.

Fixpoint print_members (first : bool) (m : list (string * value)) (rest : string)
  : string :=
  match m with
  | [] => String "}" rest
  | (k, x) :: m' =>
      match x with
      | JUndefined => print_members first m' rest
      | _ =>
          (if first then "" else ",") +:+
          print_string k (String ":" (print_value x (print_members false m' rest)))
      end
  end.

(** What a parser returns: a result and the text left, a [SyntaxError], or
    nothing where the text leaves the model (a fraction or an exponent, an
    integer that is not safe, a [\u] escape of a character outside ASCII). *)
Inductive parsed (A : Type) : Type :=
  | Parsed (a : A) (rest : string)
  | Syntax
  | Unmodelled.
Arguments Parsed {A} a rest.
Arguments Syntax {A}.
Arguments Unmodelled {A}.

Definition parsed_map {A B : Type} (f : A → B) (r : parsed A) : parsed B :=
  match r with
  | Parsed a rest => Parsed (f a) rest
  | Syntax => Syntax
  | Unmodelled => Unmodelled
  end.

(** JSON white space: SP, TAB, LF, CR. *)
Definition is_json_space (c : ascii) : bool :=
  let n := nat_of_ascii c in (n =? 32) || (n =? 9) || (n =? 10) || (n =? 13).

Fixpoint skip_ws (s : string) : string :=
  match s with
  | EmptyString => EmptyString
  | String c s' => if is_json_space c then skip_ws s' else s
  end.

Definition hex_value (c : ascii) : option nat :=
  let n := nat_of_ascii c in
  if (48 <=? n) && (n <=? 57) then Some (n - 48)
  else if (97 <=? n) && (n <=? 102) then Some (n - 87)
  else if (65 <=? n) && (n <=? 70) then Some (n - 55)
  else None.

Definition simple_escape (e : ascii) : option ascii :=
  let n := nat_of_ascii e in
  if n =? 34 then Some quote
  else if n =? 92 then Some backslash
  else if n =? 47 then Some "/"%char
  else if n =? 98 then Some (ascii_of_nat 8)
  else if n =? 102 then Some (ascii_of_nat 12)
  else if n =? 110 then Some (ascii_of_nat 10)
  else if n =? 114 then Some (ascii_of_nat 13)
  else if n =? 116 then Some (ascii_of_nat 9)
  else None.

(** The characters of a JSON string up to its closing quote. *)
Fixpoint parse_chars (s : string) : parsed string :=
  match s with
  | EmptyString => Syntax
  | String c r =>
      if nat_of_ascii c =? 34 then Parsed EmptyString r
      else if nat_of_ascii c =? 92 then
        match r with
        | EmptyString => Syntax
        | String e r' =>
            match simple_escape e with
            | Some d => parsed_map (String d) (parse_chars r')
            | None =>
                if nat_of_ascii e =? 117 then
                  match r' with
                  | String h1 (String h2 (String h3 (String h4 r''))) =>
                      match hex_value h1, hex_value h2, hex_value h3, hex_value h4 with
                      | Some x1, Some x2, Some x3, Some x4 =>
                          let code := ((x1 * 16 + x2) * 16 + x3) * 16 + x4 in
                          if code <? 128
                          then parsed_map (String (ascii_of_nat code)) (parse_chars r'')
                          else Unmodelled
                      | _, _, _, _ => Syntax
                      end
                  | _ => Syntax
                  end
                else Syntax
            end
        end
      else if nat_of_ascii c <? 32 then Syntax
      else parsed_map (String c) (parse_chars r)
  end.

(** The integer [z] has been read and [rest] follows: a further digit (after
    a leading [0]) is a syntax error; a fraction or an exponent, or an
    integer that is not safe, leaves the model. *)
Definition number_end (z : Z) (rest : string) : parsed value :=
  match rest with
  | String c _ =>
      if is_digit c then Syntax
      else if bool_decide (c ∈ [ "."; "e"; "E" ]%char) then Unmodelled
      else if is_safe_integer z then Parsed (JNumber z) rest else Unmodelled
  | EmptyString =>
      if is_safe_integer z then Parsed (JNumber z) rest else Unmodelled
  end.

(** The digits of a JSON number: [0], or a run of digits that does not start
    with [0]. *)
Definition parse_digits (negative : bool) (s : string) : parsed value :=
  match s with
  | EmptyString => Syntax
  | String c r =>
      if negb (is_digit c) then Syntax
      else
        let '(d, rest) :=
          if nat_of_ascii c =? 48 then (Decimal.D0 Decimal.Nil, r) else read_uint s in
        let n := Z.of_N (N.of_uint d) in
        number_end (if negative then (- n)%Z else n) rest
  end.

(** A JSON number: an optional minus, then the digits. *)
Definition parse_number (s : string) : parsed value :=
  match s with
  | String "-" r => parse_digits true r
  | _ => parse_digits false s
  end.

(** The characters that the text of a value starts with. *)
Definition value_start (c : ascii) : bool :=
  let n := nat_of_ascii c in
  is_digit c || (n =? 110) || (n =? 116) || (n =? 102) || (n =? 34)
  || (n =? 91) || (n =? 123) || (n =? 45).

(** What follows a value inside the text that [print_value] writes: the end
    of the text, a comma or a closing bracket. *)
Definition delimited (rest : string) : bool :=
  match rest with
  | EmptyString => true
  | String c _ => bool_decide (c ∈ [ ","; "]"; "}" ]%char)
  end.

(** What follows [word] at the head of [s], if [s] starts with it. *)
Fixpoint after_prefix (word s : string) : option string :=
  match word with
  | EmptyString => Some s
  | String c word' =>
      match s with
      | EmptyString => None
      | String c' s' => if Ascii.eqb c c' then after_prefix word' s' else None
      end
  end.

Definition expect {A : Type} (word : string) (a : A) (s : string) : parsed A :=
  match after_prefix word s with
  | Some rest => Parsed a rest
  | None => Syntax
  end.

(** *** Objects as [JSON.parse] builds them

    A property key that is an array index (the canonical numeral of an integer
    below 2^32 - 1) is enumerated before the other keys, in numeric order;
    the other keys are enumerated in the order of their creation. *)
Definition array_index (key : string) : option N :=
  match read_uint key with
  | (Decimal.Nil, _) => None
  | (d, EmptyString) =>
      let n := N.of_uint d in
      if String.eqb (print_uint (N.to_uint n) "") key && (n <? 4294967295)%N
      then Some n else None
  | (_, String _ _) => None
  end.

(** [CreateDataProperty(object, key, v)] on the list of own properties. *)
Fixpoint define_property (key : string) (v : value) (members : list (string * value))
  : list (string * value) :=
  match members with
  | [] => [(key, v)]
  | (k, x) :: members' =>
      if String.eqb k key then (k, v) :: members'
      else
        match array_index key, array_index k with
        | Some i, Some j =>
            if (i <? j)%N && negb (has_key key members')
            then (key, v) :: members
            else (k, x) :: define_property key v members'
        | Some i, None =>
            if has_key key members' then (k, x) :: define_property key v members'
            else (key, v) :: members
        | None, _ => (k, x) :: define_property key v members'
        end
  end.

Definition build_object (members : list (string * value)) : value :=
  JObject (foldl (λ acc kv, define_property kv.1 kv.2 acc) [] members).

(** The recursive-descent parser of JSON values.  [fuel] bounds the number of
    nested calls; [JSON_parse] gives it more than the text is long. *)
Fixpoint parse_value (fuel : nat) (s : string) {struct fuel} : parsed value :=
  match fuel with
  | 0 => Unmodelled
  | S fuel' =>
      match skip_ws s with
      | EmptyString => Syntax
      | String c r =>
          let n := nat_of_ascii c in
          if n =? 110 then expect "ull" JNull r
          else if n =? 116 then expect "rue" (JBool true) r
          else if n =? 102 then expect "alse" (JBool false) r
          else if n =? 34 then parsed_map JString (parse_chars r)
          else if n =? 91 then
            match skip_ws r with
            | String "]" r' => Parsed (JArray []) r'
            | _ => parsed_map JArray (parse_elements fuel' r)
            end
          else if n =? 123 then
            match skip_ws r with
            | String "}" r' => Parsed (JObject []) r'
            | _ => parsed_map build_object (parse_members fuel' r)
            end
          else parse_number (String c r)
      end
  end
with parse_elements (fuel : nat) (s : string) {struct fuel} : parsed (list value) :=
  match fuel with
  | 0 => Unmodelled
  | S fuel' =>
      match parse_value fuel' s with
      | Parsed v r =>
          match skip_ws r with
          | String "," r' => parsed_map (cons v) (parse_elements fuel' r')
          | String "]" r' => Parsed [v] r'
          | _ => Syntax
          end
      | Syntax => Syntax
      | Unmodelled => Unmodelled
      end
  end
with parse_members (fuel : nat) (s : string) {struct fuel}
  : parsed (list (string * value)) :=
  match fuel with
  | 0 => Unmodelled
  | S fuel' =>
      match skip_ws s with
      | String c r =>
          if negb (nat_of_ascii c =? 34) then Syntax
          else
            match parse_chars r with
            | Parsed k r1 =>
                match skip_ws r1 with
                | String ":" r2 =>
                    match parse_value fuel' r2 with
                    | Parsed v r3 =>
                        match skip_ws r3 with
                        | String "," r4 =>
                            parsed_map (cons (k, v)) (parse_members fuel' r4)
                        | String "}" r4 => Parsed [(k, v)] r4
                        | _ => Syntax
                        end
                    | Syntax => Syntax
                    | Unmodelled => Unmodelled
                    end
                | _ => Syntax
                end
            | Syntax => Syntax
            | Unmodelled => Unmodelled
            end
      | EmptyString => Syntax
      end
  end.

(** What [JSON.parse(text)] does. *)
Inductive parse_result : Type :=
  | ParsedValue (v : value)
  | ParseSyntaxError
  | ParseUnmodelled.

Definition JSON_parse (text : string) : parse_result :=
  match parse_value (S (String.length text)) text with
  | Parsed v rest =>
      match skip_ws rest with
      | EmptyString => ParsedValue v
      | String _ _ => ParseSyntaxError
      end
  | Syntax => ParseSyntaxError
  | Unmodelled => ParseUnmodelled
  end.

(** ** The download link (index.js, lines 134-137) *)

Definition base64_char (n : nat) : ascii :=
  if n <? 26 then ascii_of_nat (65 + n)
  else if n <? 52 then ascii_of_nat (71 + n)
  else if n <? 62 then ascii_of_nat (n - 4)
  else if n =? 62 then "+"%char
  else "/"%char.

(** [Buffer.from(json).toString("base64")] on the bytes of the text. *)
Fixpoint base64 (bytes : string) : string :=
  match bytes with
  | EmptyString => EmptyString
  | String a EmptyString =>
      let x := nat_of_ascii a in
      String (base64_char (x / 4)) (String (base64_char (x mod 4 * 16)) "==")
  | String a (String b EmptyString) =>
      let x := nat_of_ascii a in
      let y := nat_of_ascii b in
      String (base64_char (x / 4))
        (String (base64_char (x mod 4 * 16 + y / 16))
           (String (base64_char (y mod 16 * 4)) "="))
  | String a (String b (String c rest)) =>
      let x := nat_of_ascii a in
      let y := nat_of_ascii b in
      let z := nat_of_ascii c in
      String (base64_char (x / 4))
        (String (base64_char (x mod 4 * 16 + y / 16))
           (String (base64_char (y mod 16 * 4 + z / 64))
              (String (base64_char (z mod 64)) (base64 rest))))
  end.

Definition data_uri_prefix : string := "data:application/json;base64,".

Definition jsonToDataURI (json : string) : string :=
  data_uri_prefix +:+ base64 json.

(** The other end of the link, which is the browser's work and not the
    repository's: following a [data:] link with the [download] attribute
    saves the bytes its base64 payload stands for. *)
Definition base64_index (c : ascii) : option nat :=
  let n := nat_of_ascii c in
  if (65 <=? n) && (n <=? 90) then Some (n - 65)
  else if (97 <=? n) && (n <=? 122) then Some (n - 71)
  else if (48 <=? n) && (n <=? 57) then Some (n + 4)
  else if n =? 43 then Some 62
  else if n =? 47 then Some 63
  else None.

Fixpoint base64_decode (s : string) : option string :=
  match s with
  | EmptyString => Some EmptyString
  | String c1 (String c2 (String c3 (String c4 rest))) =>
      i1 ← base64_index c1;
      i2 ← base64_index c2;
      let b1 := ascii_of_nat (i1 * 4 + i2 / 16) in
      if Ascii.eqb c3 "=" then
        if Ascii.eqb c4 "=" && String.eqb rest "" then Some (String b1 "") else None
      else
        i3 ← base64_index c3;
        let b2 := ascii_of_nat (i2 mod 16 * 16 + i3 / 4) in
        if Ascii.eqb c4 "=" then
          if String.eqb rest "" then Some (String b1 (String b2 "")) else None
        else
          i4 ← base64_index c4;
          let b3 := ascii_of_nat (i3 mod 4 * 64 + i4) in
          tail ← base64_decode rest;
          Some (String b1 (String b2 (String b3 tail)))
  | _ => None
  end.

Definition download (uri : string) : option string :=
  payload ← after_prefix data_uri_prefix uri; base64_decode payload.

(** ** Export and import of a quiz

    The overview page carries [jsonToDataURI(JSON.stringify(quiz))] as its
    download link (line 122); the file saved from it is what [/load] reads
    back with [JSON.parse] (line 109). *)
Definition export (quiz : value) : option string :=
  jsonToDataURI <$> JSON_stringify quiz.

Definition export_then_import (quiz : value) : option parse_result :=
  uri ← export quiz;
  data ← download uri;
  Some (JSON_parse data).

(** The own properties of an object are listed in enumeration order when
    creating them one by one, as [JSON.parse] does, gives the same list. *)
Definition enumeration_ordered (members : list (string * value)) : Prop :=
  build_object members = JObject members.

(** Distinct keys of which none is an array index are always in enumeration
    order (see [plain_keys_enumeration_ordered]). *)
Definition plain_keys (members : list (string * value)) : Prop :=
  NoDup members.*1 ∧ Forall (λ kv, array_index kv.1 = None) members.

(** [k] is enumerated before [k']: array indices in numeric order, then the
    other keys. *)
Definition before (k k' : string) : Prop :=
  match array_index k, array_index k' with
  | Some i, Some j => (i < j)%N
  | Some _, None => True
  | None, Some _ => False
  | None, None => True
  end.

(** Distinct keys, each enumerated before the ones after it. *)
Fixpoint in_order (members : list (string * value)) : Prop :=
  match members with
  | [] => True
  | (k, _) :: members' =>
      Forall (λ kv, kv.1 ≠ k ∧ before k kv.1) members' ∧ in_order members'
  end.

(** The values that JSON text can hold: no [undefined] at any depth, and
    objects with their properties in enumeration order. *)
Fixpoint json_data (v : value) : Prop :=
  match v with
  | JUndefined => False
  | JNull | JBool _ | JString _ => True
  | JNumber n => is_safe_integer n = true
  | JArray elements =>
      (fix all (l : list value) : Prop :=
         match l with
         | [] => True
         | x :: l' => json_data x ∧ all l'
         end) elements
  | JObject members =>
      enumeration_ordered members
      ∧ (fix all (m : list (string * value)) : Prop :=
           match m with
           | [] => True
           | (_, x) :: m' => json_data x ∧ all m'
           end) members
  end.

(** The number of calls that parsing the text of [v] nests at most. *)
Fixpoint weight (v : value) : nat :=
  match v with
  | JArray elements =>
      S ((fix sum (l : list value) : nat :=
            match l with
            | [] => 0
            | x :: l' => S (weight x + sum l')
            end) elements)
  | JObject members =>
      S ((fix sum (m : list (string * value)) : nat :=
            match m with
            | [] => 0
            | (_, x) :: m' => S (weight x + sum m')
            end) members)
  | _ => 1
  end.

(** ** Application logic (index.js, lines 107-179)

    What the query parser of Express (the package [qs]) makes of a field of
    the query string: a text ([a=1]), an array ([a[]=1&a[]=2]) or an object
    ([a[b]=1]), the elements and members being such values again. *)
#[local] Unset Elimination Schemes.
Inductive param : Type :=
  | Text (s : string)
  | Many (elements : list param)
  | Nested (members : list (string * param)).
#[local] Set Elimination Schemes.

(** The value that a field of the query is: the properties of an object are
    created one after the other. *)
Fixpoint param_value (p : param) : value :=
  match p with
  | Text s => JString s
  | Many elements => JArray (param_value <$> elements)
  | Nested members =>
      build_object
        ((fix values (m : list (string * param)) : list (string * value) :=
            match m with
            | [] => []
            | (k, x) :: m' => (k, param_value x) :: values m'
            end) members)
  end.

(** A request that resumes a procedure brings its query, the data of the
    uploaded file if there is one, and the reading of the clock while it is
    handled. *)
Record request : Type := Request {
  query : gmap string param;
  file : option string;
  now : Z
}.

(** [req.query.key], for a key that [Object.prototype] does not define (the
    flows read [quizTitle], [addQuestion], [type], [playQuiz], [overview],
    [question], [answer], [correctIndex] and [choice1] to [choice5]). *)
Definition field (req : request) (key : string) : value :=
  match query req !! key with
  | Some p => param_value p
  | None => JUndefined
  end.

(** [ToBoolean], as in [if(req.query.addQuestion)]. *)
Definition truthy (v : value) : bool :=
  match v with
  | JUndefined | JNull => false
  | JBool b => b
  | JNumber n => negb (n =? 0)%Z
  | JString s => negb (String.eqb s "")
  | JArray _ | JObject _ => true
  end.

(** The operands of [add] in [playQuiz]: the booleans that [mark] returns,
    the response times, and the numbers their sums are. *)
Inductive operand : Type :=
  | OBool (b : bool)
  | ONumber (x : number).

(** [ToNumber] on an operand. *)
Definition operand_number (a : operand) : number :=
  match a with
  | OBool true => number_of_Z 1
  | OBool false => number_of_Z 0
  | ONumber x => x
  end.

(** Line 168: [const add = (a,b) => a+b]. *)
Definition add (a b : operand) : operand :=
  ONumber (number_add (operand_number a) (operand_number b)).

(** [Array.prototype.reduce] without an initial value: the first element
    starts the fold, and on an empty array there is none, a [TypeError]. *)
Definition reduce {A : Type} (f : A → A → A) (l : list A) : completion A :=
  match l with
  | [] => Throw TypeError
  | a :: l' => Normal (foldl f a l')
  end.

(** Line 152: [(Date.now() - startTime) / 1000], the clock reading
    [startTime] and then [finish] milliseconds. *)
Definition elapsed (startTime finish : Z) : number :=
  number_div (number_sub (number_of_Z finish) (number_of_Z startTime)) (number_of_Z 1000).

(** An entry of [stats]. *)
Record stat : Type := Stat {
  stat_question : value;
  responseTime : number;
  correct : bool
}.

(** What a procedure sends when it pauses: the template and the options the
    source gives it (without [questionTypes], which the overview template
    also receives). *)
Inductive page : Type :=
  | LoadQuizPage
  | NewQuizPage
  | OverviewPage (quiz : value) (downloadLink : string)
  | AddQuestionPage (filename : string)
  | QuestionPage (filename : string) (title quiz question : value)
  | FeedbackPage (title : value) (is_correct : bool) (time : number)
      (userAnswer question : value)
  | FinishedPage (title : value) (answersCorrect totalTime : operand)
      (totalQuestions : nat).

(** The rest of a paused procedure: the [await] it stands at, with its local
    variables. *)
Inductive continuation : Type :=
  | AwaitNewQuiz                                   (* line 114 *)
  | AwaitLoadQuiz                                  (* line 108 *)
  | AwaitOverview (quiz : value)                   (* line 121 *)
  | AwaitQuestion (ty : question_type) (quiz : value)   (* lines 77 and 92 *)
  | AwaitAnswer (quiz : value) (stats : list stat) (question : value)
      (rest : list value) (startTime : Z)          (* line 146 *)
  | AwaitFeedback (quiz : value) (stats : list stat) (rest : list value)
                                                   (* line 159 *)
  | AwaitFinished (quiz : value).                  (* line 172 *)

(** How far a procedure gets when it is started or resumed: to its next
    [sendSuspend], or to an exception that rejects its promise (nothing is
    sent then).  [OutsideModel] stands for an upload that [JSON_parse] does
    not cover. *)
Inductive outcome : Type :=
  | Suspended (p : page) (k : continuation)
  | Rejected (e : error)
  | OutsideModel.

Definition attempt {A : Type} (c : completion A) (k : A → outcome) : outcome :=
  match c with
  | Normal a => k a
  | Throw e => Rejected e
  end.

Notation "'let!' x ':=' c 'in' k" := (attempt c (λ x, k))
  (at level 10, x name, c at level 100, k at level 200, only parsing).

(** [manageQuiz], lines 119-123: the arguments of [sendSuspendTemplate] are
    evaluated, among them [jsonToDataURI(JSON.stringify(quiz))], and the
    overview is sent.  [Buffer.from(undefined)] is a [TypeError]. *)
Definition manageQuiz (quiz : value) : outcome :=
  match JSON_stringify quiz with
  | Some json => Suspended (OverviewPage quiz (jsonToDataURI json)) (AwaitOverview quiz)
  | None => Rejected TypeError
  end.

(** [questionTypes[question.type]]: the key is [ToString] of the property. *)
Definition question_type_for (question : value) : completion question_type :=
  ty ← get question "type";
  key ← to_string ty;
  question_type_of key.

(** Lines 168-174, after the loop over the questions. *)
Definition finish (quiz : value) (stats : list stat) : outcome :=
  let! answersCorrect := reduce add ((λ st, OBool (correct st)) <$> stats) in
  let! totalTime := reduce add ((λ st, ONumber (responseTime st)) <$> stats) in
  let! title := get quiz "title" in
  Suspended
    (FinishedPage title answersCorrect totalTime (length stats))
    (AwaitFinished quiz).

(** Lines 143-150: the loop of [playQuiz] with [questions] still to ask. *)
Definition ask (quiz : value) (stats : list stat) (questions : list value)
    (startTime : Z) : outcome :=
  match questions with
  | [] => finish quiz stats
  | question :: rest =>
      let! ty := question_type_for question in
      let! title := get quiz "title" in
      Suspended
        (QuestionPage (present ty question) title quiz question)
        (AwaitAnswer quiz stats question rest startTime)
  end.

(** [for(const question of v)]: an array gives its elements, a text its
    characters, anything else is not iterable. *)
Definition iterate (v : value) : completion (list value) :=
  match v with
  | JArray elements => Normal elements
  | JString s => Normal ((λ c, JString (String c EmptyString)) <$> list_ascii_of_string s)
  | _ => Throw TypeError
  end.

(** [playQuiz], lines 139-143, started when the clock reads [startTime]. *)
Definition playQuiz (quiz : value) (startTime : Z) : outcome :=
  let! questions := (qs ← get quiz "questions"; iterate qs) in
  ask quiz [] questions startTime.

(** The objects that the two [create] methods return (lines 78-81 and 95-99),
    with the [type] that [registerQuestionType] assigns (line 68). *)
Definition create (ty : question_type) (req : request) : value :=
  match ty with
  | free =>
      JObject [ ("text", field req "question");
                ("answer", field req "answer");
                ("type", JString "free") ]
  | multiple =>
      JObject [ ("text", field req "question");
                ("answer", field req "correctIndex");
                ("choices",
                  JArray (field req <$>
                    ["choice1"; "choice2"; "choice3"; "choice4"; "choice5"]));
                ("type", JString "multiple") ]
  end.

Definition create_template (ty : question_type) : string :=
  match ty with
  | free => "add-question.pug"
  | multiple => "add-multiple-choice.pug"
  end.

Fixpoint set_member (key : string) (v : value) (members : list (string * value))
  : list (string * value) :=
  match members with
  | [] => []
  | (k, x) :: members' =>
      if String.eqb k key then (k, v) :: members'
      else (k, x) :: set_member key v members'
  end.

(** Line 127: [quiz.questions.push(question)]. *)
Definition push_question (quiz question : value) : completion value :=
  qs ← get quiz "questions";
  match quiz, qs with
  | JObject members, JArray elements =>
      Normal (JObject (set_member "questions" (JArray (elements ++ [question])) members))
  | _, _ => Throw TypeError
  end.

(** The handlers of [/new] and [/load] up to their first [await]. *)
Definition new_quiz : outcome := Suspended NewQuizPage AwaitNewQuiz.
Definition load_quiz : outcome := Suspended LoadQuizPage AwaitLoadQuiz.

(** A paused procedure resumed with the request [req]. *)
Definition resume (k : continuation) (req : request) : outcome :=
  match k with
  | AwaitNewQuiz =>
      (* lines 115-116 *)
      manageQuiz (JObject [("title", field req "quizTitle"); ("questions", JArray [])])
  | AwaitLoadQuiz =>
      (* lines 109-110 *)
      match file req with
      | None => Rejected TypeError
      | Some data =>
          match JSON_parse data with
          | ParsedValue quiz => manageQuiz quiz
          | ParseSyntaxError => Rejected SyntaxError
          | ParseUnmodelled => OutsideModel
          end
      end
  | AwaitOverview quiz =>
      (* lines 125-130 *)
      if truthy (field req "addQuestion") then
        let! key := to_string (field req "type") in
        let! ty := question_type_of key in
        Suspended (AddQuestionPage (create_template ty)) (AwaitQuestion ty quiz)
      else if truthy (field req "playQuiz") then playQuiz quiz (now req)
      else manageQuiz quiz
  | AwaitQuestion ty quiz =>
      (* lines 78-81 or 95-99, then 67-68 and 126-127 *)
      let! quiz' := push_question quiz (create ty req) in
      manageQuiz quiz'
  | AwaitAnswer quiz stats question rest startTime =>
      (* lines 152-165 *)
      let time := elapsed startTime (now req) in
      let! ty := question_type_for question in
      let! is_correct := mark ty question (field req "answer") in
      let stats' := stats ++ [Stat question time is_correct] in
      let! title := get quiz "title" in
      Suspended
        (FeedbackPage title is_correct time (field req "answer") question)
        (AwaitFeedback quiz stats' rest)
  | AwaitFeedback quiz stats rest =>
      (* the next turn of the loop of line 143 *)
      ask quiz stats rest (now req)
  | AwaitFinished quiz =>
      (* line 177, or the next turn of the loop of line 140 *)
      if truthy (field req "overview") then manageQuiz quiz
      else playQuiz quiz (now req)
  end.

(** A request that the form for a multiple-choice question can be answered
    with: the question and the correct index, and no choice field; and the
    quiz titled "Geo" once the question made from it is added. *)
Definition request_without_choices : request :=
  Request {[ "question" := Text "Q"; "correctIndex" := Text "1" ]} None 0.

Definition quiz_without_choices : value :=
  JObject [ ("title", JString "Geo");
            ("questions", JArray [create multiple request_without_choices]) ].

(** ** The server (index.js, lines 45-52, 107-117)

    One request handled to its end: the route handler runs, the procedure it
    starts or resumes runs to its next [sendSuspend], and [sendSuspend] sends
    the page with the URL to continue at and stores the continuation under
    [continuationID], the identifier that [uuidv4()] returns then. *)
Inductive http : Type :=
  | GetNew                                              (* GET /new *)
  | GetLoad                                             (* GET /load *)
  | AllContinue (token : string) (req : request).       (* /continue/:continuationID *)

Inductive reply : Type :=
  | Page (p : page) (url : string)   (* line 27 *)
  | Notice                           (* line 51 *)
  | NoReply                          (* the handler ends without [res.send] *)
  | ServerError.                     (* Express's page for a handler that throws *)

Definition suspend (continuationID : string) (o : outcome)
    (st : registry continuation) : reply * registry continuation :=
  match o with
  | Suspended p k => (Page p (continueURL continuationID), sendSuspend continuationID k st)
  | Rejected _ | OutsideModel => (NoReply, st)
  end.

(** Line 49 on a member of [Object.prototype], [continuation([req, res])]
    with no [this]: [constructor] and [toString] return and nothing is sent;
    [__proto__] is no function and the other members need a [this], so the
    call throws a TypeError inside the route handler, which Express answers
    with its error page. *)
Definition call_inherited (name : string) : reply :=
  if bool_decide (name ∈ ["constructor"; "toString"]) then NoReply else ServerError.

Definition handle (continuationID : string) (h : http) (st : registry continuation)
  : reply * registry continuation :=
  match h with
  | GetNew => suspend continuationID new_quiz st
  | GetLoad => suspend continuationID load_quiz st
  | AllContinue token req =>
      match continue_handler token st with
      | (Resumed k, st') => suspend continuationID (resume k req) st'
      | (CalledInherited name, st') => (call_inherited name, st')
      | (Expired, st') => (Notice, st')
      end
  end.

(** A session: the requests in order, each with the identifier that
    [uuidv4()] returns while it is handled; the replies, oldest first. *)
Fixpoint serve (session : list (string * http)) (st : registry continuation)
  : list reply * registry continuation :=
  match session with
  | [] => ([], st)
  | (continuationID, h) :: session' =>
      let '(r, st') := handle continuationID h st in
      let '(replies, st'') := serve session' st' in
      (r :: replies, st'')
  end.

(** ** Sample inputs

    The quiz of the specification's scenario, one of its questions, and a few
    requests and runs on which the properties below are exercised. *)
Definition capital_question : value :=
  JObject [ ("text", JString "Capital of France?");
            ("answer", JString "Paris");
            ("type", JString "free") ].

Definition geo_quiz : value :=
  JObject [ ("title", JString "Geo"); ("questions", JArray [capital_question]) ].

Definition request_without_answer : request := Request ∅ None 5000.

(** An expected answer that starts with the capital I with a dot (U+0130)
    and one that ends in the capital sigma (U+03A3), each with the same
    letters in small. *)
Definition dotted_capital_answer : string := "İstanbul".
Definition small_letters_answer : string := "istanbul".
Definition capital_sigma_answer : string := "ΟΔΟΣ".
Definition small_sigma_answer : string := "οδοσ".

(** An expected answer with an accent, and the same in capitals. *)
Definition accented_answer : string := "Élève".
Definition capitals_answer : string := "ÉLÈVE".

(** The form for a multiple-choice question filled in with the index 2. *)
Definition request_with_index_2 : request :=
  Request {[ "question" := Text "1 + 1?"; "correctIndex" := Text "2" ]} None 0.

Definition request_for_essay_question : request :=
  Request {[ "addQuestion" := Text "Add"; "type" := Text "essay" ]} None 0.

Definition upload_of_empty_object : request := Request ∅ (Some "{}") 0.

(** The scenario of the specification: a quiz titled "Geo" with one free-text
    question is created, then played with the answer "paris". *)
Definition geo_session : list (string * http) :=
  [ (nth_uuid 0, GetNew);
    (nth_uuid 1, AllContinue (nth_uuid 0) (Request {[ "quizTitle" := Text "Geo" ]} None 0));
    (nth_uuid 2, AllContinue (nth_uuid 1)
                   (Request {[ "addQuestion" := Text "Add"; "type" := Text "free" ]} None 0));
    (nth_uuid 3, AllContinue (nth_uuid 2)
                   (Request {[ "question" := Text "Capital of France?"; "answer" := Text "Paris" ]}
                      None 0));
    (nth_uuid 4, AllContinue (nth_uuid 3) (Request {[ "playQuiz" := Text "Play" ]} None 1000));
    (nth_uuid 5, AllContinue (nth_uuid 4) (Request {[ "answer" := Text "paris" ]} None 3000)) ].

(** The same quiz without its question, played at once. *)
Definition empty_quiz_session : list (string * http) :=
  [ (nth_uuid 0, GetNew);
    (nth_uuid 1, AllContinue (nth_uuid 0) (Request {[ "quizTitle" := Text "Geo" ]} None 0));
    (nth_uuid 2, AllContinue (nth_uuid 1) (Request {[ "playQuiz" := Text "Play" ]} None 1000)) ].

(** A suspension, then two requests with its token. *)
Definition resumed_twice : list (event nat) :=
  [ Suspend (nth_uuid 0) 7; Continue (nth_uuid 0); Continue (nth_uuid 0) ].

(** ** The overview texts of the question types (index.js, lines 84, 102-103)

    [escape] is the [escape-html] package: its argument is converted to a
    text, and the five characters that HTML reads are replaced by entities. *)
Definition escape_char (c : ascii) : string :=
  let n := nat_of_ascii c in
  if n =? 34 then "&quot;"
  else if n =? 38 then "&amp;"
  else if n =? 39 then "&#39;"
  else if n =? 60 then "&lt;"
  else if n =? 62 then "&gt;"
  else String c EmptyString.

Fixpoint escape_text (s : string) : string :=
  match s with
  | EmptyString => EmptyString
  | String c s' => escape_char c +:+ escape_text s'
  end.

Definition escape (v : value) : completion string :=
  s ← to_string v; Normal (escape_text s).

(** [choices.map(choice => `<li>${escape(choice)}</li>`).join("")]. *)
Fixpoint list_items (choices : list value) : completion string :=
  match choices with
  | [] => Normal ""
  | choice :: choices' =>
      item ← escape choice;
      items ← list_items choices';
      Normal ("<li>" +:+ item +:+ "</li>" +:+ items)
  end.

(** The line break and the indentation inside the template literal of lines
    102-103. *)
Definition overview_break : string :=
  String (ascii_of_nat 10) "                          ".

(** Lines 84 and 102-103.  [question.choices.map] is a [TypeError] unless
    [choices] is an array. *)
Definition overview (ty : question_type) (question : value) : completion string :=
  match ty with
  | free =>
      text ← get question "text";
      t ← escape text;
      answer ← get question "answer";
      a ← escape answer;
      Normal (t +:+ " -> " +:+ a)
  | multiple =>
      text ← get question "text";
      t ← escape text;
      choices ← get question "choices";
      items ← match choices with
               | JArray l => list_items l
               | _ => Throw TypeError
               end;
      answer ← get question "answer";
      a ← to_string answer;
      Normal (t +:+ " <ol>" +:+ items +:+ "</ol>" +:+ overview_break
                +:+ "<p>Correct choice: " +:+ a)
  end.

(** How often the character [c] occurs in [s]. *)
Fixpoint count_char (c : ascii) (s : string) : nat :=
  match s with
  | EmptyString => 0
  | String x s' => (if Ascii.eqb x c then 1 else 0) + count_char c s'
  end.

(** ** Runs of a procedure and of the registry *)

(** A procedure resumed with one request after the other, for as long as it
    pauses. *)
Fixpoint feed (o : outcome) (reqs : list request) : outcome :=
  match reqs with
  | [] => o
  | req :: reqs' =>
      match o with
      | Suspended _ k => feed (resume k req) reqs'
      | _ => o
      end
  end.

(** The name a question type is registered under (line 60). *)
Definition typename (ty : question_type) : string :=
  match ty with
  | free => "free"
  | multiple => "multiple"
  end.

(** The quiz object as [/new] makes it and the authoring loop keeps it. *)
Definition authored (title : value) (questions : list value) : value :=
  JObject [ ("title", title); ("questions", JArray questions) ].

(** One round of the authoring loop: the request that answers the overview by
    asking for a question of type [added_type], and the request that answers
    the form of that type. *)
Record addition : Type := Addition {
  added_type : question_type;
  overview_request : request;
  form_request : request
}.

Definition added_question (r : addition) : value :=
  create (added_type r) (form_request r).

(** One turn of the play loop on a question made by the forms: the type and
    the form request the question was made from, the request that answers
    the question page and the request that answers the feedback page. *)
Record turn : Type := Turn {
  asked_type : question_type;
  asked_from : request;
  answer_request : request;
  next_request : request
}.

Definition asked_question (t : turn) : value :=
  create (asked_type t) (asked_from t).

(** The mark that a question made by the forms gets for the answer in a
    request: [None] where [mark] throws. *)
Definition expected_mark (ty : question_type) (made_from answered : request)
  : option bool :=
  match mark ty (create ty made_from) (field answered "answer") with
  | Normal b => Some b
  | Throw _ => None
  end.

(** The entries of [stats] that the turns leave, the first question being
    shown when the clock reads [start]. *)
Fixpoint played (turns : list turn) (start : Z) : list stat :=
  match turns with
  | [] => []
  | t :: turns' =>
      Stat (asked_question t) (elapsed start (now (answer_request t)))
        (default false (expected_mark (asked_type t) (asked_from t) (answer_request t)))
      :: played turns' (now (next_request t))
  end.

(** The number of entries marked correct, and the sum of the times, added
    one after the other from the first on. *)
Definition score (stats : list stat) : Z :=
  Z.of_nat (length (List.filter correct stats)).

Definition total_time (stats : list stat) : number :=
  match responseTime <$> stats with
  | [] => number_of_Z 0
  | t :: times => foldl number_add t times
  end.

(** The event is a suspension or a request with the token [t]. *)
Definition concerns {K : Type} (t : string) (e : event K) : bool :=
  match e with
  | Suspend continuationID _ | Continue continuationID =>
      bool_decide (continuationID = t)
  end.

Definition request_token (h : http) : option string :=
  match h with
  | AllContinue token _ => Some token
  | GetNew | GetLoad => None
  end.

(** ** What export and import make of a quiz

    [JSON.stringify] writes an [undefined] array element as [null] and leaves
    out a property whose value is [undefined]; this is the value whose text
    it writes. *)
Fixpoint sanitize (v : value) : value :=
  match v with
  | JUndefined => JNull
  | JArray elements => JArray (sanitize <$> elements)
  | JObject members =>
      JObject
        ((fix kept (m : list (string * value)) : list (string * value) :=
            match m with
            | [] => []
            | (k, x) :: m' =>
                match x with
                | JUndefined => kept m'
                | _ => (k, sanitize x) :: kept m'
                end
            end) members)
  | _ => v
  end.

(** ** The quiz flows of src/unnamed/part_000

    The repository's other server file has the same continuation handling
    (its lines 9-49 are [sendSuspend] and the [/continue] handler as above)
    and these flows: the [/new] handler holds the authoring loop, and
    [playQuiz] ends with [res.send("Finished")]. *)
Module Part000.

Inductive page : Type :=
  | NewQuizPage
  | OverviewPage (quiz : value)
  | AddQuestionPage (quiz : value)
  | AddMultipleChoicePage (quiz question : value)
  | QuestionPage (title question : value)
  | FeedbackPage (title : string) (time : number) (userAnswer question : value).

(** The [await] a handler stands at, with its local variables. *)
Inductive continuation : Type :=
  | AwaitNewQuiz                                   (* line 54 *)
  | AwaitOverview (quiz : value)                   (* line 58 *)
  | AwaitQuestion (quiz : value)                   (* line 63 *)
  | AwaitChoice (quiz question : value)            (* line 73 *)
  | AwaitAnswer (quiz : value) (stats : list stat) (question : value)
      (rest : list value) (startTime : Z)          (* line 101 *)
  | AwaitFeedback (quiz : value) (stats : list stat) (rest : list value).
                                                   (* line 111 *)

(** How far a handler gets: to its next [sendSuspend], to a [res.send] of a
    plain text after which it ends, to its end without sending anything, or
    to an exception. *)
Inductive outcome : Type :=
  | Suspended (p : page) (k : continuation)
  | Sent (text : string)
  | Ended
  | Rejected (e : error).

Definition attempt {A : Type} (c : completion A) (k : A → outcome) : outcome :=
  match c with
  | Normal a => k a
  | Throw e => Rejected e
  end.

(** [object[key].push(item)]. *)
Definition push (key : string) (object item : value) : completion value :=
  array ← get object key;
  match object, array with
  | JObject members, JArray elements =>
      Normal (JObject (set_member key (JArray (elements ++ [item])) members))
  | _, _ => Throw TypeError
  end.

(** Line 58: the overview at the head of the authoring loop. *)
Definition overview (quiz : value) : outcome :=
  Suspended (OverviewPage quiz) (AwaitOverview quiz).

(** Lines 99-104 and 119: the loop of [playQuiz] with [questions] still to
    ask. *)
Definition ask (quiz : value) (stats : list stat) (questions : list value)
    (startTime : Z) : outcome :=
  match questions with
  | [] => Sent "Finished"
  | question :: rest =>
      attempt (get quiz "title") (λ title,
        Suspended (QuestionPage title question)
          (AwaitAnswer quiz stats question rest startTime))
  end.

(** [playQuiz], lines 96-99. *)
Definition playQuiz (quiz : value) (startTime : Z) : outcome :=
  attempt (qs ← get quiz "questions"; iterate qs) (λ questions,
    ask quiz [] questions startTime).

(** A multiple-choice question with the choices entered so far; line 70
    starts it with none.  A choice is made from the request that answers the
    form (line 77). *)
Definition choice_question (answers : list value) : value :=
  JObject [ ("type", JString "multiple"); ("answers", JArray answers) ].

Definition empty_choice_question : value := choice_question [].

Definition choice (req : request) : value :=
  JObject [ ("text", field req "answer"); ("correct", field req "correct") ].

(** A paused handler resumed with the request [req]. *)
Definition resume (k : continuation) (req : request) : outcome :=
  match k with
  | AwaitNewQuiz =>
      (* line 55 *)
      overview (JObject [("title", field req "quizTitle"); ("questions", JArray [])])
  | AwaitOverview quiz =>
      (* lines 60-92 *)
      if truthy (field req "addQuestion") then
        match field req "type" with
        | JString "free" => Suspended (AddQuestionPage quiz) (AwaitQuestion quiz)
        | JString "multiple" =>
            Suspended (AddMultipleChoicePage quiz empty_choice_question)
              (AwaitChoice quiz empty_choice_question)
        | _ => overview quiz
        end
      else if truthy (field req "playQuiz") then playQuiz quiz (now req)
      else if truthy (field req "download") then Sent "Placeholder: download quiz"
      else Ended
  | AwaitQuestion quiz =>
      (* lines 66-67, 85 *)
      attempt
        (push "questions" quiz
           (JObject [("text", field req "question"); ("answer", field req "answer")]))
        overview
  | AwaitChoice quiz question =>
      (* lines 76-82, 85: [req.query.answer !== ""] *)
      match field req "answer" with
      | JString "" => attempt (push "questions" quiz question) overview
      | _ =>
          attempt (push "answers" question (choice req))
            (λ question',
               Suspended (AddMultipleChoicePage quiz question')
                 (AwaitChoice quiz question'))
      end
  | AwaitAnswer quiz stats question rest startTime =>
      (* lines 106-116: [req.query.answer == question.answer] *)
      let time := elapsed startTime (now req) in
      attempt (stored ← get question "answer"; loose_eq (field req "answer") stored)
        (λ is_correct,
           let stats' := stats ++ [Stat question time is_correct] in
           attempt (title ← get quiz "title"; to_string title) (λ title,
             Suspended
               (FeedbackPage (title +:+ " - Feedback") time (field req "answer") question)
               (AwaitFeedback quiz stats' rest)))
  | AwaitFeedback quiz stats rest =>
      (* the next turn of the loop of line 99 *)
      ask quiz stats rest (now req)
  end.

(** A handler resumed with one request after the other, for as long as it
    pauses. *)
Fixpoint feed (o : outcome) (reqs : list request) : outcome :=
  match reqs with
  | [] => o
  | req :: reqs' =>
      match o with
      | Suspended _ k => feed (resume k req) reqs'
      | _ => o
      end
  end.

(** The values that [ToString] converts: all but an object with a property
    [toString] of its own, which the query parser makes of
    [key[toString]=...], and an array that holds one. *)
Definition printable (v : value) : bool :=
  match to_string v with
  | Normal _ => true
  | Throw _ => false
  end.

(** The requests whose title and answer can be converted to a text. *)
Definition convertible (req : request) : Prop :=
  printable (field req "quizTitle") = true ∧ printable (field req "answer") = true.

(** The questions and quizzes that these flows build from such requests: a
    question is an object whose [answer], if it has one, can be converted to
    a text; a quiz has such a title and an array of such questions. *)
Definition made_question (q : value) : Prop :=
  ∃ members, q = JObject members
             ∧ printable (default JUndefined (assoc "answer" members)) = true.

Definition made_quiz (quiz : value) : Prop :=
  ∃ title questions,
    quiz = authored title questions
    ∧ printable title = true ∧ Forall made_question questions.

(** The states that the handlers reach on such requests. *)
Definition reachable (k : continuation) : Prop :=
  match k with
  | AwaitNewQuiz => True
  | AwaitOverview quiz | AwaitQuestion quiz => made_quiz quiz
  | AwaitChoice quiz question =>
      made_quiz quiz ∧ ∃ answers, question = choice_question answers
  | AwaitAnswer quiz _ question rest _ =>
      made_quiz quiz ∧ made_question question ∧ Forall made_question rest
  | AwaitFeedback quiz _ rest => made_quiz quiz ∧ Forall made_question rest
  end.

End Part000.

(** ** Further sample inputs *)

(** The form that makes [capital_question], a round of the authoring loop
    that adds it, and a turn of the play loop on it. *)
(** A quiz as the forms of part_000 make it, a request that enters a choice
    and the request that ends the choices. *)
Definition capital_question_000 : value :=
  JObject [("text", JString "Capital of France?"); ("answer", JString "Paris")].

Definition capital_quiz_000 : value := authored (JString "Geo") [capital_question_000].

Definition paris_choice : request :=
  Request {[ "answer" := Text "Paris"; "correct" := Text "on" ]} None 0.

Definition end_of_choices : request := Request {[ "answer" := Text "" ]} None 0.

(** Requests as [?quizTitle[toString]=x], [?answer[toString]=2] and
    [?playQuiz=Play] make them. *)
Definition object_title : request :=
  Request {[ "quizTitle" := Nested [("toString", Text "x")] ]} None 0.

Definition object_answer : request :=
  Request {[ "answer" := Nested [("toString", Text "2")] ]} None 0.

Definition play_request : request := Request {[ "playQuiz" := Text "Play" ]} None 0.

(** Two entries of [stats]: a right answer after 0.1 s and a right answer
    after 0.2 s. *)
Definition quick_answer : stat := Stat capital_question (elapsed 1000 1100) true.
Definition slow_answer : stat := Stat capital_question (elapsed 1100 1300) true.

Definition capital_form : request :=
  Request {[ "question" := Text "Capital of France?"; "answer" := Text "Paris" ]} None 0.

Definition capital_addition : addition :=
  Addition free (Request {[ "addQuestion" := Text "Add"; "type" := Text "free" ]} None 0)
    capital_form.

Definition capital_turn : turn :=
  Turn free capital_form (Request {[ "answer" := Text "paris" ]} None 3000)
    (Request ∅ None 4000).

(** A free-text question and a multiple-choice question with markup in their
    fields. *)
Definition markup_question : value :=
  create free (Request {[ "question" := Text "<b>1 < 2</b>?"; "answer" := Text "'yes'" ]} None 0).

Definition markup_choice_question : value :=
  create multiple
    (Request {[ "question" := Text "1 < 2?"; "correctIndex" := Text "<1>";
                "choice1" := Text "<i>yes</i>" ]}
       None 0).

(** The registry after [/new] was requested once. *)
Definition one_session : registry continuation :=
  (handle (nth_uuid 0) GetNew initial).2.

(** A second suspension and a request that resumes it. *)
Definition other_session : list (event nat) :=
  [ Suspend (nth_uuid 1) 8; Continue (nth_uuid 1) ].

(* ===================================================================== *)
(** * Part II.  Properties                                                *)
(* ===================================================================== *)

(** ** The continuation registry *)

Lemma uuid_not_prototype_key (t : string) :
  uuid_shaped t = true → is_object_prototype_key t = false.
Proof.
  intros Hu. unfold is_object_prototype_key.
  apply bool_decide_eq_false. intros Hin.
  unfold object_prototype_keys in Hin.
  repeat (apply elem_of_cons in Hin as [-> | Hin]; [discriminate Hu |]).
  by apply elem_of_nil in Hin.
Qed.


Section registry.
Context {K : Type}.

Lemma evict_keeps_absent (t : string) (us : list string) (cs : gmap string K) :
  cs !! t = None → (evict us cs).2 !! t = None.
Proof.
  revert cs. induction us as [|u us IH]; intros cs Hcs; [done|].
  cbn [evict]. destruct (MAX_CONTINUATIONS <? length (u :: us)); [|done].
  apply IH. rewrite lookup_delete_None. by right.
Qed.

Lemma sendSuspend_keeps_absent (t id : string) (k : K) (st : registry K) :
  id ≠ t → continuations st !! t = None →
  continuations (sendSuspend id k st) !! t = None.
Proof.
  intros Hne Hcs. unfold sendSuspend.
  pose proof (evict_keeps_absent t (uuids st) (continuations st) Hcs) as He.
  destruct (evict (uuids st) (continuations st)) as [us cs]. cbn in *.
  by rewrite lookup_insert_ne.
Qed.

Lemma continue_handler_absent (t : string) (st : registry K) :
  uuid_shaped t = true → continuations st !! t = None →
  continue_handler t st = (Expired, st).
Proof.
  intros Hu Hcs. unfold continue_handler, get_property.
  by rewrite Hcs, (uuid_not_prototype_key t Hu).
Qed.

Lemma continue_handler_keeps_absent (t id : string) (st : registry K) :
  continuations st !! t = None →
  continuations (continue_handler id st).2 !! t = None.
Proof.
  intros Hcs. unfold continue_handler.
  destruct (get_property (continuations st) id); cbn; [| |done];
    rewrite lookup_delete_None; by right.
Qed.

Lemma continue_handler_removes (t : string) (st st' : registry K) (k : K) :
  continue_handler t st = (Resumed k, st') →
  continuations st !! t = Some k ∧ continuations st' !! t = None.
Proof.
  unfold continue_handler, get_property.
  destruct (continuations st !! t) as [k'|] eqn:Hcs.
  - intros [= <- <-]. split; [done|]. cbn. apply lookup_delete_eq.
  - destruct (is_object_prototype_key t); discriminate.
Qed.

(** Once a token is out of [continuations] and is not minted again, every
    request that bears it gets the notice, and it stays out. *)
Lemma run_absent (t : string) (tr : list (event K)) (st : registry K) :
  uuid_shaped t = true →
  continuations st !! t = None →
  List.filter (mints t) tr = [] →
  List.forallb (expires t) (run tr st).1 = true
  ∧ List.filter (resumes t) (run tr st).1 = []
  ∧ continuations (run tr st).2 !! t = None.
Proof.
  intros Hu. revert st. induction tr as [|[id k|id] tr IH]; intros st Hcs Hm.
  - done.
  - cbn [run]. cbn in Hm. case_bool_decide as Hid; [discriminate|].
    apply IH; [|done]. by apply sendSuspend_keeps_absent.
  - cbn [run]. cbn in Hm.
    pose proof (continue_handler_keeps_absent t id st Hcs) as Hk.
    destruct (continue_handler id st) as [r st'] eqn:Hh. cbn in Hk.
    destruct (IH st' Hk Hm) as (IH1 & IH2 & IH3).
    destruct (run tr st') as [log st''] eqn:Hr. cbn in *.
    split_and!; [|  |done].
    + rewrite IH1, andb_true_r.
      destruct (decide (id = t)) as [->|Hne].
      * rewrite (continue_handler_absent t st Hu Hcs) in Hh. by injection Hh as <- _.
      * destruct r; [| |done]; by rewrite bool_decide_eq_false_2.
    + destruct (decide (id = t)) as [->|Hne].
      * rewrite (continue_handler_absent t st Hu Hcs) in Hh. by injection Hh as <- _.
      * destruct r; [|done..]. by rewrite bool_decide_eq_false_2.
Qed.

Lemma run_resumes_bound (t : string) (tr : list (event K)) (st : registry K) :
  uuid_shaped t = true →
  (continuations st !! t = None ∧ length (List.filter (mints t) tr) ≤ 1)
  ∨ List.filter (mints t) tr = [] →
  length (List.filter (resumes t) (run tr st).1) ≤ 1.
Proof.
  intros Hu. revert st. induction tr as [|[id k|id] tr IH]; intros st Hcase.
  - cbn. lia.
  - cbn [run]. apply IH. cbn in Hcase. case_bool_decide as Hid.
    + right. destruct Hcase as [[_ Hlen]|Hnil]; [|discriminate].
      cbn in Hlen. destruct (List.filter (mints t) tr); [done|cbn in Hlen; lia].
    + destruct Hcase as [[Hcs Hlen]|Hnil]; [left|by right].
      split; [|done]. by apply sendSuspend_keeps_absent.
  - cbn [run]. cbn in Hcase.
    destruct (continue_handler id st) as [r st'] eqn:Hh.
    destruct (run tr st') as [log st''] eqn:Hr. cbn [fst List.filter].
    destruct (resumes t (id, r)) eqn:Hres.
    + destruct r as [k| |]; [|done..]. cbn in Hres.
      apply bool_decide_eq_true in Hres as ->.
      apply continue_handler_removes in Hh as [Hin Hout].
      destruct Hcase as [[Hcs _]|Hnil]; [congruence|].
      destruct (run_absent t tr st' Hu Hout Hnil) as (_ & Hno & _).
      rewrite Hr in Hno. cbn in Hno. rewrite Hno. cbn. lia.
    + specialize (IH st'). rewrite Hr in IH. apply IH.
      destruct Hcase as [[Hcs Hlen]|Hnil]; [left|by right].
      split; [|done].
      pose proof (continue_handler_keeps_absent t id st Hcs) as Hk.
      by rewrite Hh in Hk.
Qed.

(** C1.  A token returned once by [uuidv4()] resumes at most one request: in
    every run from the empty registry, at most one request to
    [/continue/t] reaches the stored function, and every request with [t]
    that comes after the one that did gets the expired-or-invalid notice. *)
Theorem continuation_resumed_at_most_once (tr : list (event K)) (t : string) :
  uuid_shaped t = true →
  length (List.filter (mints t) tr) ≤ 1 →
  length (List.filter (resumes t) (run tr initial).1) ≤ 1
  ∧ ∀ pre post k st',
      tr = pre ++ Continue t :: post →
      continue_handler t (run pre initial).2 = (Resumed k, st') →
      List.forallb (expires t) (run post st').1 = true
      ∧ List.filter (resumes t) (run post st').1 = [].
Proof.
  intros Hu Hlen. split.
  - apply run_resumes_bound; [done|]. left. by split.
  - intros pre post k st' -> Hh.
    apply continue_handler_removes in Hh as [Hin Hout].
    assert (List.filter (mints t) pre ≠ []) as Hpre.
    { intros Hnil.
      destruct (run_absent t pre initial Hu (lookup_empty t) Hnil) as (_ & _ & Habs).
      congruence. }
    rewrite List.filter_app, length_app in Hlen. cbn in Hlen.
    assert (List.filter (mints t) post = []) as Hpost.
    { destruct (List.filter (mints t) pre); [done|].
      destruct (List.filter (mints t) post); [done|]. cbn in Hlen. lia. }
    destruct (run_absent t post st' Hu Hout Hpost) as (H1 & H2 & _). by split.
Qed.

Lemma sendSuspend_no_uuids (id : string) (k : K) (st : registry K) :
  uuids st = [] → sendSuspend id k st = Registry (<[id := k]> (continuations st)) [].
Proof. intros Hu. unfold sendSuspend. by rewrite Hu. Qed.

(** Nothing is ever pushed on [uuids], so a run of suspensions only grows
    [continuations]. *)
Lemma run_suspend_only (f : nat → string → event K) (ids : list string)
    (st : registry K) :
  (∀ n id, ∃ k, f n id = Suspend id k) →
  uuids st = [] → NoDup ids →
  (∀ id, id ∈ ids → continuations st !! id = None) →
  let st' := (run (imap f ids) st).2 in
  uuids st' = []
  ∧ size (continuations st') = size (continuations st) + length ids
  ∧ ∀ id, id ∉ ids → continuations st' !! id = continuations st !! id.
Proof.
  revert f st. induction ids as [|id ids IH]; intros f st Hf Hu Hnd Hfresh.
  - cbn. split_and!; [done|lia|done].
  - cbn [imap run]. destruct (Hf 0 id) as [k ->].
    apply NoDup_cons in Hnd as [Hnotin Hnd].
    rewrite (sendSuspend_no_uuids _ _ _ Hu).
    edestruct (IH (f ∘ S) (Registry (<[id:=k]> (continuations st)) [])) as (H1 & H2 & H3);
      [intros n i; apply Hf|done|done| |].
    { intros i Hi. cbn. rewrite lookup_insert_ne by (intros ->; done).
      apply Hfresh. by right. }
    cbn in H1, H2, H3. split_and!; [done| |].
    + rewrite H2. rewrite map_size_insert_None by (apply Hfresh; by left).
      cbn. lia.
    + intros i Hi. apply not_elem_of_cons in Hi as [Hne Hi].
      rewrite H3 by done. by rewrite lookup_insert_ne.
Qed.

End registry.

Lemma first_uuids_NoDup : NoDup (first_uuids 101).
Proof. apply (bool_decide_unpack (NoDup (first_uuids 101))). vm_compute. exact I. Qed.

(** C2 (the code departs from it).  After 101 suspensions nothing has been
    evicted: [uuids] is still empty, [continuations] holds 101 functions, more
    than [MAX_CONTINUATIONS], and a request with the oldest token still
    reaches the function stored first. *)
Theorem registry_exceeds_MAX_CONTINUATIONS :
  let st := (run (suspensions (first_uuids 101)) initial).2 in
  uuids st = []
  ∧ size (continuations st) = 101
  ∧ MAX_CONTINUATIONS < size (continuations st)
  ∧ (continue_handler (nth_uuid 0) st).1 = Resumed 0.
Proof.
  cbv zeta.
  destruct (run_suspend_only (λ n id, Suspend id n) (first_uuids 101) initial)
    as (H1 & H2 & _); [by eexists|done|apply first_uuids_NoDup|done|].
  fold (suspensions (first_uuids 101)) in H1, H2.
  rewrite H1, H2. split_and!; [done|done|cbn; unfold MAX_CONTINUATIONS; lia|].
  vm_compute. reflexivity.
Qed.

Lemma continue_handler_unknown {K : Type} (t : string) (st : registry K) :
  is_object_prototype_key t = false → continuations st !! t = None →
  continue_handler t st = (Expired, st).
Proof.
  intros Hp Hcs. unfold continue_handler, get_property. by rewrite Hcs, Hp.
Qed.

(** C9 (the code departs from it).  No token [constructor] was ever minted,
    yet a request to [/continue/constructor] does not get the notice:
    [continuations["constructor"]] is the inherited [Object], which is not
    [undefined], so line 49 calls it.  The registry is left as it was. *)
Theorem unknown_token_constructor_gets_no_notice :
  continuations (initial (K := nat)) !! "constructor" = None
  ∧ (continue_handler "constructor" (initial (K := nat))).1 = CalledInherited "constructor"
  ∧ (continue_handler "constructor" (initial (K := nat))).1 ≠ Expired
  ∧ (continue_handler "constructor" (initial (K := nat))).2 = initial.
Proof.
  split_and!; [done|done|done|].
  unfold continue_handler, initial; cbn. by rewrite delete_empty.
Qed.

(** ** Values *)

Lemma value_ind (P : value → Prop) :
  P JUndefined → P JNull → (∀ b, P (JBool b)) → (∀ n, P (JNumber n)) →
  (∀ s, P (JString s)) →
  (∀ elements, Forall P elements → P (JArray elements)) →
  (∀ members, Forall (λ kv, P kv.2) members → P (JObject members)) →
  ∀ v, P v.
Proof.
  intros Hu Hn Hb Hz Hs Ha Ho. fix IH 1. intros [| |b|n|s|l|m].
  - exact Hu.
  - exact Hn.
  - apply Hb.
  - apply Hz.
  - apply Hs.
  - apply Ha. induction l as [|x l IHl]; constructor; [apply IH|exact IHl].
  - apply Ho. induction m as [|[k x] m IHm]; constructor; [apply IH|exact IHm].
Qed.

Lemma to_string_TypeError (v : value) (e : error) :
  to_string v = Throw e → e = TypeError.
Proof.
  induction v as [| |[]|n|s|l IH|m IH] using value_ind; try discriminate.
  - cbn [to_string]. induction IH as [|x l Hx _ IHl]; [discriminate|].
    assert (match x with
            | JUndefined | JNull => Normal ""
            | _ => to_string x
            end = Throw e → e = TypeError) as Hhead
      by (destruct x; first [discriminate | exact Hx]).
    destruct (match x with
              | JUndefined | JNull => Normal ""
              | _ => to_string x
              end) as [sx|ex] eqn:Hsx; cbn [mbind completion_bind].
    + destruct l as [|y l]; [discriminate|].
      match goal with
      | |- context [mbind _ ?j] =>
          destruct j as [sl|e'] eqn:Hl; cbn [mbind completion_bind];
          [discriminate|intros [= <-]; by apply IHl]
      end.
    + intros [= <-]. by apply Hhead.
  - cbn. destruct (has_key "toString" m); [by intros [= <-]|discriminate].
Qed.

(** ** Marking *)

(** *** Texts *)
Lemma byte_bounds (c : ascii) : (0 ≤ byte c < 256)%Z.
Proof. unfold byte. pose proof (N_ascii_bounded c). lia. Qed.

Lemma byte_byte_char (b : Z) : (0 ≤ b < 256)%Z → byte (byte_char b) = b.
Proof.
  intros Hb. unfold byte, byte_char. rewrite N_ascii_embedding by lia. lia.
Qed.

Ltac solve_bytes :=
  repeat match goal with
    | |- context [byte (byte_char ?b)] =>
        rewrite (byte_byte_char b) by (Z.to_euclidean_division_equations; lia)
    end.

Ltac decide_tests :=
  repeat match goal with
    | |- context [(?a <? ?b)%Z] =>
        first
          [ replace (a <? b)%Z with true
              by (symmetry; apply Z.ltb_lt; Z.to_euclidean_division_equations; lia)
          | replace (a <? b)%Z with false
              by (symmetry; apply Z.ltb_ge; Z.to_euclidean_division_equations; lia) ]
    | |- context [(?a <=? ?b)%Z] =>
        first
          [ replace (a <=? b)%Z with true
              by (symmetry; apply Z.leb_le; Z.to_euclidean_division_equations; lia)
          | replace (a <=? b)%Z with false
              by (symmetry; apply Z.leb_gt; Z.to_euclidean_division_equations; lia) ]
    end.

Lemma utf8_decode_encode_char (c : Z) (rest : string) :
  is_scalar c = true →
  utf8_decode (utf8_encode_char c rest) = cons c <$> utf8_decode rest.
Proof.
  unfold is_scalar. intros Hc.
  assert ((0 ≤ c < 0xD800 ∨ 0xE000 ≤ c < 0x110000)%Z) as Hrange.
  { apply orb_true_iff in Hc as [Hc|Hc]; apply andb_true_iff in Hc as [H1 H2];
      [left|right]; split; first [by apply Z.leb_le | by apply Z.ltb_lt]. }
  clear Hc. unfold utf8_encode_char.
  destruct (Z.ltb_spec c 0x80); [|destruct (Z.ltb_spec c 0x800);
                                   [|destruct (Z.ltb_spec c 0x10000)]].
  - cbn [utf8_decode]. solve_bytes. decide_tests. done.
  - cbn [utf8_decode]. unfold is_continuation, low_bits. solve_bytes. decide_tests.
    cbn [andb]. do 2 f_equal. Z.to_euclidean_division_equations; lia.
  - cbn [utf8_decode]. unfold is_continuation, low_bits, is_scalar. solve_bytes.
    replace ((0xE0 + c / 4096 - 0xE0) * 4096 + (0x80 + c / 64 mod 64 - 0x80) * 64
             + (0x80 + c mod 64 - 0x80))%Z with c
      by (Z.to_euclidean_division_equations; lia).
    decide_tests. cbn [andb].
    destruct Hrange as [Hr|Hr]; decide_tests; done.
  - cbn [utf8_decode]. unfold is_continuation, low_bits. solve_bytes.
    replace ((0xF0 + c / 262144 - 0xF0) * 262144 + (0x80 + c / 4096 mod 64 - 0x80) * 4096
             + (0x80 + c / 64 mod 64 - 0x80) * 64 + (0x80 + c mod 64 - 0x80))%Z with c
      by (Z.to_euclidean_division_equations; lia).
    decide_tests. done.
Qed.

Lemma utf8_decode_encode (cps : list Z) :
  Forall (λ c, is_scalar c = true) cps → utf8_decode (utf8_encode cps) = Some cps.
Proof.
  induction 1 as [|c cps Hc _ IH]; [done|].
  cbn [utf8_encode]. by rewrite utf8_decode_encode_char, IH.
Qed.

Lemma utf8_encode_inj (x y : list Z) :
  Forall (λ c, is_scalar c = true) x → Forall (λ c, is_scalar c = true) y →
  utf8_encode x = utf8_encode y → x = y.
Proof.
  intros Hx Hy Heq. apply (f_equal utf8_decode) in Heq.
  rewrite !utf8_decode_encode in Heq by done. by injection Heq.
Qed.

Lemma utf8_decode_scalar (s : string) (cps : list Z) :
  utf8_decode s = Some cps → Forall (λ c, is_scalar c = true) cps.
Proof.
  remember (String.length s) as n eqn:Hn. revert s cps Hn.
  induction n as [n IH] using lt_wf_ind. intros s cps -> Hs.
  destruct s as [|c0 s1]; [injection Hs as <-; constructor|].
  cbn [utf8_decode] in Hs. pose proof (byte_bounds c0) as Hb0.
  destruct (Z.ltb_spec (byte c0) 0x80).
  { apply fmap_Some in Hs as (cps' & Hs & ->). constructor.
    - unfold is_scalar. apply orb_true_iff. left. apply andb_true_iff.
      split; [apply Z.leb_le|apply Z.ltb_lt]; lia.
    - apply (IH (String.length s1)) with s1; cbn; [lia|done..]. }
  destruct (Z.ltb_spec (byte c0) 0xC2); [done|].
  destruct (Z.ltb_spec (byte c0) 0xE0).
  { destruct s1 as [|c1 s2]; [done|].
    destruct (is_continuation c1) eqn:Hc1; [|done].
    apply fmap_Some in Hs as (cps' & Hs & ->). constructor.
    - unfold is_continuation in Hc1. apply andb_true_iff in Hc1 as [Hlo%Z.leb_le Hhi%Z.ltb_lt].
      unfold is_scalar, low_bits. apply orb_true_iff. left. apply andb_true_iff.
      split; [apply Z.leb_le|apply Z.ltb_lt]; lia.
    - apply (IH (String.length s2)) with s2; cbn; [lia|done..]. }
  destruct (Z.ltb_spec (byte c0) 0xF0).
  { destruct s1 as [|c1 [|c2 s3]]; [done..|].
    destruct (_ && _) eqn:Hc in Hs; [|done].
    apply fmap_Some in Hs as (cps' & Hs & ->).
    apply andb_true_iff in Hc as [_ Hc]. constructor; [done|].
    apply (IH (String.length s3)) with s3; cbn; [lia|done..]. }
  destruct (Z.ltb_spec (byte c0) 0xF5); [|done].
  destruct s1 as [|c1 [|c2 [|c3 s4]]]; [done..|].
  destruct (_ && _) eqn:Hc in Hs; [|done].
  apply fmap_Some in Hs as (cps' & Hs & ->).
  apply andb_true_iff in Hc as [Hc Hhi%Z.ltb_lt].
  apply andb_true_iff in Hc as [_ Hlo%Z.leb_le]. constructor.
  - unfold is_scalar. apply orb_true_iff. right. apply andb_true_iff.
    split; [apply Z.leb_le|apply Z.ltb_lt]; lia.
  - apply (IH (String.length s4)) with s4; cbn; [lia|done..].
Qed.

(** *** Letter case *)

Lemma capital_runs_steps :
  forallb (λ '(_, _, step, _), (0 <? step)%Z) capital_runs = true.
Proof. by vm_compute. Qed.

Lemma small_of_capitals (u l : Z) : small_of u = Some l → In u capitals.
Proof.
  unfold small_of. intros (run & Hfind & _)%fmap_Some.
  apply find_some in Hfind as [Hin Hrun].
  pose proof capital_runs_steps as Hsteps.
  rewrite forallb_forall in Hsteps. specialize (Hsteps _ Hin).
  apply list_elem_of_In, list_elem_of_bind. exists run. split; [|by apply list_elem_of_In].
  destruct run as [[[first last] step] delta]. cbn in *.
  apply Z.ltb_lt in Hsteps.
  apply andb_true_iff in Hrun as [Hrun Hmod%Z.eqb_eq].
  apply andb_true_iff in Hrun as [Hlo%Z.leb_le Hhi%Z.leb_le].
  apply list_elem_of_fmap. exists (Z.to_nat ((u - first) / step)). split.
  - rewrite Z2Nat.id by (apply Z.div_pos; lia).
    rewrite <- Z.div_exact in Hmod by lia. lia.
  - apply elem_of_seq. split; [lia|].
    assert ((u - first) / step ≤ (last - first) / step)%Z
      by (apply Z.div_le_mono; lia).
    assert (0 ≤ (u - first) / step)%Z by (apply Z.div_pos; lia).
    lia.
Qed.

Lemma capitals_checked :
  forallb (λ u, match small_of u with
                | Some l => is_scalar l && bool_decide (small_of l = None)
                | None => true
                end) capitals = true.
Proof. by vm_compute. Qed.

Lemma small_of_checked (u l : Z) :
  small_of u = Some l → is_scalar l = true ∧ small_of l = None.
Proof.
  intros Hu. pose proof capitals_checked as Hall.
  rewrite forallb_forall in Hall. specialize (Hall u (small_of_capitals u l Hu)).
  rewrite Hu in Hall. apply andb_true_iff in Hall as [? ?%bool_decide_eq_true]. done.
Qed.

Lemma lower1_scalar (c : Z) : is_scalar c = true → is_scalar (lower1 c) = true.
Proof.
  intros Hc. unfold lower1. destruct (small_of c) as [l|] eqn:Hl; [|done].
  by apply small_of_checked in Hl as [? _].
Qed.

Lemma same_letter_lower1 (x y : Z) : same_letter x y = (lower1 x =? lower1 y)%Z.
Proof.
  unfold same_letter, lower1.
  destruct (small_of x) as [l|] eqn:Hx, (small_of y) as [l'|] eqn:Hy; cbn.
  - apply small_of_checked in Hx as Hl. apply small_of_checked in Hy as Hl'.
    destruct Hl as [_ Hl], Hl' as [_ Hl'].
    rewrite !bool_decide_eq_false_2 by congruence.
    rewrite !orb_false_r. destruct (Z.eqb_spec x y) as [->|]; [|done].
    assert (l = l') as -> by congruence. cbn. symmetry. apply Z.eqb_refl.
  - rewrite orb_false_r.
    rewrite (bool_decide_eq_false_2 (None = Some x)) by done. rewrite orb_false_r.
    destruct (Z.eqb_spec x y) as [->|_]; [congruence|]. cbn.
    destruct (Z.eqb_spec l y) as [->|Hne].
    + by apply bool_decide_eq_true_2.
    + apply bool_decide_eq_false_2. congruence.
  - rewrite orb_false_r.
    rewrite (bool_decide_eq_false_2 (None = Some y)) by done. rewrite orb_false_r.
    destruct (Z.eqb_spec x y) as [->|_]; [congruence|]. cbn.
    destruct (Z.eqb_spec x l') as [->|Hne].
    + by apply bool_decide_eq_true_2.
    + apply bool_decide_eq_false_2. congruence.
  - rewrite !bool_decide_eq_false_2 by done. by rewrite !orb_false_r.
Qed.

Lemma equal_letters_lower1 (x y : list Z) :
  equal_letters x y = bool_decide (lower1 <$> x = lower1 <$> y).
Proof.
  revert y. induction x as [|a x IH]; intros [|b y]; cbn [equal_letters];
    rewrite ?fmap_nil, ?fmap_cons.
  - by rewrite bool_decide_eq_true_2.
  - by rewrite bool_decide_eq_false_2.
  - by rewrite bool_decide_eq_false_2.
  - rewrite same_letter_lower1, IH.
    destruct (Z.eqb_spec (lower1 a) (lower1 b)) as [Hab|Hab]; cbn [andb].
    + apply bool_decide_ext. rewrite Hab.
      split; [by intros -> | by intros [= ?]].
    + symmetry. apply bool_decide_eq_false_2. congruence.
Qed.

Lemma lowercase_letter_by_letter (before cps : list Z) :
  forallb (λ c, negb (c =? capital_dotted_i)%Z && negb (c =? capital_sigma)%Z) cps = true →
  lowercase before cps = lower1 <$> cps.
Proof.
  revert before. induction cps as [|c cps IH]; intros before Hall; [done|].
  cbn in Hall. apply andb_true_iff in Hall as [Hc Hall].
  apply andb_true_iff in Hc as [Hi%negb_true_iff Hs%negb_true_iff].
  cbn [lowercase]. rewrite Hi, Hs, IH by done. done.
Qed.

Lemma toLowerCase_letter_by_letter (s : string) :
  letter_by_letter s = true →
  ∃ cps, utf8_decode s = Some cps
         ∧ Forall (λ c, is_scalar c = true) cps
         ∧ toLowerCase s = utf8_encode (lower1 <$> cps).
Proof.
  unfold letter_by_letter, toLowerCase.
  destruct (utf8_decode s) as [cps|] eqn:Hs; [|done]. intros Hall.
  exists cps. split_and!; [done|by eapply utf8_decode_scalar|].
  by rewrite lowercase_letter_by_letter.
Qed.

Lemma toLowerCase_equal_ignoring_case (a s : string) :
  letter_by_letter a = true → letter_by_letter s = true →
  String.eqb (toLowerCase a) (toLowerCase s) = equal_ignoring_case a s.
Proof.
  intros (x & Hx & Hxs & ->)%toLowerCase_letter_by_letter
         (y & Hy & Hys & ->)%toLowerCase_letter_by_letter.
  unfold equal_ignoring_case. rewrite Hx, Hy, equal_letters_lower1.
  assert (∀ l, Forall (λ c, is_scalar c = true) l →
               Forall (λ c, is_scalar c = true) (lower1 <$> l)) as Hlower.
  { intros l Hl. apply Forall_fmap. eapply Forall_impl; [done|].
    intros c Hc. by apply lower1_scalar. }
  destruct (String.eqb_spec (utf8_encode (lower1 <$> x)) (utf8_encode (lower1 <$> y)))
    as [Heq|Hne]; symmetry.
  - apply bool_decide_eq_true_2. eapply utf8_encode_inj; eauto.
  - apply bool_decide_eq_false_2. congruence.
Qed.

(** *** Numbers *)

Lemma digits2_pos_size (p : positive) : digits2_pos p = Pos.size p.
Proof. induction p; cbn; by f_equal. Qed.

Lemma digits2_pos_bounds (p : positive) :
  (2 ^ (Zpos (digits2_pos p) - 1) ≤ Zpos p < 2 ^ Zpos (digits2_pos p))%Z.
Proof.
  rewrite digits2_pos_size. split.
  - pose proof (Pos.size_le p) as Hle.
    assert (2 ^ Zpos (Pos.size p) ≤ 2 * Zpos p)%Z as Hz.
    { change (2 * Zpos p)%Z with (Zpos p~0). rewrite <- Pos2Z.inj_pow. by apply Pos2Z.pos_le_pos. }
    replace (Zpos (Pos.size p)) with ((Zpos (Pos.size p) - 1) + 1)%Z in Hz by lia.
    rewrite Z.pow_add_r in Hz by lia. lia.
  - pose proof (Pos.size_gt p) as Hgt.
    rewrite <- Pos2Z.inj_pow. by apply Pos2Z.pos_lt_pos.
Qed.

Lemma digits2_pos_unique (p : positive) (d : Z) :
  (2 ^ (d - 1) ≤ Zpos p < 2 ^ d)%Z → Zpos (digits2_pos p) = d.
Proof.
  intros [Hlo Hhi]. pose proof (digits2_pos_bounds p) as [Hlo' Hhi'].
  assert (0 < d)%Z.
  { destruct (Z.lt_ge_cases 0 d); [done|].
    assert (2 ^ d ≤ 2 ^ 0)%Z by (apply Z.pow_le_mono_r; lia). lia. }
  destruct (Z.lt_trichotomy (Zpos (digits2_pos p)) d) as [Hlt|[Heq|Hgt]]; [|done|].
  - assert (2 ^ Zpos (digits2_pos p) ≤ 2 ^ (d - 1))%Z by (apply Z.pow_le_mono_r; lia). lia.
  - assert (2 ^ d ≤ 2 ^ (Zpos (digits2_pos p) - 1))%Z by (apply Z.pow_le_mono_r; lia). lia.
Qed.

Lemma pos_shiftl_Z (p : positive) (n : N) :
  Zpos (Pos.shiftl p n) = (Zpos p * 2 ^ Z.of_N n)%Z.
Proof.
  rewrite <- (Z.shiftl_mul_pow2 (Zpos p) (Z.of_N n)) by lia.
  destruct n as [|k]; [done|]. cbn [Pos.shiftl Z.of_N Z.shiftl].
  apply (Pos.iter_swap_gen _ _ Zpos xO (Z.mul 2)). done.
Qed.

Lemma digits2_pos_shiftl (p : positive) (n : N) :
  Zpos (digits2_pos (Pos.shiftl p n)) = (Zpos (digits2_pos p) + Z.of_N n)%Z.
Proof.
  apply digits2_pos_unique. rewrite pos_shiftl_Z.
  pose proof (digits2_pos_bounds p) as [Hlo Hhi].
  replace (Zpos (digits2_pos p) + Z.of_N n - 1)%Z
    with ((Zpos (digits2_pos p) - 1) + Z.of_N n)%Z by lia.
  rewrite !Z.pow_add_r by lia.
  assert (0 < 2 ^ Z.of_N n)%Z by (apply Z.pow_pos_nonneg; lia). nia.
Qed.

(** A mantissa of 53 bits with an exponent in range needs no rounding. *)
Lemma binary_round_aux_exact (s : bool) (m : positive) (e : Z) :
  Zpos (digits2_pos m) = 53%Z → (-1074 ≤ e ≤ 971)%Z →
  binary_round_aux 53 1024 s (Zpos m) e loc_Exact = S754_finite s m e.
Proof.
  intros Hm He. unfold binary_round_aux, shr_fexp, fexp, emin.
  cbn [Zdigits2 shr_record_of_loc]. rewrite Hm.
  replace (Z.max (53 + e - 53) (3 - 1024 - 53) - e)%Z with 0%Z by lia.
  cbn [shr shr_m loc_of_shr_record round_nearest_even Zdigits2 shr_record_of_loc].
  rewrite Hm.
  replace (Z.max (53 + e - 53) (3 - 1024 - 53) - e)%Z with 0%Z by lia.
  cbn [shr shr_m]. by rewrite (proj2 (Z.leb_le e (1024 - 53))) by lia.
Qed.

Lemma binary_round_safe (s : bool) (p : positive) :
  (Zpos p < 2 ^ 53)%Z → binary_round 53 1024 s p 0 = normal_number s p.
Proof.
  intros Hp. pose proof (digits2_pos_bounds p) as [Hlo Hhi].
  assert (Zpos (digits2_pos p) ≤ 53)%Z as Hd.
  { destruct (Z.le_gt_cases (Zpos (digits2_pos p)) 53); [done|].
    assert (2 ^ 53 ≤ 2 ^ (Zpos (digits2_pos p) - 1))%Z by (apply Z.pow_le_mono_r; lia).
    lia. }
  unfold binary_round, normal_number, fexp, emin.
  replace (Z.max (Zpos (digits2_pos p) + 0 - 53) (3 - 1024 - 53))
    with (Zpos (digits2_pos p) - 53)%Z by lia.
  assert (shl_align p 0 (Zpos (digits2_pos p) - 53)
          = (Pos.shiftl p (Z.to_N (53 - Zpos (digits2_pos p))),
             Zpos (digits2_pos p) - 53)%Z) as ->.
  { unfold shl_align.
    destruct (Zpos (digits2_pos p) - 53 - 0)%Z as [|k|k] eqn:Hk; [|lia|].
    - replace (53 - Zpos (digits2_pos p))%Z with 0%Z by lia. cbn. f_equal. lia.
    - replace (53 - Zpos (digits2_pos p))%Z with (Zpos k) by lia. done. }
  apply binary_round_aux_exact; [|lia].
  rewrite digits2_pos_shiftl. lia.
Qed.

Lemma number_of_Z_safe (n : Z) :
  is_safe_integer n = true →
  number_of_Z n = match n with
                  | Z0 => S754_zero false
                  | Zpos p => normal_number false p
                  | Zneg p => normal_number true p
                  end.
Proof.
  unfold is_safe_integer. intros [Hlo%Z.leb_le Hhi%Z.leb_le]%andb_true_iff.
  unfold number_of_Z, binary_normalize.
  destruct n as [|p|p]; [done|apply binary_round_safe; lia|apply binary_round_safe; lia].
Qed.

Lemma normal_inj (s : bool) (p q : positive) : normal_number s p = normal_number s q → p = q.
Proof.
  unfold normal_number. intros [= Hm He].
  assert (Zpos (digits2_pos p) = Zpos (digits2_pos q)) as Hd by lia.
  rewrite Hd in Hm. apply (f_equal Zpos) in Hm. rewrite !pos_shiftl_Z in Hm.
  assert (0 < 2 ^ Z.of_N (Z.to_N (53 - Zpos (digits2_pos q))))%Z
    by (apply Z.pow_pos_nonneg; lia).
  nia.
Qed.

Lemma SFeqb_finite (s1 s2 : bool) (m1 m2 : positive) (e1 e2 : Z) :
  SFeqb (S754_finite s1 m1 e1) (S754_finite s2 m2 e2) = true
  ↔ s1 = s2 ∧ m1 = m2 ∧ e1 = e2.
Proof.
  unfold SFeqb, SFcompare.
  change (Pos.compare_cont Eq m1 m2) with (Pos.compare m1 m2).
  destruct s1, s2, (Z.compare_spec e1 e2), (Pos.compare_spec m1 m2);
    cbn; split; try done; try (intros (? & ? & ?); done); try lia;
    intros (? & ? & ?); lia.
Qed.

Lemma number_eqb_of_Z (i j : Z) :
  is_safe_integer i = true → is_safe_integer j = true →
  number_eqb (number_of_Z i) (number_of_Z j) = (i =? j)%Z.
Proof.
  intros Hi Hj. rewrite !number_of_Z_safe by done. unfold number_eqb.
  apply Bool.eq_iff_eq_true. rewrite Z.eqb_eq.
  assert (∀ s p q, SFeqb (normal_number s p) (normal_number s q) = true ↔ p = q) as Hsame.
  { intros s p q. split; [|intros ->; by apply SFeqb_finite].
    unfold normal_number at 1 2. intros (_ & Hm & He)%SFeqb_finite.
    apply (normal_inj s). unfold normal_number. by f_equal. }
  destruct i as [|p|p], j as [|q|q]; try done.
  - rewrite Hsame. split; [by intros ->|by intros [= ->]].
  - rewrite Hsame. split; [by intros ->|by intros [= ->]].
Qed.

Lemma iter_pos_iter {A : Type} (f : A → A) (n : positive) (x : A) :
  SpecFloat.iter_pos f n x = Pos.iter f x n.
Proof.
  revert x. induction n as [n IH|n IH|]; intros x; cbn; [|by rewrite !IH|done].
  by rewrite !IH, !Pos.iter_swap.
Qed.

Lemma iter_shr_1 (n m : positive) :
  Pos.iter shr_1 {| shr_m := Zpos (Pos.iter xO m n); shr_r := false; shr_s := false |} n
  = {| shr_m := Zpos m; shr_r := false; shr_s := false |}.
Proof.
  induction n as [|n IH] using Pos.peano_ind; [done|].
  rewrite Pos.iter_succ_r, Pos.iter_succ. cbn [shr_1 orb]. done.
Qed.

(** A mantissa of 53 bits shifted to the left is rounded to itself. *)
Lemma binary_round_aux_shifted (s : bool) (m : positive) (n : N) (e : Z) :
  Zpos (digits2_pos m) = 53%Z → (-1074 ≤ e + Z.of_N n ≤ 971)%Z →
  binary_round_aux 53 1024 s (Zpos (Pos.shiftl m n)) e loc_Exact
  = S754_finite s m (e + Z.of_N n).
Proof.
  intros Hm He. destruct n as [|k].
  { cbn [Pos.shiftl Z.of_N]. rewrite Z.add_0_r in *. by apply binary_round_aux_exact. }
  unfold binary_round_aux, shr_fexp at 1, fexp, emin.
  cbn [Zdigits2 shr_record_of_loc]. rewrite digits2_pos_shiftl, Hm.
  replace (Z.max (53 + Z.of_N (Npos k) + e - 53) (3 - 1024 - 53) - e)%Z
    with (Zpos k) by lia.
  cbn [shr]. change (Pos.shiftl m (Npos k)) with (Pos.iter xO m k).
  rewrite iter_pos_iter, iter_shr_1.
  cbn [shr_m loc_of_shr_record round_nearest_even].
  unfold shr_fexp, fexp, emin. cbn [Zdigits2 shr_record_of_loc]. rewrite Hm.
  replace (Z.max (53 + (e + Zpos k) - 53) (3 - 1024 - 53) - (e + Zpos k))%Z
    with 0%Z by lia.
  cbn [shr shr_m Z.of_N].
  by rewrite (proj2 (Z.leb_le (e + Zpos k) (1024 - 53))) by lia.
Qed.

Lemma shl_align_fst (m : positive) (e e' : Z) :
  (e' ≤ e)%Z → Zpos (fst (shl_align m e e')) = (Zpos m * 2 ^ (e - e'))%Z.
Proof.
  intros He. unfold shl_align. destruct (e' - e)%Z as [|k|k] eqn:Hk; [|lia|].
  - replace (e - e')%Z with 0%Z by lia. cbn [fst]. lia.
  - cbn [fst]. replace (e - e')%Z with (Z.of_N (Npos k)) by lia.
    rewrite <- pos_shiftl_Z. done.
Qed.

Lemma digits2_pos_safe (p : positive) :
  (Zpos p < 2 ^ 53)%Z → (Zpos (digits2_pos p) ≤ 53)%Z.
Proof.
  intros Hp. pose proof (digits2_pos_bounds p) as [Hlo _].
  destruct (Z.le_gt_cases (Zpos (digits2_pos p)) 53); [done|].
  assert (2 ^ 53 ≤ 2 ^ (Zpos (digits2_pos p) - 1))%Z by (apply Z.pow_le_mono_r; lia).
  lia.
Qed.

Lemma digits2_pos_mono (p q : positive) :
  (Zpos p ≤ Zpos q)%Z → (Zpos (digits2_pos p) ≤ Zpos (digits2_pos q))%Z.
Proof.
  intros Hpq. pose proof (digits2_pos_bounds p) as [Hlo _].
  pose proof (digits2_pos_bounds q) as [_ Hhi].
  destruct (Z.le_gt_cases (Zpos (digits2_pos p)) (Zpos (digits2_pos q))); [done|].
  assert (2 ^ Zpos (digits2_pos q) ≤ 2 ^ (Zpos (digits2_pos p) - 1))%Z
    by (apply Z.pow_le_mono_r; lia).
  lia.
Qed.

(** Two positive integers whose sum is below 2^53 are added exactly. *)
Lemma number_add_normal (p q : positive) :
  (Zpos (p + q) < 2 ^ 53)%Z →
  number_add (normal_number false p) (normal_number false q) = normal_number false (p + q).
Proof.
  intros Hsum.
  pose proof (digits2_pos_safe (p + q) Hsum) as Hd.
  pose proof (digits2_pos_mono p (p + q) ltac:(lia)) as Hdp.
  pose proof (digits2_pos_mono q (p + q) ltac:(lia)) as Hdq.
  pose proof (Pos2Z.is_pos (digits2_pos p)) as Hp0.
  pose proof (Pos2Z.is_pos (digits2_pos q)) as Hq0.
  set (dp := Zpos (digits2_pos p)) in *. set (dq := Zpos (digits2_pos q)) in *.
  set (d := Zpos (digits2_pos (p + q))) in *.
  unfold number_add, normal_number at 1 2, SFadd. fold dp dq.
  set (ez := Z.min (dp - 53) (dq - 53)).
  cbn [cond_Zopp].
  assert (Zpos (fst (shl_align (Pos.shiftl p (Z.to_N (53 - dp))) (dp - 53) ez))
          + Zpos (fst (shl_align (Pos.shiftl q (Z.to_N (53 - dq))) (dq - 53) ez))
          = Zpos (Pos.shiftl (Pos.shiftl (p + q) (Z.to_N (53 - d))) (Z.to_N (d - 53 - ez))))%Z
    as ->.
  { rewrite !shl_align_fst by lia. rewrite !pos_shiftl_Z, !Z2N.id by lia.
    rewrite <- !Z.mul_assoc, <- !Z.pow_add_r by lia.
    replace (53 - dp + (dp - 53 - ez))%Z with (- ez)%Z by lia.
    replace (53 - dq + (dq - 53 - ez))%Z with (- ez)%Z by lia.
    replace (53 - d + (d - 53 - ez))%Z with (- ez)%Z by lia.
    rewrite Pos2Z.inj_add. lia. }
  unfold binary_normalize, binary_round.
  assert (Zpos (digits2_pos (Pos.shiftl (p + q) (Z.to_N (53 - d)))) = 53%Z) as Hnormal.
  { rewrite digits2_pos_shiftl, Z2N.id by lia. fold d. lia. }
  assert (shl_align (Pos.shiftl (Pos.shiftl (p + q) (Z.to_N (53 - d))) (Z.to_N (d - 53 - ez)))
            ez
            (fexp 53 1024
               (Zpos (digits2_pos
                        (Pos.shiftl (Pos.shiftl (p + q) (Z.to_N (53 - d)))
                           (Z.to_N (d - 53 - ez)))) + ez))
          = (Pos.shiftl (Pos.shiftl (p + q) (Z.to_N (53 - d))) (Z.to_N (d - 53 - ez)), ez))
    as ->.
  { rewrite digits2_pos_shiftl, Hnormal, Z2N.id by lia.
    unfold shl_align, fexp, emin.
    by destruct (Z.max (53 + (d - 53 - ez) + ez - 53) (3 - 1024 - 53) - ez)%Z eqn:Hk; [..|lia]. }
  rewrite binary_round_aux_shifted by (rewrite ?Z2N.id by lia; first [done|lia]).
  unfold normal_number. fold d. f_equal. rewrite Z2N.id by lia. lia.
Qed.

Lemma number_add_of_Z (a b : Z) :
  (0 ≤ a)%Z → (0 ≤ b)%Z → (a + b < 2 ^ 53)%Z →
  number_add (number_of_Z a) (number_of_Z b) = number_of_Z (a + b).
Proof.
  intros Ha Hb Hsum.
  assert (∀ n, (0 ≤ n < 2 ^ 53)%Z → is_safe_integer n = true) as Hsafe.
  { intros n Hn. unfold is_safe_integer. apply andb_true_iff.
    split; [apply Z.leb_le|apply Z.leb_le]; lia. }
  rewrite !number_of_Z_safe by (apply Hsafe; lia).
  destruct a as [|p|p], b as [|q|q]; try lia; try done.
  by apply number_add_normal.
Qed.

(** *** Numeric texts *)

Lemma span_spec (p : Z → bool) (l run rest : list Z) :
  span p l = (run, rest)
  ↔ l = run ++ rest
    ∧ Forall (λ c, p c = true) run
    ∧ match rest with c :: _ => p c = false | [] => True end.
Proof.
  split.
  - revert run rest. induction l as [|c l IH]; intros run rest; cbn.
    + by intros [= <- <-].
    + destruct (p c) eqn:Hc.
      * destruct (span p l) as [run' rest'] eqn:Hs. intros [= <- <-].
        destruct (IH run' rest' eq_refl) as (-> & Hrun & Hrest).
        split_and!; [done|by constructor|done].
      * by intros [= <- <-].
  - intros (-> & Hrun & Hrest). induction Hrun as [|c run Hc _ IH]; cbn.
    + destruct rest as [|c rest]; [done|]. cbn. by rewrite Hrest.
    + by rewrite Hc, IH.
Qed.

Lemma skip_white_spec (l rest : list Z) :
  skip_white l = rest
  ↔ ∃ before, l = before ++ rest
              ∧ Forall (λ c, is_white c = true) before
              ∧ match rest with c :: _ => is_white c = false | [] => True end.
Proof.
  split.
  - revert rest. induction l as [|c l IH]; intros rest; cbn.
    + intros <-. by exists [].
    + destruct (is_white c) eqn:Hc.
      * intros (before & -> & ? & ?)%IH. exists (c :: before).
        split_and!; [done|by constructor|done].
      * intros <-. by exists [].
  - intros (before & -> & Hbefore & Hrest).
    induction Hbefore as [|c before Hc _ IH]; cbn.
    + destruct rest as [|c rest]; [done|]. cbn. by rewrite Hrest.
    + by rewrite Hc.
Qed.

Lemma trim_spec (l lit : list Z) :
  trim l = lit
  ↔ ∃ before after,
      l = before ++ lit ++ after
      ∧ Forall (λ c, is_white c = true) before
      ∧ Forall (λ c, is_white c = true) after
      ∧ match lit with c :: _ => is_white c = false | [] => True end
      ∧ match reverse lit with c :: _ => is_white c = false | [] => True end.
Proof.
  unfold trim. split.
  - intros <-.
    destruct (proj1 (skip_white_spec l _) eq_refl) as (before & Hl & Hbefore & Hhead).
    destruct (proj1 (skip_white_spec (reverse (skip_white l)) _) eq_refl)
      as (after & Hr & Hafter & Hlast).
    exists before, (reverse after). rewrite reverse_involutive.
    split_and!; [| done | by apply Forall_reverse | | done].
    + rewrite Hl at 1. f_equal.
      rewrite <- (reverse_involutive (skip_white l)), Hr at 1.
      by rewrite reverse_app.
    + apply (f_equal reverse) in Hr. rewrite reverse_involutive, reverse_app in Hr.
      destruct (reverse (skip_white (reverse (skip_white l)))) as [|c t]; [done|].
      rewrite Hr in Hhead. done.
  - intros (before & after & -> & Hbefore & Hafter & Hhead & Hlast).
    assert (skip_white (before ++ lit ++ after) = skip_white (lit ++ after)) as ->.
    { clear -Hbefore. induction Hbefore as [|c before Hc _ IH]; [done|].
      cbn. by rewrite Hc. }
    destruct lit as [|c lit].
    + cbn [app].
      assert (skip_white after = []) as ->; [|done].
      clear -Hafter. induction Hafter as [|c after Hc _ IH]; [done|].
      cbn. by rewrite Hc.
    + cbn [app skip_white]. rewrite Hhead.
      change (c :: lit ++ after) with ((c :: lit) ++ after).
      rewrite reverse_app.
      assert (skip_white (reverse after ++ reverse (c :: lit))
              = skip_white (reverse (c :: lit))) as ->.
      { apply Forall_reverse in Hafter. revert Hafter.
        generalize (reverse after). clear. intros l Hl.
        induction Hl as [|x l Hx _ IH]; [done|]. cbn. by rewrite Hx. }
      destruct (reverse (c :: lit)) as [|x r] eqn:Hr.
      * by apply (f_equal reverse) in Hr; rewrite reverse_involutive in Hr.
      * cbn [skip_white]. rewrite Hlast. by rewrite <- Hr, reverse_involutive.
Qed.

Lemma digit_range (base c : Z) :
  is_digit_of base c = true →
  (48 ≤ c ≤ 57 ∨ 65 ≤ c ≤ 70 ∨ 97 ≤ c ≤ 102)%Z.
Proof.
  unfold is_digit_of, digit_value. intros [d Hd]%bool_decide_eq_true.
  destruct (Z.leb_spec 48 c), (Z.leb_spec c 57), (Z.leb_spec 97 c),
    (Z.leb_spec c 102), (Z.leb_spec 65 c), (Z.leb_spec c 70);
    cbn in Hd; try lia; by rewrite Z.ltb_irrefl in Hd.
Qed.

Lemma decimal_digit_range (c : Z) : is_digit_of 10 c = true → (48 ≤ c ≤ 57)%Z.
Proof.
  unfold is_digit_of, digit_value. intros [d Hd]%bool_decide_eq_true.
  destruct (Z.leb_spec 48 c), (Z.leb_spec c 57); cbn in Hd; [lia|..];
    repeat match type of Hd with
      | context [if ?b then _ else _] => destruct b eqn:?
      end; try done;
    match goal with H : (_ <? 10)%Z = true |- _ => apply Z.ltb_lt in H end;
    repeat match goal with H : (_ && _) = true |- _ =>
             apply andb_true_iff in H as [?%Z.leb_le ?%Z.leb_le] end; lia.
Qed.

Lemma literal_char_not_white (c : Z) : literal_char c → is_white c = false.
Proof.
  unfold literal_char, is_white. intros Hc. apply orb_false_iff. split.
  - apply bool_decide_eq_false_2. intros Hin.
    repeat (apply elem_of_cons in Hin as [->|Hin]; [lia|]).
    by apply elem_of_nil in Hin.
  - apply andb_false_iff. left. apply Z.leb_gt. lia.
Qed.

Ltac literal_codes :=
  match goal with
  | |- Forall literal_char ?l =>
      let l' := eval vm_compute in l in change (Forall literal_char l')
  end;
  repeat (apply Forall_cons_2; [unfold literal_char; lia|]); apply Forall_nil_2.

Lemma digits_literal_chars (base : Z) (ds : list Z) :
  Forall (λ c, is_digit_of base c = true) ds → Forall literal_char ds.
Proof.
  intros Hds. eapply Forall_impl; [done|].
  intros c Hc%digit_range. unfold literal_char. lia.
Qed.

Lemma sign_literal_chars (sg : list Z) (negative : bool) :
  sign_text sg negative → Forall literal_char sg.
Proof. destruct 1; literal_codes. Qed.

Lemma codes_member (c : Z) (s : string) :
  c ∈ codes s → Forall literal_char (codes s) → literal_char c.
Proof. intros Hc Hall. by eapply Forall_forall in Hall. Qed.

Lemma exponent_literal_chars (l : list Z) (e : Z) :
  exponent_text l e → Forall literal_char l.
Proof.
  destruct 1 as [|ind sg ds negative Hind Hsg [_ Hds]]; [constructor|].
  constructor.
  - apply (codes_member ind "eE" Hind). literal_codes.
  - apply Forall_app. split; [by eapply sign_literal_chars|by eapply digits_literal_chars].
Qed.

Lemma decimal_literal_chars (l : list Z) (m e : Z) :
  decimal_text l m e → Forall literal_char l.
Proof.
  destruct 1 as [whole fraction ex e Hw Hf _ Hex|whole ex e [_ Hw] Hex].
  - rewrite !Forall_app. split_and!;
      [by eapply digits_literal_chars
      |literal_codes
      |by eapply digits_literal_chars
      |by eapply exponent_literal_chars].
  - rewrite Forall_app. split;
      [by eapply digits_literal_chars|by eapply exponent_literal_chars].
Qed.

Lemma literal_chars (l : list Z) (x : numeral) :
  literal_text l x → Forall literal_char l.
Proof.
  destruct 1 as [|sg negative Hsg|sg l negative m e Hsg Hl|p base ds Hp [_ Hds]].
  - constructor.
  - apply Forall_app. split; [by eapply sign_literal_chars|].
    literal_codes.
  - apply Forall_app. split; [by eapply sign_literal_chars|by eapply decimal_literal_chars].
  - change (codes "0" ++ p :: ds) with (48%Z :: p :: ds).
    constructor; [unfold literal_char; lia|]. constructor.
    + destruct Hp as [p Hp|p Hp|p Hp];
        [apply (codes_member p "xX" Hp)|apply (codes_member p "oO" Hp)
        |apply (codes_member p "bB" Hp)];
        literal_codes.
    + by eapply digits_literal_chars.
Qed.

Lemma sign_of_spec (l rest : list Z) (negative : bool) :
  sign_of l = (negative, rest)
  ↔ ∃ sg, l = sg ++ rest ∧ sign_text sg negative
          ∧ (sg = [] → match rest with
                        | c :: _ => c ≠ 43%Z ∧ c ≠ 45%Z
                        | [] => True
                        end).
Proof.
  unfold sign_of. split.
  - destruct l as [|c l]; [intros [= <- <-]; exists []; split_and!; [done|constructor|done]|].
    destruct (Z.eqb_spec c 43) as [->|Hp].
    { intros [= <- <-]. exists (codes "+"). split_and!; [done|constructor|done]. }
    destruct (Z.eqb_spec c 45) as [->|Hm].
    { intros [= <- <-]. exists (codes "-"). split_and!; [done|constructor|done]. }
    intros [= <- <-]. exists []. split_and!; [done|constructor|done].
  - intros (sg & -> & Hsg & Hrest). destruct Hsg; cbn; [|done..].
    destruct rest as [|c rest]; [done|]. destruct (Hrest eq_refl) as [Hp Hm].
    destruct (Z.eqb_spec c 43); [done|]. by destruct (Z.eqb_spec c 45).
Qed.

Lemma exponent_part_spec (l : list Z) (e : Z) :
  exponent_part l = Some e ↔ exponent_text l e.
Proof.
  unfold exponent_part. split.
  - destruct l as [|c l]; [intros [= <-]; constructor|].
    case_bool_decide as Hc; [|done].
    destruct (sign_of l) as [negative l'] eqn:Hsign.
    apply sign_of_spec in Hsign as (sg & -> & Hsg & _).
    destruct (span (is_digit_of 10) l') as [ds rest] eqn:Hspan.
    apply span_spec in Hspan as (-> & Hds & _).
    destruct ds as [|d ds]; [done|]. destruct rest; [|done].
    intros [= <-]. rewrite app_nil_r. by constructor.
  - destruct 1 as [|ind sg ds negative Hind Hsg [Hne Hds]]; [done|].
    rewrite bool_decide_eq_true_2 by done.
    assert (sign_of (sg ++ ds) = (negative, ds)) as ->.
    { apply sign_of_spec. exists sg. split_and!; [done..|].
      intros _. destruct Hds as [|d ds Hd _]; [done|].
      apply decimal_digit_range in Hd. lia. }
    assert (span (is_digit_of 10) ds = (ds, [])) as ->.
    { apply span_spec. by rewrite app_nil_r. }
    by destruct ds.
Qed.

Ltac code_cases H :=
  match type of H with
  | _ ∈ codes ?s =>
      let l := eval vm_compute in (codes s) in change (codes s) with l in H
  end;
  repeat (apply elem_of_cons in H as [->|H]);
  try (by apply elem_of_nil in H).

Lemma radix_of_spec (p base : Z) : radix_of p = Some base ↔ radix_prefix p base.
Proof.
  unfold radix_of. split.
  - repeat case_bool_decide; intros [= <-]; by constructor.
  - destruct 1 as [p Hp|p Hp|p Hp]; code_cases Hp; by vm_compute.
Qed.

Lemma decimal_char_no_radix (c : Z) : decimal_char c → radix_of c = None.
Proof.
  intros Hc. destruct (radix_of c) as [base|] eqn:Hr; [|done].
  apply radix_of_spec in Hr. unfold decimal_char in Hc.
  destruct Hr as [p Hp|p Hp|p Hp]; code_cases Hp; lia.
Qed.

Lemma digits_decimal_chars (ds : list Z) :
  Forall (λ c, is_digit_of 10 c = true) ds → Forall decimal_char ds.
Proof.
  intros Hds. eapply Forall_impl; [done|].
  intros c Hc%decimal_digit_range. unfold decimal_char. lia.
Qed.

Lemma exponent_decimal_chars (l : list Z) (e : Z) :
  exponent_text l e → Forall decimal_char l.
Proof.
  destruct 1 as [|ind sg ds negative Hind Hsg [_ Hds]]; [constructor|].
  constructor.
  - unfold decimal_char. code_cases Hind; lia.
  - apply Forall_app. split; [|by apply digits_decimal_chars].
    destruct Hsg; repeat constructor; unfold decimal_char; vm_compute; lia.
Qed.

Lemma exponent_head (l : list Z) (e : Z) :
  exponent_text l e →
  match l with
  | c :: _ => is_digit_of 10 c = false ∧ c ≠ 46%Z
  | [] => True
  end.
Proof.
  destruct 1 as [|ind sg ds negative Hind _ _]; [done|].
  code_cases Hind; by vm_compute.
Qed.

Lemma decimal_chars (l : list Z) (m e : Z) :
  decimal_text l m e → Forall decimal_char l.
Proof.
  destruct 1 as [whole fraction ex e Hw Hf _ Hex|whole ex e [_ Hw] Hex].
  - rewrite !Forall_app. split_and!;
      [by apply digits_decimal_chars
      |repeat constructor; unfold decimal_char; vm_compute; lia
      |by apply digits_decimal_chars
      |by eapply exponent_decimal_chars].
  - rewrite Forall_app. split;
      [by apply digits_decimal_chars|by eapply exponent_decimal_chars].
Qed.

Lemma decimal_head (l : list Z) (m e : Z) :
  decimal_text l m e → ∃ c t, l = c :: t ∧ (48 ≤ c ≤ 57 ∨ c = 46)%Z.
Proof.
  destruct 1 as [whole fraction ex e Hw Hf _ Hex|whole ex e [Hne Hw] Hex].
  - destruct Hw as [|c ds Hc%decimal_digit_range _].
    + eexists _, _. split; [done|]. by right.
    + eexists _, _. split; [done|]. by left.
  - destruct Hw as [|c ds Hc%decimal_digit_range _]; [done|].
    eexists _, _. split; [done|]. by left.
Qed.

Lemma unsigned_decimal_spec (negative : bool) (l : list Z) (x : numeral) :
  unsigned_decimal negative l = Some x
  ↔ (l = codes "Infinity" ∧ x = Infinite negative)
    ∨ ∃ m e, decimal_text l m e ∧ x = Finite negative m e.
Proof.
  unfold unsigned_decimal. split.
  - case_bool_decide as Hinf; [intros [= <-]; by left|]. intros Hx. right.
    destruct (span (is_digit_of 10) l) as [whole rest] eqn:Hspan.
    apply span_spec in Hspan as (-> & Hwhole & Hrest).
    assert (match whole ++ [] with
            | [] => None
            | ds =>
                e ← exponent_part rest;
                Some (Finite negative (digits_value 10 ds)
                        (e - Z.of_nat (length (@nil Z))))
            end = Some x →
            ∃ m e, decimal_text (whole ++ rest) m e ∧ x = Finite negative m e)
      as Hinteger.
    { rewrite app_nil_r. intros Hds.
      assert (whole ≠ []) as Hne by (by intros ->).
      destruct whole as [|d ds]; [done|].
      destruct (exponent_part rest) as [e|] eqn:He; [|done].
      apply exponent_part_spec in He. injection Hds as <-.
      eexists _, _. split; [|done].
      replace (e - Z.of_nat 0)%Z with e by lia.
      by constructor. }
    destruct rest as [|c r]; [by apply Hinteger|].
    destruct (Z.eqb_spec c 46) as [->|Hc]; [|by apply Hinteger].
    clear Hinteger.
    destruct (span (is_digit_of 10) r) as [fraction rest'] eqn:Hspan.
    apply span_spec in Hspan as (-> & Hfraction & _).
    assert (whole ++ fraction ≠ []) as Hne by (by intros Heq; rewrite Heq in Hx).
    destruct (whole ++ fraction) as [|d ds] eqn:Hds; [done|]. rewrite <- Hds in Hx.
    destruct (exponent_part rest') as [e|] eqn:He; [|done].
    apply exponent_part_spec in He. injection Hx as <-.
    eexists _, _. split; [|done].
    change (46%Z :: fraction ++ rest') with (codes "." ++ fraction ++ rest').
    constructor; [done..| |done]. by rewrite Hds.
  - intros [[-> ->]|(m & e & Hl & ->)]; [by rewrite bool_decide_eq_true_2|].
    rewrite bool_decide_eq_false_2; last first.
    { intros Heq. apply decimal_head in Hl as (c & t & -> & Hc).
      vm_compute in Heq. injection Heq as -> _. lia. }
    destruct Hl as [whole fraction ex e Hw Hf Hne Hex|whole ex e [Hne Hw] Hex].
    + assert (span (is_digit_of 10) (whole ++ codes "." ++ fraction ++ ex)
              = (whole, 46%Z :: fraction ++ ex)) as ->.
      { apply span_spec. split_and!; [done..|by vm_compute]. }
      rewrite Z.eqb_refl.
      assert (span (is_digit_of 10) (fraction ++ ex) = (fraction, ex)) as ->.
      { apply span_spec. split_and!; [done..|].
        apply exponent_head in Hex. destruct ex; [done|]. by destruct Hex. }
      destruct (whole ++ fraction) as [|d ds] eqn:Hds; [done|]. rewrite <- Hds.
      apply exponent_part_spec in Hex. by rewrite Hex.
    + assert (span (is_digit_of 10) (whole ++ ex) = (whole, ex)) as ->.
      { apply span_spec. split_and!; [done..|].
        apply exponent_head in Hex. destruct ex; [done|]. by destruct Hex. }
      pose proof (exponent_head _ _ Hex) as Hhead.
      apply exponent_part_spec in Hex.
      assert (match ex with
              | c :: r => if (c =? 46)%Z then span (is_digit_of 10) r else ([], ex)
              | [] => ([], ex)
              end = ([], ex)) as ->.
      { destruct ex as [|c r]; [done|]. destruct Hhead as [_ Hc].
        by destruct (Z.eqb_spec c 46). }
      rewrite app_nil_r. destruct whole as [|d ds]; [done|].
      rewrite Hex. cbn. do 3 f_equal. lia.
Qed.

Lemma numeric_literal_spec (l : list Z) (x : numeral) :
  numeric_literal l = Some x ↔ literal_text l x.
Proof.
  unfold numeric_literal. split.
  - destruct l as [|c l']; [intros [= <-]; constructor|].
    destruct (if (c =? 48)%Z then head l' ≫= radix_of else None) as [base|] eqn:Hradix.
    + destruct (Z.eqb_spec c 48) as [->|]; [|done].
      destruct l' as [|p l'']; [done|]. cbn in Hradix.
      apply radix_of_spec in Hradix. cbn [tail]. unfold radix_integer.
      destruct (span (is_digit_of base) l'') as [ds rest] eqn:Hspan.
      apply span_spec in Hspan as (-> & Hds & _).
      destruct ds as [|d ds']; [done|].
      destruct rest; [|done]. intros [= <-]. rewrite app_nil_r.
      by apply (literal_radix p base (d :: ds')).
    + destruct (sign_of (c :: l')) as [negative l2] eqn:Hsign.
      apply sign_of_spec in Hsign as (sg & -> & Hsg & _).
      intros [[-> ->]|(m & e & Hl & ->)]%unsigned_decimal_spec; by constructor.
  - destruct 1 as [|sg negative Hsg|sg l negative m e Hsg Hl|p base ds Hp [Hne Hds]].
    + done.
    + by destruct Hsg.
    + pose proof (decimal_chars _ _ _ Hl) as Hchars.
      destruct (decimal_head _ _ _ Hl) as (c & t & -> & Hc).
      assert (sign_of (sg ++ c :: t) = (negative, c :: t)) as Hsign.
      { apply sign_of_spec. exists sg. split_and!; [done..|]. intros _. lia. }
      assert (match sg ++ c :: t with
              | [] => Some (Finite false 0 0)
              | c' :: l' =>
                  match (if (c' =? 48)%Z then head l' ≫= radix_of else None) with
                  | Some base => radix_integer base (tail l')
                  | None =>
                      let '(negative, l'') := sign_of (sg ++ c :: t) in
                      unsigned_decimal negative l''
                  end
              end = unsigned_decimal negative (c :: t)) as Hcase.
      { rewrite Hsign. destruct Hsg; cbn [app]; [|done..].
        destruct (Z.eqb_spec c 48); [|done].
        destruct t as [|c2 t]; [done|]. cbn.
        apply Forall_cons in Hchars as [_ Hchars].
        apply Forall_cons in Hchars as [Hc2 _].
        by rewrite decimal_char_no_radix. }
      destruct sg as [|s sg]; cbn [app] in *.
      * rewrite Hcase. apply unsigned_decimal_spec. right. by eexists _, _.
      * rewrite Hcase. apply unsigned_decimal_spec. right. by eexists _, _.
    + change (codes "0" ++ p :: ds) with (48%Z :: p :: ds).
      apply radix_of_spec in Hp. cbn. rewrite Hp. unfold radix_integer.
      assert (span (is_digit_of base) ds = (ds, [])) as ->.
      { apply span_spec. by rewrite app_nil_r. }
      by destruct ds.
Qed.

Theorem numeric_literal_trim (l : list Z) (x : numeral) :
  numeric_literal (trim l) = Some x ↔ numeric_text l x.
Proof.
  split.
  - intros Hx. destruct (proj1 (trim_spec l _) eq_refl)
      as (before & after & Hl & Hbefore & Hafter & _).
    exists before, (trim l), after. split_and!; [done..|].
    by apply numeric_literal_spec.
  - intros (before & lit & after & -> & Hbefore & Hafter & Hlit).
    pose proof (literal_chars _ _ Hlit) as Hchars.
    assert (trim (before ++ lit ++ after) = lit) as ->.
    { apply trim_spec. exists before, after. split_and!; [done..| |].
      - destruct Hchars as [|c lit Hc _]; [done|]. by apply literal_char_not_white.
      - apply Forall_reverse in Hchars.
        destruct Hchars as [|c lit' Hc _]; [done|]. by apply literal_char_not_white. }
    by apply numeric_literal_spec.
Qed.



Lemma mark_multiple_number_text (question : value) (i : Z) (s : string) :
  get question "answer" = Normal (JNumber i) →
  mark multiple question (JString s)
  = Normal (number_eqb (number_of_Z i) (text_to_number s)).
Proof. intros Hget. cbn. by rewrite Hget. Qed.

Lemma number_eqb_sym (x y : number) : number_eqb x y = number_eqb y x.
Proof.
  unfold number_eqb, SFeqb, SFcompare.
  destruct x as [[]|[]| |[] mx ex], y as [[]|[]| |[] my ey]; try done;
    change (PosDef.Pos.compare_cont Eq mx my) with (Pos.compare mx my);
    change (PosDef.Pos.compare_cont Eq my mx) with (Pos.compare my mx);
    destruct (Z.compare_spec ex ey), (Z.compare_spec ey ex),
      (Pos.compare_spec mx my), (Pos.compare_spec my mx); cbn; try done; lia.
Qed.

Lemma text_to_number_reads_as (s : string) (i : Z) :
  number_eqb (number_of_Z i) (text_to_number s) = true ↔ reads_as s i.
Proof.
  unfold text_to_number, reads_as. rewrite number_eqb_sym. split.
  - destruct (utf8_decode s) as [cps|] eqn:Hs; [|done]. cbn.
    destruct (numeric_literal (trim cps)) as [x|] eqn:Hx; [|done].
    intros Heq. exists cps, x. split_and!; [done| |done].
    by apply numeric_literal_trim.
  - intros (cps & x & -> & Hx%numeric_literal_trim & Heq). cbn. by rewrite Hx.
Qed.



(** ** The quiz flows *)

(** C3 (the code departs from it).  Playing a quiz that has no question does
    not reach the finished summary: [stats] is empty, and line 169 reduces
    the empty array without an initial value, which throws.  [playQuiz]
    rejects and no page is sent. *)
Theorem playQuiz_without_questions_rejects (title : value) (startTime : Z) :
  playQuiz (JObject [("title", title); ("questions", JArray [])]) startTime
  = Rejected TypeError.
Proof. reflexivity. Qed.

Lemma question_type_of_free : question_type_of "free" = Normal free.
Proof. by vm_compute. Qed.

Lemma question_type_of_multiple : question_type_of "multiple" = Normal multiple.
Proof. by vm_compute. Qed.

(** C4 (the code departs from it).  When a free-text question is presented
    and the request that resumes the procedure has no [answer] field,
    [free.mark] calls [toLowerCase] on [undefined]: the play procedure is
    aborted by the [TypeError], and no feedback is sent. *)
Theorem free_question_without_answer_rejects
    (quiz question : value) (stats : list stat) (rest : list value)
    (startTime : Z) (a : string) (req : request) :
  get question "type" = Normal (JString "free") →
  get question "answer" = Normal (JString a) →
  query req !! "answer" = None →
  resume (AwaitAnswer quiz stats question rest startTime) req = Rejected TypeError.
Proof.
  intros Hty Ha Hq. unfold resume, question_type_for, field.
  rewrite Hty, Hq. cbn -[get]. rewrite question_type_of_free.
  cbn -[get]. by rewrite Ha.
Qed.

Lemma questionTypes_lookup_None (key : string) :
  key ≠ "free" → key ≠ "multiple" → questionTypes !! key = None.
Proof.
  intros Hf Hm. unfold questionTypes.
  rewrite lookup_insert_ne by done. by rewrite lookup_singleton_ne.
Qed.

Lemma question_type_of_unregistered (key : string) :
  key ≠ "free" → key ≠ "multiple" → question_type_of key = Throw TypeError.
Proof.
  intros Hf Hm. unfold question_type_of, get_property.
  rewrite questionTypes_lookup_None by done.
  by destruct (is_object_prototype_key key).
Qed.

(** C10.  When the overview is resumed with [addQuestion] set and a [type]
    that is neither ["free"] nor ["multiple"] (or no [type] at all),
    [questionTypes[req.query.type]] is no registered type and the call of
    its [create] throws: the authoring procedure is rejected there instead of
    showing the overview again.  The key that [req.query.type] stands for is
    its text; a [type] that has none is rejected as well. *)
Theorem unregistered_type_rejects (quiz : value) (req : request) :
  truthy (field req "addQuestion") = true →
  to_string (field req "type") ≠ Normal "free" →
  to_string (field req "type") ≠ Normal "multiple" →
  resume (AwaitOverview quiz) req = Rejected TypeError.
Proof.
  intros Hadd Hf Hm. unfold resume. rewrite Hadd.
  destruct (to_string (field req "type")) as [key|e] eqn:Hkey; cbn [attempt].
  - rewrite question_type_of_unregistered; [done|congruence..].
  - by rewrite (to_string_TypeError _ _ Hkey).
Qed.

(** ** JSON text *)

Lemma print_value_array (l : list value) (rest : string) :
  print_value (JArray l) rest = String "[" (print_elements l rest).
Proof.
  cbn. f_equal. induction l as [|x l IH]; [done|].
  cbn. destruct l; by rewrite <- IH.
Qed.

Lemma print_value_object (m : list (string * value)) (rest : string) :
  print_value (JObject m) rest = String "{" (print_members true m rest).
Proof.
  cbn. f_equal.
  match goal with
  | |- ?f true m = _ => enough (∀ b, f b m = print_members b m rest) as H by apply H
  end.
  induction m as [|[k x] m IH]; intros first; [done|].
  cbn. destruct x; by rewrite <- ?IH.
Qed.

Lemma parse_chars_print_char (c : ascii) (tail : string) :
  parse_chars (print_char c tail) = parsed_map (String c) (parse_chars tail).
Proof. destruct c as [[] [] [] [] [] [] [] []]; reflexivity. Qed.

Lemma parse_chars_print_chars (s rest : string) :
  parse_chars (print_chars s (String quote rest)) = Parsed s rest.
Proof.
  induction s as [|c s IH]; [done|].
  cbn [print_chars]. by rewrite parse_chars_print_char, IH.
Qed.

Lemma delimited_inv (rest : string) :
  delimited rest = true →
  rest = EmptyString
  ∨ ∃ c r, rest = String c r ∧ (c = "," ∨ c = "]" ∨ c = "}")%char.
Proof.
  destruct rest as [|c r]; [by left|]. cbn. intros Hc%bool_decide_eq_true.
  right. exists c, r. split; [done|].
  repeat (apply elem_of_cons in Hc as [->|Hc]; [tauto|]).
  by apply elem_of_nil in Hc.
Qed.

Lemma read_uint_end (rest : string) :
  delimited rest = true → read_uint rest = (Decimal.Nil, rest).
Proof.
  intros H. apply delimited_inv in H as [-> | (c & r & -> & [-> | [-> | ->]])];
    reflexivity.
Qed.

Lemma read_uint_print_uint (d : Decimal.uint) (rest : string) :
  delimited rest = true → read_uint (print_uint d rest) = (d, rest).
Proof.
  intros Hrest. induction d; cbn [print_uint];
    [by apply read_uint_end | cbn; rewrite IHd; reflexivity ..].
Qed.

Lemma number_end_delimited (z : Z) (rest : string) :
  is_safe_integer z = true → delimited rest = true →
  number_end z rest = Parsed (JNumber z) rest.
Proof.
  intros Hz H. apply delimited_inv in H as [-> | (c & r & -> & [-> | [-> | ->]])];
    cbn; by rewrite Hz.
Qed.

(** The decimal numeral of a natural number is not empty and has no leading
    zero, except for zero itself. *)
Lemma N_to_uint_canonical (n : N) :
  N.to_uint n ≠ Decimal.Nil
  ∧ ∀ d, N.to_uint n = Decimal.D0 d → d = Decimal.Nil.
Proof.
  pose proof (DecimalN.Unsigned.to_of (N.to_uint n)) as Hn.
  rewrite DecimalN.Unsigned.of_to in Hn. rewrite Hn.
  unfold Decimal.unorm.
  destruct (Decimal.nzhead (N.to_uint n)) as [|d|d|d|d|d|d|d|d|d|d] eqn:Hh;
    try (split; [discriminate|intros ? [=]]; fail).
  - split; [discriminate|]. by intros d [= <-].
  - by apply DecimalFacts.nzhead_nonzero in Hh.
Qed.

Lemma parse_digits_print_uint (negative : bool) (d : Decimal.uint) (rest : string) :
  delimited rest = true →
  d ≠ Decimal.Nil → (∀ d', d = Decimal.D0 d' → d' = Decimal.Nil) →
  parse_digits negative (print_uint d rest)
  = number_end (if negative then (- Z.of_N (N.of_uint d))%Z
                else Z.of_N (N.of_uint d)) rest.
Proof.
  intros Hrest Hnil Hzero.
  destruct d as [|d|d|d|d|d|d|d|d|d|d]; [done|by rewrite (Hzero d eq_refl)|..];
    match goal with
    | |- context [print_uint ?dd rest] =>
        pose proof (read_uint_print_uint dd rest Hrest) as Hread
    end;
    unfold parse_digits; cbn [print_uint] in *; cbv beta iota;
    rewrite Hread; reflexivity.
Qed.

Lemma parse_number_print_number (n : Z) (rest : string) :
  is_safe_integer n = true → delimited rest = true →
  parse_number (print_number n rest) = Parsed (JNumber n) rest.
Proof.
  intros Hn Hrest. unfold print_number.
  pose proof (DecimalN.Unsigned.of_to (Z.abs_N n)) as Hof.
  destruct (N_to_uint_canonical (Z.abs_N n)) as [Hnil Hzero].
  destruct (n <? 0)%Z eqn:Hsign.
  - cbn [parse_number]. rewrite parse_digits_print_uint by done.
    rewrite Hof. apply Z.ltb_lt in Hsign.
    replace (- Z.of_N (Z.abs_N n))%Z with n by lia.
    by apply number_end_delimited.
  - replace (parse_number (print_uint (N.to_uint (Z.abs_N n)) rest))
      with (parse_digits false (print_uint (N.to_uint (Z.abs_N n)) rest)).
    2:{ destruct (N.to_uint (Z.abs_N n)); [done|reflexivity..]. }
    rewrite parse_digits_print_uint by done.
    rewrite Hof. apply Z.ltb_ge in Hsign.
    replace (Z.of_N (Z.abs_N n)) with n by lia.
    by apply number_end_delimited.
Qed.

Lemma print_value_starts (v : value) (rest : string) :
  ∃ c r, print_value v rest = String c r ∧ value_start c = true.
Proof.
  destruct v as [| |[]|n|s|l|m]; try (eexists _, _; split; [reflexivity|done]).
  cbn [print_value]. unfold print_number.
  destruct (n <? 0)%Z; [by eexists _, _|].
  destruct (N_to_uint_canonical (Z.abs_N n)) as [Hnil _].
  destruct (N.to_uint (Z.abs_N n)); [done|by eexists _, _..].
Qed.

Lemma value_start_not_closing {T : Type} (c : ascii) (r : string)
    (A : string → T) (B : T) :
  value_start c = true →
  match skip_ws (String c r) with
  | String "]" r' => A r'
  | _ => B
  end = B.
Proof. destruct c as [[] [] [] [] [] [] [] []]; (discriminate || reflexivity). Qed.

Lemma parse_value_number (fuel : nat) (c : ascii) (r : string) :
  is_digit c = true ∨ c = "-"%char →
  parse_value (S fuel) (String c r) = parse_number (String c r).
Proof.
  intros [Hc| ->]; [|reflexivity].
  destruct c as [[] [] [] [] [] [] [] []]; (discriminate || reflexivity).
Qed.

Lemma parse_value_print_number (fuel : nat) (n : Z) (rest : string) :
  is_safe_integer n = true → delimited rest = true →
  parse_value (S fuel) (print_number n rest) = Parsed (JNumber n) rest.
Proof.
  intros Hn Hrest. rewrite <- (parse_number_print_number n rest Hn Hrest).
  unfold print_number. destruct (n <? 0)%Z.
  - apply parse_value_number. by right.
  - destruct (N_to_uint_canonical (Z.abs_N n)) as [Hnil _].
    destruct (N.to_uint (Z.abs_N n)); [done|..];
      cbn [print_uint]; apply parse_value_number; by left.
Qed.

Lemma json_data_array (x : value) (l : list value) :
  json_data (JArray (x :: l)) ↔ json_data x ∧ json_data (JArray l).
Proof. reflexivity. Qed.

Lemma json_data_members (members : list (string * value)) :
  json_data (JObject members) →
  Forall (λ kv, json_data kv.2) members.
Proof.
  intros [_ Hall]. induction members as [|[k x] m IH]; constructor.
  - apply Hall.
  - apply IH, Hall.
Qed.

Lemma weight_array (x : value) (l : list value) :
  weight (JArray (x :: l)) = S (weight x + weight (JArray l)).
Proof. cbn. lia. Qed.

Lemma weight_object (k : string) (x : value) (m : list (string * value)) :
  weight (JObject ((k, x) :: m)) = S (weight x + weight (JObject m)).
Proof. cbn. lia. Qed.

Lemma weight_pos (v : value) : 1 ≤ weight v.
Proof. destruct v; cbn; lia. Qed.

(** The parser of array elements reads back what [print_elements] wrote. *)
Lemma parse_elements_print_elements (l : list value) (rest : string) (fuel : nat) :
  Forall (λ x, json_data x → ∀ rest fuel, delimited rest = true → weight x ≤ fuel →
               parse_value fuel (print_value x rest) = Parsed x rest) l →
  l ≠ [] → json_data (JArray l) → weight (JArray l) ≤ S fuel →
  parse_elements fuel (print_elements l rest) = Parsed l rest.
Proof.
  intros IH. revert fuel. induction IH as [|x l Hx _ IHl]; intros fuel Hne Hdata Hfuel;
    [done|].
  apply json_data_array in Hdata as [Hdx Hdl]. rewrite weight_array in Hfuel.
  pose proof (weight_pos (JArray l)) as Hl. pose proof (weight_pos x) as Hwx.
  destruct fuel as [|fuel]; [lia|]. cbn [parse_elements print_elements].
  destruct l as [|y l].
  - rewrite Hx; [done|done|done|lia].
  - rewrite Hx; [|done|done|lia]. cbn [skip_ws].
    change (is_json_space ",") with false. cbv beta iota.
    rewrite IHl; [done|done|done|lia].
Qed.

Lemma print_members_data (first : bool) (k : string) (x : value)
    (m : list (string * value)) (rest : string) :
  json_data x →
  print_members first ((k, x) :: m) rest
  = (if first then id else String ",")
      (print_string k (String ":" (print_value x (print_members false m rest)))).
Proof. by destruct x, first. Qed.

Lemma parse_members_print_string (fuel : nat) (k : string) (tail : string) :
  parse_members (S fuel) (print_string k (String ":" tail))
  = match parse_value fuel tail with
    | Parsed v r3 =>
        match skip_ws r3 with
        | String "," r4 => parsed_map (cons (k, v)) (parse_members fuel r4)
        | String "}" r4 => Parsed [(k, v)] r4
        | _ => Syntax
        end
    | Syntax => Syntax
    | Unmodelled => Unmodelled
    end.
Proof.
  unfold print_string. cbn [parse_members skip_ws].
  change (is_json_space quote) with false. cbv beta iota.
  change (nat_of_ascii quote =? 34) with true. cbn [negb].
  rewrite parse_chars_print_chars. cbn [skip_ws].
  change (is_json_space ":") with false. reflexivity.
Qed.

(** The parser of object members reads back what [print_members] wrote. *)
Lemma parse_members_print_members (m : list (string * value)) (rest : string)
    (fuel : nat) :
  Forall (λ kv, json_data kv.2 → ∀ rest fuel, delimited rest = true →
                weight kv.2 ≤ fuel →
                parse_value fuel (print_value kv.2 rest) = Parsed kv.2 rest) m →
  m ≠ [] → Forall (λ kv, json_data kv.2) m → weight (JObject m) ≤ S fuel →
  parse_members fuel (print_members true m rest) = Parsed m rest.
Proof.
  intros IH. revert fuel.
  induction IH as [|[k x] m Hx _ IHm]; intros fuel Hne Hdata Hfuel; [done|].
  apply Forall_cons in Hdata as [Hdx Hdm]. cbn [snd] in Hx, Hdx.
  rewrite weight_object in Hfuel.
  pose proof (weight_pos (JObject m)) as Hm. pose proof (weight_pos x) as Hwx.
  destruct fuel as [|fuel]; [lia|].
  rewrite print_members_data by done. cbn [id].
  rewrite parse_members_print_string.
  destruct m as [|[k' y] m].
  - rewrite Hx; [done|done|done|lia].
  - apply Forall_cons in Hdm as Hdm'. destruct Hdm' as [Hdy _]. cbn [snd] in Hdy.
    rewrite print_members_data by done.
    rewrite Hx; [|done|done|lia]. cbn [skip_ws].
    change (is_json_space ",") with false. cbv beta iota.
    pose proof (print_members_data true k' y m rest Hdy) as Hfold.
    cbn [id] in Hfold. rewrite <- Hfold.
    rewrite IHm; [done|done|done|lia].
Qed.

Lemma parse_value_string (fuel : nat) (r : string) :
  parse_value (S fuel) (String quote r) = parsed_map JString (parse_chars r).
Proof. reflexivity. Qed.

Lemma parse_value_array (fuel : nat) (r : string) :
  parse_value (S fuel) (String "[" r)
  = match skip_ws r with
    | String "]" r' => Parsed (JArray []) r'
    | _ => parsed_map JArray (parse_elements fuel r)
    end.
Proof. reflexivity. Qed.

Lemma parse_value_object (fuel : nat) (r : string) :
  parse_value (S fuel) (String "{" r)
  = match skip_ws r with
    | String "}" r' => Parsed (JObject []) r'
    | _ => parsed_map build_object (parse_members fuel r)
    end.
Proof. reflexivity. Qed.

Lemma quote_not_closing {T : Type} (r : string) (A : string → T) (B : T) :
  match skip_ws (String quote r) with
  | String "}" r' => A r'
  | _ => B
  end = B.
Proof. reflexivity. Qed.

(** [JSON.parse] undoes [JSON.stringify] on JSON data: with enough fuel the
    parser returns the value and stops where its text ends. *)
Lemma parse_value_print_value (v : value) :
  json_data v → ∀ rest fuel, delimited rest = true → weight v ≤ fuel →
  parse_value fuel (print_value v rest) = Parsed v rest.
Proof.
  induction v as [| |b|n|s|l IH|m IH] using value_ind;
    intros Hdata rest fuel Hrest Hfuel;
    (destruct fuel as [|fuel]; [cbn in Hfuel; lia|]).
  - done.
  - reflexivity.
  - by destruct b.
  - by apply parse_value_print_number.
  - cbn [print_value]. unfold print_string.
    by rewrite parse_value_string, parse_chars_print_chars.
  - rewrite print_value_array, parse_value_array.
    destruct l as [|x l]; [reflexivity|].
    destruct (print_value_starts x
      match l with [] => print_elements l rest | _ => String "," (print_elements l rest) end)
      as (c & r & Hc & Hstart).
    cbn [print_elements]. rewrite Hc, value_start_not_closing by done.
    rewrite <- Hc.
    change (print_value x _) with (print_elements (x :: l) rest).
    rewrite parse_elements_print_elements; done.
  - rewrite print_value_object, parse_value_object.
    destruct m as [|[k x] m]; [reflexivity|].
    pose proof (json_data_members _ Hdata) as Hall.
    apply Forall_cons in Hall as Hall'. destruct Hall' as [Hdx _]. cbn [snd] in Hdx.
    pose proof (print_members_data true k x m rest Hdx) as Hfold. cbn [id] in Hfold.
    rewrite Hfold at 1. unfold print_string at 1.
    rewrite quote_not_closing.
    rewrite parse_members_print_members; [|done..]. cbn [parsed_map].
    f_equal. apply Hdata.
Qed.

Lemma length_print_char (c : ascii) (rest : string) :
  String.length rest < String.length (print_char c rest).
Proof.
  unfold print_char. repeat case_match; cbn [String.length]; lia.
Qed.

Lemma length_print_chars (s rest : string) :
  String.length rest ≤ String.length (print_chars s rest).
Proof.
  induction s as [|c s IH]; cbn [print_chars]; [lia|].
  pose proof (length_print_char c (print_chars s rest)). lia.
Qed.

Lemma length_print_string (s rest : string) :
  2 + String.length rest ≤ String.length (print_string s rest).
Proof.
  unfold print_string. cbn [String.length].
  pose proof (length_print_chars s (String quote rest)) as H.
  cbn [String.length] in H. lia.
Qed.

Lemma length_print_uint (d : Decimal.uint) (rest : string) :
  d ≠ Decimal.Nil → String.length rest < String.length (print_uint d rest).
Proof.
  assert (∀ d, String.length rest ≤ String.length (print_uint d rest)) as Hle.
  { intros d'. induction d'; cbn [print_uint String.length]; lia. }
  intros Hd. destruct d; [done|..]; cbn [print_uint String.length];
    match goal with |- context [print_uint ?d' rest] => specialize (Hle d') end; lia.
Qed.

Lemma length_print_number (n : Z) (rest : string) :
  String.length rest < String.length (print_number n rest).
Proof.
  unfold print_number.
  pose proof (length_print_uint (N.to_uint (Z.abs_N n)) rest
                (proj1 (N_to_uint_canonical _))).
  destruct (n <? 0)%Z; cbn [String.length]; lia.
Qed.

(** The text of a value is at least as long as the fuel its parsing needs. *)
Lemma weight_le_length (v : value) :
  json_data v → ∀ rest,
  weight v + String.length rest ≤ String.length (print_value v rest).
Proof.
  induction v as [| |b|n|s|l IH|m IH] using value_ind; intros Hdata rest.
  - done.
  - cbn [print_value weight]. cbv [String.append]. cbn [String.length]. lia.
  - destruct b; cbn [print_value weight]; cbv [String.append];
      cbn [String.length]; lia.
  - pose proof (length_print_number n rest). cbn [print_value weight]. lia.
  - pose proof (length_print_string s rest). cbn [print_value weight]. lia.
  - rewrite print_value_array. cbn [String.length].
    enough (weight (JArray l) + String.length rest
            ≤ S (String.length (print_elements l rest))) by lia.
    induction IH as [|x l Hx _ IHl]; [cbn; lia|].
    apply json_data_array in Hdata as [Hdx Hdl]. rewrite weight_array.
    cbn [print_elements]. specialize (IHl Hdl).
    destruct l as [|y l].
    + specialize (Hx Hdx (print_elements [] rest)).
      cbn [print_elements String.length] in *. cbn [weight] in *. lia.
    + specialize (Hx Hdx (String "," (print_elements (y :: l) rest))).
      cbn [String.length] in Hx. lia.
  - rewrite print_value_object. cbn [String.length].
    pose proof (json_data_members _ Hdata) as Hall. clear Hdata.
    enough (∀ first, weight (JObject m) + String.length rest
            ≤ S (String.length (print_members first m rest))) as H
      by (specialize (H true); lia).
    induction IH as [|[k x] m Hx _ IHm]; intros first; [cbn; lia|].
    apply Forall_cons in Hall as [Hdx Hdm]. cbn [snd] in Hx, Hdx.
    rewrite weight_object, print_members_data by done.
    specialize (IHm Hdm false).
    specialize (Hx Hdx (print_members false m rest)).
    pose proof (length_print_string k
      (String ":" (print_value x (print_members false m rest)))) as Hk.
    cbn [String.length] in Hk.
    destruct first; cbn [id String.length]; lia.
Qed.

(** [JSON.parse(JSON.stringify(v))] is [v] on JSON data. *)
Lemma JSON_parse_stringify (v : value) (text : string) :
  json_data v → JSON_stringify v = Some text → JSON_parse text = ParsedValue v.
Proof.
  intros Hdata Htext.
  assert (text = print_value v "") as ->
    by (destruct v; [done|injection Htext as <-; reflexivity..]).
  unfold JSON_parse.
  pose proof (weight_le_length v Hdata "") as Hlen.
  rewrite (parse_value_print_value v Hdata); [done|done|lia].
Qed.

(** ** The download link *)

Lemma base64_index_char (n : nat) :
  n < 64 → base64_index (base64_char n) = Some n.
Proof.
  intros Hn. do 64 (destruct n as [|n]; [reflexivity|]). lia.
Qed.

Lemma base64_char_not_pad (n : nat) :
  n < 64 → Ascii.eqb (base64_char n) "=" = false.
Proof.
  intros Hn. do 64 (destruct n as [|n]; [reflexivity|]). lia.
Qed.

Lemma sextet_bounds (x y : nat) :
  x < 256 → y < 256 →
  x / 4 < 64 ∧ x mod 4 * 16 < 64 ∧ x mod 4 * 16 + y / 16 < 64
  ∧ y mod 16 * 4 < 64 ∧ y mod 16 * 4 + x / 64 < 64 ∧ x mod 64 < 64.
Proof.
  intros Hx Hy.
  pose proof (Nat.div_mod_eq x 4). pose proof (Nat.mod_upper_bound x 4).
  pose proof (Nat.div_mod_eq y 16). pose proof (Nat.mod_upper_bound y 16).
  pose proof (Nat.div_mod_eq x 64). pose proof (Nat.mod_upper_bound x 64).
  lia.
Qed.

Lemma sextet_bytes (x y z : nat) :
  x < 256 → y < 256 → z < 256 →
  x / 4 * 4 + (x mod 4 * 16 + y / 16) / 16 = x
  ∧ (x mod 4 * 16 + y / 16) mod 16 * 16 + (y mod 16 * 4 + z / 64) / 4 = y
  ∧ (y mod 16 * 4 + z / 64) mod 4 * 64 + z mod 64 = z.
Proof.
  intros Hx Hy Hz.
  pose proof (Nat.div_mod_eq x 4). pose proof (Nat.mod_upper_bound x 4).
  pose proof (Nat.div_mod_eq y 16). pose proof (Nat.mod_upper_bound y 16).
  pose proof (Nat.div_mod_eq z 64). pose proof (Nat.mod_upper_bound z 64).
  assert (y / 16 < 16) by (apply Nat.Div0.div_lt_upper_bound; lia).
  assert (z / 64 < 4) by (apply Nat.Div0.div_lt_upper_bound; lia).
  split_and!.
  - rewrite (Nat.add_comm (x mod 4 * 16)), Nat.div_add by lia.
    rewrite (Nat.div_small (y / 16)) by lia. lia.
  - rewrite (Nat.add_comm (x mod 4 * 16)), Nat.Div0.mod_add.
    rewrite (Nat.mod_small (y / 16)) by lia.
    rewrite (Nat.add_comm (y mod 16 * 4)), Nat.div_add by lia.
    rewrite (Nat.div_small (z / 64)) by lia. lia.
  - rewrite (Nat.add_comm (y mod 16 * 4)), Nat.Div0.mod_add.
    rewrite (Nat.mod_small (z / 64)) by lia. lia.
Qed.

(** Decoding the base64 text of a byte sequence gives the bytes back. *)
Lemma base64_decode_base64 (bytes : string) :
  base64_decode (base64 bytes) = Some bytes.
Proof.
  revert bytes. fix IH 1. intros [|a [|b [|c rest]]].
  - reflexivity.
  - pose proof (nat_ascii_bounded a) as Ha.
    destruct (sextet_bounds (nat_of_ascii a) 0 Ha ltac:(lia)) as (B1 & B2 & _).
    destruct (sextet_bytes (nat_of_ascii a) 0 0 Ha ltac:(lia) ltac:(lia)) as (E1 & _).
    change (0 / 16) with 0 in E1. rewrite Nat.add_0_r in E1.
    cbn [base64 base64_decode].
    rewrite !base64_index_char by done. cbn [mbind option_bind].
    rewrite E1, ascii_nat_embedding. reflexivity.
  - pose proof (nat_ascii_bounded a) as Ha. pose proof (nat_ascii_bounded b) as Hb.
    destruct (sextet_bounds (nat_of_ascii a) (nat_of_ascii b) Ha Hb)
      as (B1 & _ & B2 & B3 & _).
    destruct (sextet_bytes (nat_of_ascii a) (nat_of_ascii b) 0 Ha Hb ltac:(lia))
      as (E1 & E2 & _).
    change (0 / 64) with 0 in E2. rewrite Nat.add_0_r in E2.
    cbn [base64 base64_decode].
    rewrite !base64_index_char by done. cbn [mbind option_bind].
    rewrite (base64_char_not_pad _ B3).
    rewrite E1, E2, !ascii_nat_embedding. reflexivity.
  - pose proof (nat_ascii_bounded a) as Ha. pose proof (nat_ascii_bounded b) as Hb.
    pose proof (nat_ascii_bounded c) as Hc.
    destruct (sextet_bounds (nat_of_ascii a) (nat_of_ascii b) Ha Hb)
      as (B1 & _ & B2 & _).
    destruct (sextet_bounds (nat_of_ascii c) (nat_of_ascii b) Hc Hb)
      as (_ & _ & _ & _ & B3 & B4).
    destruct (sextet_bytes (nat_of_ascii a) (nat_of_ascii b) (nat_of_ascii c) Ha Hb Hc)
      as (E1 & E2 & E3).
    cbn [base64 base64_decode].
    rewrite !base64_index_char by done. cbn [mbind option_bind].
    rewrite (base64_char_not_pad _ B3), (base64_char_not_pad _ B4).
    rewrite IH. cbn [mbind option_bind].
    rewrite E1, E2, E3, !ascii_nat_embedding. reflexivity.
Qed.

Lemma download_jsonToDataURI (json : string) :
  download (jsonToDataURI json) = Some json.
Proof.
  unfold download, jsonToDataURI.
  change (after_prefix data_uri_prefix (data_uri_prefix +:+ base64 json))
    with (Some (base64 json)).
  cbn [mbind option_bind]. apply base64_decode_base64.
Qed.

(** ** Export and import *)

Lemma assoc_None (key : string) (members : list (string * value)) :
  key ∉ members.*1 → assoc key members = None.
Proof.
  induction members as [|[k x] m IH]; [done|]. cbn.
  intros [Hne Hm]%not_elem_of_cons.
  destruct (String.eqb_spec k key) as [->|_]; [done|]. by apply IH.
Qed.

Lemma define_property_fresh (key : string) (v : value)
    (members : list (string * value)) :
  array_index key = None → key ∉ members.*1 →
  define_property key v members = members ++ [(key, v)].
Proof.
  intros Hidx. induction members as [|[k x] m IH]; [done|]. cbn.
  intros [Hne Hm]%not_elem_of_cons.
  destruct (String.eqb_spec k key) as [->|_]; [done|].
  rewrite Hidx. by rewrite IH.
Qed.

Lemma build_plain_keys (members acc : list (string * value)) :
  NoDup (acc ++ members).*1 →
  Forall (λ kv, array_index kv.1 = None) members →
  foldl (λ acc kv, define_property kv.1 kv.2 acc) acc members = acc ++ members.
Proof.
  revert acc. induction members as [|[k x] m IH]; intros acc Hnd Hidx.
  - by rewrite app_nil_r.
  - apply Forall_cons in Hidx as [Hk Hm]. cbn [foldl fst snd] in *.
    rewrite define_property_fresh.
    + rewrite IH; [by rewrite <- app_assoc| |done].
      by rewrite <- app_assoc.
    + done.
    + rewrite fmap_app, fmap_cons in Hnd. apply NoDup_app in Hnd as (_ & Hnd & _).
      intros Hin. apply (Hnd k Hin). by left.
Qed.

(** Objects whose keys are distinct and are no array indices, such as the
    quiz and the questions that the flows build, have their properties in
    enumeration order. *)
Lemma plain_keys_enumeration_ordered (members : list (string * value)) :
  plain_keys members → enumeration_ordered members.
Proof.
  intros [Hnd Hidx]. unfold enumeration_ordered, build_object.
  by rewrite (build_plain_keys members []).
Qed.

Lemma parse_value_defined (fuel : nat) (s : string) (v : value) (rest : string) :
  parse_value fuel s = Parsed v rest → v ≠ JUndefined.
Proof.
  intros H ->. destruct fuel as [|fuel]; [discriminate|].
  cbn [parse_value] in H.
  unfold expect, parsed_map, build_object, parse_number, parse_digits, number_end in H.
  repeat case_match; simplify_eq.
Qed.

Lemma JSON_parse_defined (text : string) (v : value) :
  JSON_parse text = ParsedValue v → v ≠ JUndefined.
Proof.
  unfold JSON_parse.
  destruct (parse_value _ text) as [v' rest| |] eqn:Hp; [|discriminate..].
  destruct (skip_ws rest); [|discriminate]. intros [= <-].
  by eapply parse_value_defined.
Qed.

(** C5, as the code has it.  [/load] does not look at the shape of what it
    parses: whenever the uploaded data is JSON text, the value it denotes is
    handed to [manageQuiz], which shows the overview for it. *)
Theorem load_hands_any_json_to_manageQuiz (req : request) (data : string) (quiz : value) :
  file req = Some data →
  JSON_parse data = ParsedValue quiz →
  resume AwaitLoadQuiz req = manageQuiz quiz
  ∧ ∃ link, manageQuiz quiz = Suspended (OverviewPage quiz link) (AwaitOverview quiz).
Proof.
  intros Hfile Hparse. split.
  - unfold resume. by rewrite Hfile, Hparse.
  - apply JSON_parse_defined in Hparse. unfold manageQuiz.
    destruct quiz; [done|by eexists..].
Qed.

(** C5 does not hold as stated: an upload that is the empty object, with
    neither title nor questions, takes the session into the authoring loop,
    and an upload that is no JSON rejects the handler with the [SyntaxError]
    of [JSON.parse], with nothing reported. *)
Lemma load_accepts_malformed_quiz :
  resume AwaitLoadQuiz (Request ∅ (Some "{}") 0)
  = Suspended (OverviewPage (JObject []) (jsonToDataURI "{}")) (AwaitOverview (JObject []))
  ∧ resume AwaitLoadQuiz (Request ∅ (Some "not a quiz") 0) = Rejected SyntaxError.
Proof. split; reflexivity. Qed.

(** C6, as the code has it.  For a quiz that is JSON data (no [undefined]
    in it), following the download link of the overview and loading the
    saved file gives [manageQuiz] the same quiz, title and questions
    included. *)
Theorem export_then_import_identity (quiz : value) :
  json_data quiz →
  export_then_import quiz = Some (ParsedValue quiz)
  ∧ ∀ uri data req,
      export quiz = Some uri → download uri = Some data → file req = Some data →
      resume AwaitLoadQuiz req = manageQuiz quiz.
Proof.
  intros Hdata.
  assert (∃ json, JSON_stringify quiz = Some json) as [json Hjson]
    by (destruct quiz; [done|by eexists..]).
  pose proof (JSON_parse_stringify quiz json Hdata Hjson) as Hparse.
  unfold export_then_import, export. rewrite Hjson. cbn [fmap option_fmap option_map mbind option_bind].
  split.
  - rewrite download_jsonToDataURI. cbn [mbind option_bind]. by rewrite Hparse.
  - intros uri data req [= <-]. rewrite download_jsonToDataURI. intros [= <-] Hfile.
    unfold resume. by rewrite Hfile, Hparse.
Qed.

(** C6 does not hold for every quiz the authoring flow builds.  A
    multiple-choice question made from a request without choice fields has
    [undefined] choices; [JSON.stringify] writes them as [null], so the
    imported question sequence differs from the exported one. *)
Lemma export_then_import_changes_undefined_choices :
  resume (AwaitQuestion multiple (JObject [("title", JString "Geo"); ("questions", JArray [])]))
    request_without_choices
  = manageQuiz quiz_without_choices
  ∧ ∃ imported,
      export_then_import quiz_without_choices = Some (ParsedValue imported)
      ∧ get imported "questions" ≠ get quiz_without_choices "questions".
Proof.
  split; [reflexivity|].
  eexists. split; [vm_compute; reflexivity|]. vm_compute. discriminate.
Qed.

(** ** Sessions *)

(** The scenario of the specification ends with the feedback page that
    reports the answer "paris" as correct. *)
Example geo_session_feedback :
  last (serve geo_session initial).1
  = Some (Page (FeedbackPage (JString "Geo") true (number_of_Z 2) (JString "paris")
                  capital_question)
            (continueURL (nth_uuid 5))).
Proof. vm_compute. reflexivity. Qed.

(** Playing the quiz before it has a question ends without a reply. *)
Example empty_quiz_session_no_reply :
  last (serve empty_quiz_session initial).1 = Some NoReply.
Proof. vm_compute. reflexivity. Qed.

(** A request to [/continue/constructor] gets no reply; one to
    [/continue/valueOf] gets the error page. *)
Example inherited_member_replies :
  (handle (nth_uuid 0) (AllContinue "constructor" request_without_answer) initial).1
  = NoReply
  ∧ (handle (nth_uuid 0) (AllContinue "valueOf" request_without_answer) initial).1
    = ServerError.
Proof. split; vm_compute; reflexivity. Qed.

(** Response times are added as doubles: 0.1 s and 0.2 s make
    0.30000000000000004 s, which is not the double that 0.3 is. *)
Example total_time_is_rounded :
  total_time [quick_answer; slow_answer] = text_to_number "0.30000000000000004"
  ∧ number_eqb (total_time [quick_answer; slow_answer]) (text_to_number "0.3") = false.
Proof. split; vm_compute; reflexivity. Qed.

(** ** The properties at sample inputs *)

Lemma continuation_resumed_at_most_once_witness :
  uuid_shaped (nth_uuid 0) = true
  ∧ length (List.filter (mints (nth_uuid 0)) resumed_twice) ≤ 1
  ∧ (length (List.filter (resumes (nth_uuid 0)) (run resumed_twice initial).1) ≤ 1
     ∧ ∀ pre post k st',
         resumed_twice = pre ++ Continue (nth_uuid 0) :: post →
         continue_handler (nth_uuid 0) (run pre initial).2 = (Resumed k, st') →
         List.forallb (expires (nth_uuid 0)) (run post st').1 = true
         ∧ List.filter (resumes (nth_uuid 0)) (run post st').1 = []).
Proof.
  split; [reflexivity|]. split; [vm_compute; lia|].
  apply (continuation_resumed_at_most_once resumed_twice (nth_uuid 0));
    [reflexivity|vm_compute; lia].
Defined.

Lemma free_question_without_answer_rejects_witness :
  get capital_question "type" = Normal (JString "free")
  ∧ get capital_question "answer" = Normal (JString "Paris")
  ∧ query request_without_answer !! "answer" = None
  ∧ resume (AwaitAnswer geo_quiz [] capital_question [] 0) request_without_answer
    = Rejected TypeError.
Proof.
  split; [reflexivity|]. split; [reflexivity|]. split; [reflexivity|].
  apply (free_question_without_answer_rejects geo_quiz capital_question [] [] 0
           "Paris" request_without_answer); reflexivity.
Defined.

Lemma load_hands_any_json_to_manageQuiz_witness :
  file upload_of_empty_object = Some "{}"
  ∧ JSON_parse "{}" = ParsedValue (JObject [])
  ∧ (resume AwaitLoadQuiz upload_of_empty_object = manageQuiz (JObject [])
     ∧ ∃ link, manageQuiz (JObject [])
               = Suspended (OverviewPage (JObject []) link) (AwaitOverview (JObject []))).
Proof.
  split; [reflexivity|]. split; [reflexivity|].
  apply (load_hands_any_json_to_manageQuiz upload_of_empty_object "{}" (JObject []));
    reflexivity.
Defined.

Lemma geo_quiz_json_data : json_data geo_quiz.
Proof. repeat split; vm_compute; reflexivity. Defined.

Lemma export_then_import_identity_witness :
  json_data geo_quiz
  ∧ (export_then_import geo_quiz = Some (ParsedValue geo_quiz)
     ∧ ∀ uri data req,
         export geo_quiz = Some uri → download uri = Some data →
         file req = Some data →
         resume AwaitLoadQuiz req = manageQuiz geo_quiz).
Proof.
  split; [exact geo_quiz_json_data|].
  apply (export_then_import_identity geo_quiz). exact geo_quiz_json_data.
Defined.



Lemma unregistered_type_rejects_witness :
  truthy (field request_for_essay_question "addQuestion") = true
  ∧ to_string (field request_for_essay_question "type") ≠ Normal "free"
  ∧ to_string (field request_for_essay_question "type") ≠ Normal "multiple"
  ∧ resume (AwaitOverview geo_quiz) request_for_essay_question = Rejected TypeError.
Proof.
  split; [reflexivity|]. split; [vm_compute; discriminate|].
  split; [vm_compute; discriminate|].
  apply (unregistered_type_rejects geo_quiz request_for_essay_question);
    [reflexivity|vm_compute; discriminate..].
Defined.

(* ===================================================================== *)
(** * Part III.  Further properties of the code                           *)
(* ===================================================================== *)

(** ** The registry *)

Section registry_runs.
Context {K : Type}.

Lemma sendSuspend_lookup (t : string) (k : K) (st : registry K) :
  continuations (sendSuspend t k st) !! t = Some k.
Proof.
  unfold sendSuspend. destruct (evict (uuids st) (continuations st)) as [us cs].
  cbn. apply lookup_insert_eq.
Qed.

Lemma continue_handler_stored (t : string) (k : K) (st : registry K) :
  continuations st !! t = Some k →
  continue_handler t st
  = (Resumed k, Registry (delete t (continuations st)) (uuids st)).
Proof. intros Hk. unfold continue_handler, get_property. by rewrite Hk. Qed.

Lemma continue_handler_not_stored (t : string) (st : registry K) :
  continuations st !! t = None → (continue_handler t st).2 = st.
Proof.
  intros Hk. unfold continue_handler, get_property. rewrite Hk.
  destruct (is_object_prototype_key t); [|done].
  cbn. rewrite delete_id by done. by destruct st.
Qed.

Lemma continue_handler_uuids (t : string) (st : registry K) :
  uuids (continue_handler t st).2 = uuids st.
Proof. unfold continue_handler. by destruct (get_property _ _). Qed.

Lemma continue_handler_other (t t' : string) (st : registry K) :
  t ≠ t' →
  continuations (continue_handler t st).2 !! t' = continuations st !! t'.
Proof.
  intros Hne. unfold continue_handler.
  destruct (get_property _ _); cbn; by rewrite ?lookup_delete_ne.
Qed.

Lemma sendSuspend_other (id t : string) (k : K) (st : registry K) :
  uuids st = [] → id ≠ t →
  continuations (sendSuspend id k st) !! t = continuations st !! t.
Proof.
  intros Hu Hne. rewrite sendSuspend_no_uuids by done. cbn.
  by rewrite lookup_insert_ne.
Qed.

Lemma run_uuids_nil (tr : list (event K)) (st : registry K) :
  uuids st = [] → uuids (run tr st).2 = [].
Proof.
  revert st. induction tr as [|[id k|id] tr IH]; intros st Hu; [done|..].
  - cbn [run]. apply IH. by rewrite sendSuspend_no_uuids.
  - cbn [run]. pose proof (continue_handler_uuids id st) as Hh.
    destruct (continue_handler id st) as [r st']. cbn in Hh.
    specialize (IH st'). destruct (run tr st') as [log st'']. cbn in *.
    apply IH. congruence.
Qed.

Lemma run_app (tr1 tr2 : list (event K)) (st : registry K) :
  (run (tr1 ++ tr2) st).2 = (run tr2 (run tr1 st).2).2.
Proof.
  revert st. induction tr1 as [|[id k|id] tr1 IH]; intros st; [done|..].
  - cbn [run app]. apply IH.
  - cbn [run app]. destruct (continue_handler id st) as [r st'].
    specialize (IH st').
    destruct (run (tr1 ++ tr2) st') as [log st''].
    destruct (run tr1 st') as [log1 st1]. by cbn in *.
Qed.

Lemma run_keeps_unconcerned (t : string) (tr : list (event K)) (st : registry K) :
  uuids st = [] →
  List.forallb (λ e, negb (concerns t e)) tr = true →
  continuations (run tr st).2 !! t = continuations st !! t.
Proof.
  revert st. induction tr as [|[id k|id] tr IH]; intros st Hu Htr; [done|..];
    cbn in Htr; apply andb_true_iff in Htr as [Hid Htr];
    apply negb_true_iff, bool_decide_eq_false in Hid.
  - cbn [run]. rewrite IH; [|by rewrite sendSuspend_no_uuids|done].
    by apply sendSuspend_other.
  - cbn [run]. pose proof (continue_handler_uuids id st) as Hh.
    pose proof (continue_handler_other id t st Hid) as Ho.
    destruct (continue_handler id st) as [r st']. cbn in Hh, Ho.
    specialize (IH st'). destruct (run tr st') as [log st'']. cbn in *.
    rewrite IH; [done|congruence|done].
Qed.

(** X1.  What [sendSuspend] stores under a token is what the first request
    with that token resumes, and the request takes it out of the registry. *)
Theorem sendSuspend_then_continue (t : string) (k : K) (st : registry K) :
  uuid_shaped t = true →
  (continue_handler t (sendSuspend t k st)).1 = Resumed k
  ∧ continuations (continue_handler t (sendSuspend t k st)).2 !! t = None
  ∧ (continue_handler t (continue_handler t (sendSuspend t k st)).2).1 = Expired.
Proof.
  intros Hu.
  rewrite (continue_handler_stored t k) by apply sendSuspend_lookup. cbn.
  split; [done|]. split; [apply lookup_delete_eq|].
  rewrite continue_handler_absent; [done|done|]. cbn. apply lookup_delete_eq.
Qed.

(** X2.  Nothing is ever evicted: in a run from the empty registry, [uuids]
    stays empty, and a continuation stored under a token stays stored,
    whatever is suspended and resumed afterwards, until a request with that
    token comes (or the token is returned again). *)
Theorem abandoned_continuation_is_kept (pre post : list (event K)) (t : string) (k : K) :
  uuid_shaped t = true →
  List.forallb (λ e, negb (concerns t e)) post = true →
  uuids (run (pre ++ Suspend t k :: post) initial).2 = []
  ∧ continuations (run (pre ++ Suspend t k :: post) initial).2 !! t = Some k.
Proof.
  intros _ Hpost. split; [by apply run_uuids_nil|].
  rewrite run_app. cbn [run].
  assert (uuids (run pre initial).2 = []) as Hu by (by apply run_uuids_nil).
  rewrite run_keeps_unconcerned; [|by rewrite sendSuspend_no_uuids|done].
  apply sendSuspend_lookup.
Qed.

(** X3.  A request gets the expired-or-invalid notice exactly when its token
    is neither stored nor the name of a member of [Object.prototype]; and a
    request whose token is not stored leaves the registry as it was. *)
Theorem notice_exactly_when (t : string) (st : registry K) :
  ((continue_handler t st).1 = Expired
   ↔ continuations st !! t = None ∧ is_object_prototype_key t = false)
  ∧ (continuations st !! t = None → (continue_handler t st).2 = st).
Proof.
  split; [|apply continue_handler_not_stored].
  unfold continue_handler, get_property.
  destruct (continuations st !! t) as [k|]; cbn.
  - split; [discriminate|intros [? _]; discriminate].
  - destruct (is_object_prototype_key t); cbn;
      (split; [try discriminate; done|intros [_ ?]; try discriminate; done]).
Qed.

End registry_runs.

(** ** The server *)

Lemma suspend_page (id : string) (o : outcome) (st st1 : registry continuation)
    (p : page) (url : string) :
  suspend id o st = (Page p url, st1) →
  ∃ k, o = Suspended p k ∧ url = continueURL id ∧ st1 = sendSuspend id k st.
Proof.
  destruct o as [p' k|e|]; cbn; [|discriminate..].
  intros [= -> <- <-]. by exists k.
Qed.

Lemma suspend_other (id t : string) (o : outcome) (st : registry continuation) :
  uuids st = [] → id ≠ t →
  continuations (suspend id o st).2 !! t = continuations st !! t
  ∧ uuids (suspend id o st).2 = [].
Proof.
  intros Hu Hne. destruct o as [p k|e|]; cbn; [|done..].
  rewrite sendSuspend_no_uuids by done. cbn. by rewrite lookup_insert_ne.
Qed.

Lemma suspend_keeps_absent (id t : string) (o : outcome) (st : registry continuation) :
  id ≠ t → continuations st !! t = None →
  continuations (suspend id o st).2 !! t = None.
Proof.
  intros Hne Ht. destruct o as [p k|e|]; cbn; [|done..].
  by apply sendSuspend_keeps_absent.
Qed.

(** X4.  Handling a request touches no session but its own: every token
    other than the one the request bears and the one [uuidv4()] returns for
    it keeps its continuation, and [uuids] stays empty. *)
Theorem handle_keeps_other_sessions (id : string) (h : http)
    (st : registry continuation) (t : string) :
  uuids st = [] → id ≠ t → request_token h ≠ Some t →
  continuations (handle id h st).2 !! t = continuations st !! t
  ∧ uuids (handle id h st).2 = [].
Proof.
  intros Hu Hid Htok. destruct h as [| |token req]; cbn [handle].
  - by apply suspend_other.
  - by apply suspend_other.
  - assert (token ≠ t) as Hne by (intros ->; by apply Htok).
    pose proof (continue_handler_uuids token st) as Hh.
    pose proof (continue_handler_other token t st Hne) as Ho.
    destruct (continue_handler token st) as [[k| |] st']; cbn in Hh, Ho.
    + rewrite <- Ho. apply suspend_other; [congruence|done].
    + cbn. split; congruence.
    + cbn. split; congruence.
Qed.

(** X5.  The URL on a page that the server sends can be used once: it is the
    [/continue/] URL of the token just stored, the first request to it
    resumes the paused procedure, and a request to it after that gets the
    notice, whatever the first one led to. *)
Theorem page_url_resumes_once (id : string) (h : http)
    (st st1 : registry continuation) (p : page) (url : string) :
  uuid_shaped id = true →
  handle id h st = (Page p url, st1) →
  url = continueURL id
  ∧ ∃ k, (continue_handler id st1).1 = Resumed k
         ∧ ∀ id2 req id3 req',
             id2 ≠ id →
             handle id2 (AllContinue id req) st1
             = suspend id2 (resume k req) (continue_handler id st1).2
             ∧ (handle id3 (AllContinue id req')
                  (handle id2 (AllContinue id req) st1).2).1 = Notice.
Proof.
  intros Hu Hh.
  assert (∃ o st0, suspend id o st0 = (Page p url, st1)) as (o & st0 & Hs).
  { destruct h as [| |token req]; cbn [handle] in Hh; [by eexists _, _..|].
    destruct (continue_handler token st) as [[k|name|] st']; [by eexists _, _| |done].
    unfold call_inherited in Hh. by destruct (bool_decide _). }
  apply suspend_page in Hs as (k & -> & -> & ->). split; [done|].
  exists k.
  pose proof (continue_handler_stored id k (sendSuspend id k st0)
                (sendSuspend_lookup id k st0)) as Hc.
  split; [by rewrite Hc|].
  intros id2 req id3 req' Hne. cbn [handle]. rewrite Hc. split; [done|].
  set (st2 := Registry _ _).
  assert (continuations (suspend id2 (resume k req) st2).2 !! id = None) as Habs.
  { apply suspend_keeps_absent; [done|]. apply lookup_delete_eq. }
  rewrite (continue_handler_absent id _ Hu Habs). done.
Qed.

(** ** Questions made by the forms *)

Lemma get_create_type (ty : question_type) (req : request) :
  get (create ty req) "type" = Normal (JString (typename ty)).
Proof. by destruct ty. Qed.

Lemma get_create_answer (ty : question_type) (req : request) :
  get (create ty req) "answer"
  = Normal (field req (match ty with free => "answer" | multiple => "correctIndex" end)).
Proof. by destruct ty. Qed.

Lemma question_type_of_typename (ty : question_type) :
  question_type_of (typename ty) = Normal ty.
Proof. destruct ty; [apply question_type_of_free|apply question_type_of_multiple]. Qed.

Lemma question_type_for_create (ty : question_type) (req : request) :
  question_type_for (create ty req) = Normal ty.
Proof.
  unfold question_type_for. rewrite get_create_type. cbn.
  apply question_type_of_typename.
Qed.

Lemma get_TypeError (v : value) (key : string) (e : error) :
  get v key = Throw e → e = TypeError.
Proof. destruct v; cbn; congruence. Qed.

Lemma loose_eq_TypeError (x y : value) (e : error) :
  loose_eq x y = Throw e → e = TypeError.
Proof.
  unfold loose_eq. destruct (is_nullish x || is_nullish y); [discriminate|].
  destruct (is_object x && is_object y); [discriminate|].
  assert (∀ v e, to_primitive v = Throw e → e = TypeError) as Hprim.
  { intros v e'. unfold to_primitive.
    destruct v; try discriminate;
      (destruct (to_string _) as [s|e''] eqn:Hs; cbn; [discriminate|]);
      intros [= <-]; by eapply to_string_TypeError. }
  destruct (to_primitive x) as [px|ex] eqn:Hx; cbn.
  - destruct (to_primitive y) as [py|ey] eqn:Hy; cbn.
    + by destruct px, py.
    + intros [= <-]. by eapply Hprim.
  - intros [= <-]. by eapply Hprim.
Qed.

Lemma mark_TypeError (ty : question_type) (question answer : value) (e : error) :
  mark ty question answer = Throw e → e = TypeError.
Proof.
  unfold mark. destruct ty.
  - destruct (get question "answer") as [expected|e'] eqn:Hget; cbn.
    + destruct expected; cbn; try congruence. destruct answer; cbn; congruence.
    + intros [= <-]. by eapply get_TypeError.
  - destruct (get question "answer") as [expected|e'] eqn:Hget; cbn.
    + apply loose_eq_TypeError.
    + intros [= <-]. by eapply get_TypeError.
Qed.

Lemma mark_create (ty : question_type) (made_from answered : request) :
  mark ty (create ty made_from) (field answered "answer")
  = match expected_mark ty made_from answered with
    | Some b => Normal b
    | None => Throw TypeError
    end.
Proof.
  unfold expected_mark.
  destruct (mark ty (create ty made_from) (field answered "answer")) as [b|e] eqn:Hm;
    [done|].
  by rewrite (mark_TypeError _ _ _ _ Hm).
Qed.

Lemma call_toLowerCase_param (p : param) :
  call_toLowerCase (param_value p)
  = match p with
    | Text s => Normal (toLowerCase s)
    | _ => Throw TypeError
    end.
Proof. by destruct p. Qed.

(** X6.  Marking a question made by the forms, in terms of the two requests.
    A free-text question is marked by comparing the lower-cased texts, and
    marking throws unless the form's answer and the player's are both texts.
    A multiple-choice question is marked with [==]: when the stored index
    and the submitted answer are texts or are missing, it is marked right
    exactly when they are the same text or are both missing; the array of
    the one text [s] is marked right for the stored text [s]; and an object
    with a member [toString] makes the marking throw. *)
Theorem mark_of_created_question (made_from answered : request) :
  (mark free (create free made_from) (field answered "answer")
   = match query made_from !! "answer", query answered !! "answer" with
     | Some (Text a), Some (Text s) =>
         Normal (String.eqb (toLowerCase a) (toLowerCase s))
     | _, _ => Throw TypeError
     end)
  ∧ (∀ stored submitted : option string,
       query made_from !! "correctIndex" = Text <$> stored →
       query answered !! "answer" = Text <$> submitted →
       mark multiple (create multiple made_from) (field answered "answer")
       = Normal (bool_decide (stored = submitted)))
  ∧ (∀ s : string,
       query made_from !! "correctIndex" = Some (Text s) →
       query answered !! "answer" = Some (Many [Text s]) →
       mark multiple (create multiple made_from) (field answered "answer")
       = Normal true)
  ∧ (∀ (s : string) (p : param),
       query made_from !! "correctIndex" = Some (Text s) →
       query answered !! "answer" = Some (Nested [("toString", p)]) →
       mark multiple (create multiple made_from) (field answered "answer")
       = Throw TypeError).
Proof.
  split_and!.
  - unfold mark. rewrite get_create_answer. unfold field.
    cbn [mbind completion_bind].
    destruct (query made_from !! "answer") as [p|]; [|done].
    rewrite call_toLowerCase_param. destruct p as [a| |]; [|done..].
    cbn [mbind completion_bind].
    destruct (query answered !! "answer") as [q|]; [|done].
    rewrite call_toLowerCase_param. by destruct q.
  - intros stored submitted Hstored Hsubmitted.
    unfold mark. rewrite get_create_answer. unfold field.
    rewrite Hstored, Hsubmitted. cbn [mbind completion_bind].
    destruct stored as [a|], submitted as [s|]; cbn; try done.
    f_equal. destruct (String.eqb_spec a s) as [->|Hne].
    + by rewrite bool_decide_eq_true_2.
    + rewrite bool_decide_eq_false_2; [done|]. by intros [= ->].
  - intros s Hstored Hsubmitted.
    unfold mark. rewrite get_create_answer. unfold field.
    rewrite Hstored, Hsubmitted. cbn. by rewrite String.eqb_refl.
  - intros s p Hstored Hsubmitted.
    unfold mark. rewrite get_create_answer. unfold field.
    rewrite Hstored, Hsubmitted. reflexivity.
Qed.

(** ** The authoring loop *)

Lemma assoc_set_member (key key' : string) (v : value)
    (members : list (string * value)) :
  assoc key' (set_member key v members)
  = if String.eqb key key'
    then (λ _, v) <$> assoc key members
    else assoc key' members.
Proof.
  induction members as [|[k x] m IH]; cbn.
  - by destruct (String.eqb key key').
  - destruct (String.eqb_spec k key) as [->|Hk]; cbn.
    + by destruct (String.eqb_spec key key').
    + destruct (String.eqb_spec k key') as [->|Hk']; [|apply IH].
      by destruct (String.eqb_spec key key').
Qed.

Lemma get_questions_array (quiz : value) (l : list value) :
  get quiz "questions" = Normal (JArray l) →
  ∃ members, quiz = JObject members ∧ assoc "questions" members = Some (JArray l).
Proof.
  destruct quiz as [| | | | | |members]; try discriminate.
  cbn. destruct (assoc "questions" members) as [x|] eqn:Ha; cbn; [|discriminate].
  intros [= ->]. by exists members.
Qed.

Lemma manageQuiz_object (members : list (string * value)) :
  ∃ link, manageQuiz (JObject members)
          = Suspended (OverviewPage (JObject members) link)
              (AwaitOverview (JObject members)).
Proof. by eexists. Qed.

(** X7.  Completing an add-question form appends the new question to
    [quiz.questions], changes no other property of the quiz, and shows the
    overview of the extended quiz. *)
Theorem add_question_appends (ty : question_type) (quiz : value) (l : list value)
    (req : request) :
  get quiz "questions" = Normal (JArray l) →
  ∃ quiz' link,
    resume (AwaitQuestion ty quiz) req
    = Suspended (OverviewPage quiz' link) (AwaitOverview quiz')
    ∧ get quiz' "questions" = Normal (JArray (l ++ [create ty req]))
    ∧ ∀ key, key ≠ "questions" → get quiz' key = get quiz key.
Proof.
  intros Hq. destruct (get_questions_array quiz l Hq) as (members & -> & Hassoc).
  set (quiz' := JObject (set_member "questions" (JArray (l ++ [create ty req])) members)).
  destruct (manageQuiz_object
    (set_member "questions" (JArray (l ++ [create ty req])) members)) as [link Hm].
  exists quiz', link. split_and!.
  - unfold resume, push_question. rewrite Hq. cbn [mbind completion_bind attempt].
    exact Hm.
  - unfold quiz'. cbn [get]. rewrite assoc_set_member, Hassoc. done.
  - intros key Hkey. unfold quiz'. cbn [get]. rewrite assoc_set_member.
    by rewrite (proj2 (String.eqb_neq "questions" key)) by done.
Qed.

(** X8.  A quiz whose [questions] is not an array, as an upload can be,
    cannot be extended or played: completing an add-question form and
    starting to play both end in a [TypeError]. *)
Theorem questions_must_be_an_array (quiz : value) (ty : question_type)
    (req : request) (startTime : Z) :
  (∀ l, get quiz "questions" ≠ Normal (JArray l)) →
  resume (AwaitQuestion ty quiz) req = Rejected TypeError
  ∧ playQuiz quiz startTime = Rejected TypeError.
Proof.
  intros Hq. split.
  - unfold resume, push_question.
    destruct (get quiz "questions") as [qs|[]] eqn:Hget; cbn; [|done|].
    + destruct quiz; try done. destruct qs; try done. by destruct (Hq elements).
    + by destruct quiz.
  - unfold playQuiz.
    destruct (get quiz "questions") as [qs|[]] eqn:Hget; cbn; [|done|].
    + destruct qs as [| | | |s|l|m]; cbn; try done.
      * destruct s as [|c s]; done.
      * by destruct (Hq l).
    + by destruct quiz.
Qed.

(** ** The play loop *)

Lemma foldl_add_number (n : Z) (a : operand) (l : list bool) :
  operand_number a = number_of_Z n → (0 ≤ n)%Z →
  (n + Z.of_nat (length l) < 2 ^ 53)%Z →
  operand_number (foldl add a (OBool <$> l))
  = number_of_Z (n + Z.of_nat (length (List.filter id l))).
Proof.
  revert n a. induction l as [|b l IH]; intros n a Ha Hn Hlen;
    cbn [fmap list_fmap foldl List.filter length].
  - rewrite Ha. f_equal. lia.
  - cbn [length] in Hlen.
    rewrite (IH (n + (if b then 1 else 0))%Z).
    + f_equal. destruct b; cbn [id length]; lia.
    + unfold add. cbn [operand_number]. rewrite Ha.
      destruct b; cbn [operand_number]; apply number_add_of_Z; lia.
    + destruct b; lia.
    + destruct b; lia.
Qed.

Lemma foldl_add_is_number (a b : operand) (l : list operand) :
  ∃ x, foldl add a (b :: l) = ONumber x.
Proof.
  cbn [foldl].
  change (add a b) with (ONumber (number_add (operand_number a) (operand_number b))).
  generalize (number_add (operand_number a) (operand_number b)).
  induction l as [|c l IH]; intros x; [by exists x|]. cbn [foldl].
  change (add (ONumber x) c) with (ONumber (number_add x (operand_number c))). apply IH.
Qed.

Lemma foldl_add_times (t : number) (times : list number) :
  foldl add (ONumber t) (ONumber <$> times) = ONumber (foldl number_add t times).
Proof. revert t. induction times as [|u times IH]; intros t; [done|]. apply IH. Qed.

Lemma filter_correct_fmap (stats : list stat) :
  List.filter id (correct <$> stats) = correct <$> List.filter correct stats.
Proof.
  induction stats as [|s stats IH]; [done|]. cbn.
  destruct (correct s) eqn:Hs; cbn; by rewrite IH, ?Hs.
Qed.

Lemma finish_nonempty (quiz title : value) (s : stat) (stats : list stat) :
  get quiz "title" = Normal title →
  (Z.of_nat (length (s :: stats)) < 2 ^ 32)%Z →
  ∃ answersCorrect,
    finish quiz (s :: stats)
    = Suspended
        (FinishedPage title answersCorrect (ONumber (total_time (s :: stats)))
           (S (length stats)))
        (AwaitFinished quiz)
    ∧ operand_number answersCorrect = number_of_Z (score (s :: stats))
    ∧ (stats = [] → answersCorrect = OBool (correct s))
    ∧ (stats ≠ [] → answersCorrect = ONumber (number_of_Z (score (s :: stats)))).
Proof.
  intros Htitle Hlen. cbn [length] in Hlen.
  exists (foldl add (OBool (correct s)) ((λ st, OBool (correct st)) <$> stats)).
  assert (operand_number
            (foldl add (OBool (correct s)) ((λ st, OBool (correct st)) <$> stats))
          = number_of_Z (score (s :: stats))) as Hscore.
  { rewrite (list_fmap_compose correct OBool).
    rewrite (foldl_add_number (if correct s then 1 else 0)).
    - unfold score. rewrite filter_correct_fmap, length_fmap. f_equal.
      cbn [List.filter]. destruct (correct s); cbn [length]; lia.
    - by destruct (correct s).
    - destruct (correct s); lia.
    - rewrite length_fmap. destruct (correct s); lia. }
  split_and!.
  - unfold finish. cbn [fmap list_fmap reduce attempt]. rewrite Htitle.
    cbn [attempt length]. unfold total_time. cbn [fmap list_fmap].
    by rewrite (list_fmap_compose responseTime ONumber), foldl_add_times.
  - done.
  - by intros ->.
  - destruct stats as [|s' stats]; [done|]. intros _.
    destruct (foldl_add_is_number (OBool (correct s)) (OBool (correct s'))
                ((λ st, OBool (correct st)) <$> stats)) as [x Hx].
    cbn [fmap list_fmap] in Hscore |- *. rewrite Hx in Hscore |- *.
    cbn [operand_number] in Hscore. by rewrite Hscore.
Qed.

(** X9.  The finished summary of a play with at least one question reports
    the number of entries of [stats] as [totalQuestions] and, as [totalTime],
    the response times added one after the other.  [answersCorrect] stands
    for the number of entries marked correct, but it is a number only when
    there are two questions or more: with one question it is the boolean of
    that question, since [reduce] without an initial value returns the only
    element as it is.  (An array has fewer than 2^32 elements.) *)
Theorem finished_summary (quiz title : value) (s : stat) (stats : list stat) :
  get quiz "title" = Normal title →
  (Z.of_nat (length (s :: stats)) < 2 ^ 32)%Z →
  ∃ answersCorrect,
    finish quiz (s :: stats)
    = Suspended
        (FinishedPage title answersCorrect (ONumber (total_time (s :: stats)))
           (S (length stats)))
        (AwaitFinished quiz)
    ∧ operand_number answersCorrect = number_of_Z (score (s :: stats))
    ∧ (stats = [] → answersCorrect = OBool (correct s))
    ∧ (stats ≠ [] → answersCorrect = ONumber (number_of_Z (score (s :: stats)))).
Proof. apply finish_nonempty. Qed.

Lemma ask_created (quiz title : value) (stats : list stat) (ty : question_type)
    (made_from : request) (rest : list value) (start : Z) :
  get quiz "title" = Normal title →
  ask quiz stats (create ty made_from :: rest) start
  = Suspended
      (QuestionPage (present ty (create ty made_from)) title quiz (create ty made_from))
      (AwaitAnswer quiz stats (create ty made_from) rest start).
Proof.
  intros Htitle. cbn [ask]. rewrite question_type_for_create.
  cbn [attempt]. by rewrite Htitle.
Qed.

Lemma resume_answer_created (quiz title : value) (stats : list stat)
    (ty : question_type) (made_from answered : request) (rest : list value)
    (start : Z) (b : bool) :
  get quiz "title" = Normal title →
  expected_mark ty made_from answered = Some b →
  resume (AwaitAnswer quiz stats (create ty made_from) rest start) answered
  = Suspended
      (FeedbackPage title b (elapsed start (now answered)) (field answered "answer")
         (create ty made_from))
      (AwaitFeedback quiz
         (stats ++ [Stat (create ty made_from) (elapsed start (now answered)) b]) rest).
Proof.
  intros Htitle Hb. cbn [resume]. rewrite question_type_for_create.
  cbn [attempt]. rewrite mark_create, Hb. cbn [attempt]. by rewrite Htitle.
Qed.

Lemma feed_ask (quiz title : value) (turns : list turn) :
  get quiz "title" = Normal title →
  Forall (λ t, is_Some (expected_mark (asked_type t) (asked_from t) (answer_request t)))
    turns →
  ∀ stats start,
    feed (ask quiz stats (asked_question <$> turns) start)
      (turns ≫= λ t, [answer_request t; next_request t])
    = finish quiz (stats ++ played turns start).
Proof.
  intros Htitle Hturns.
  induction Hturns as [|t turns [b Hb] _ IH]; intros stats start.
  - cbn. by rewrite app_nil_r.
  - cbn [fmap list_fmap mbind list_bind app played].
    unfold asked_question at 1 3. rewrite (ask_created quiz title) by done.
    cbn [feed]. rewrite (resume_answer_created quiz title _ _ _ _ _ _ b) by done.
    cbn [feed resume]. rewrite IH, Hb. cbn [default]. by rewrite <- app_assoc.
Qed.

Lemma played_length (turns : list turn) (start : Z) :
  length (played turns start) = length turns.
Proof.
  revert start. induction turns as [|t turns IH]; intros start; [done|].
  cbn. by rewrite IH.
Qed.

(** X10.  Playing a quiz made by the forms.  When every question can be
    marked on the answer given to it (for a free-text question, the form and
    the player's request both had a text as answer), the play loop asks the
    questions in order, one question page and one feedback page each, and
    ends with the finished summary: [totalQuestions] is the number of
    questions, [totalTime] the times between a question page and its answer,
    in seconds, added one after the other, and [answersCorrect] stands for
    the number of answers marked right.  (An array has fewer than 2^32
    elements.) *)
Theorem play_of_created_questions (title : value) (t : turn) (turns : list turn)
    (start : Z) :
  Forall (λ t, is_Some (expected_mark (asked_type t) (asked_from t) (answer_request t)))
    (t :: turns) →
  (Z.of_nat (length (t :: turns)) < 2 ^ 32)%Z →
  let quiz := authored title (asked_question <$> t :: turns) in
  ∃ answersCorrect,
    feed (playQuiz quiz start)
      ((t :: turns) ≫= λ t, [answer_request t; next_request t])
    = Suspended
        (FinishedPage title answersCorrect
           (ONumber (total_time (played (t :: turns) start)))
           (length (t :: turns)))
        (AwaitFinished quiz)
    ∧ operand_number answersCorrect = number_of_Z (score (played (t :: turns) start)).
Proof.
  intros Hturns Hlen quiz.
  assert (get quiz "title" = Normal title) as Htitle by reflexivity.
  change (playQuiz quiz start) with (ask quiz [] (asked_question <$> t :: turns) start).
  rewrite (feed_ask quiz title (t :: turns) Htitle Hturns). cbn [app].
  cbn [played].
  destruct (finish_nonempty quiz title
    (Stat (asked_question t) (elapsed start (now (answer_request t)))
       (default false (expected_mark (asked_type t) (asked_from t) (answer_request t))))
    (played turns (now (next_request t))) Htitle) as (ac & Hf & Hn & _).
  { cbn [length] in Hlen |- *. by rewrite played_length. }
  exists ac. rewrite Hf. cbn [length]. by rewrite played_length.
Qed.

(** X11.  Authoring through the forms.  From the overview of a quiz, rounds
    of asking for a question of a registered type and completing its form
    lead to the overview of the quiz with the new questions appended in that
    order, the title unchanged. *)
Theorem authoring_appends_in_order (title : value) (l : list value)
    (rounds : list addition) :
  Forall (λ r, truthy (field (overview_request r) "addQuestion") = true
               ∧ query (overview_request r) !! "type"
                 = Some (Text (typename (added_type r))))
    rounds →
  feed (manageQuiz (authored title l))
    (rounds ≫= λ r, [overview_request r; form_request r])
  = manageQuiz (authored title (l ++ (added_question <$> rounds))).
Proof.
  intros Hrounds. revert l.
  induction Hrounds as [|r rounds [Hadd Hty] _ IH]; intros l.
  - cbn. by rewrite app_nil_r.
  - cbn [fmap list_fmap mbind list_bind app].
    change (manageQuiz (authored title l))
      with (Suspended (OverviewPage (authored title l)
                         (jsonToDataURI (print_value (authored title l) "")))
              (AwaitOverview (authored title l))).
    cbn [feed]. unfold resume at 1. rewrite Hadd.
    unfold field at 1. rewrite Hty. cbn [param_value to_string attempt].
    rewrite question_type_of_typename. cbn [attempt feed].
    change (resume (AwaitQuestion (added_type r) (authored title l)) (form_request r))
      with (manageQuiz (authored title (l ++ [added_question r]))).
    rewrite IH. by rewrite <- app_assoc.
Qed.

(** ** The download link and the saved file *)

(** X12.  The overview of every quiz (anything but [undefined]) carries a
    download link whose payload decodes to exactly the text that
    [JSON.stringify] gives for the quiz. *)
Theorem overview_link_holds_the_quiz (quiz : value) :
  quiz ≠ JUndefined →
  ∃ json,
    JSON_stringify quiz = Some json
    ∧ manageQuiz quiz
      = Suspended (OverviewPage quiz (jsonToDataURI json)) (AwaitOverview quiz)
    ∧ download (jsonToDataURI json) = Some json.
Proof.
  intros Hq.
  assert (∃ json, JSON_stringify quiz = Some json) as [json Hjson]
    by (destruct quiz; [done|by eexists..]).
  exists json. split; [done|]. split; [|apply download_jsonToDataURI].
  unfold manageQuiz. by rewrite Hjson.
Qed.

Lemma print_elements_sanitize (l : list value) (rest : string) :
  Forall (λ x, ∀ rest, print_value (sanitize x) rest = print_value x rest) l →
  print_elements (sanitize <$> l) rest = print_elements l rest.
Proof.
  induction 1 as [|x l Hx _ IH]; [done|].
  cbn [fmap list_fmap print_elements]. rewrite Hx.
  destruct l as [|y l]; [done|]. cbn [fmap list_fmap] in *. by rewrite IH.
Qed.

Lemma print_value_sanitize (v : value) (rest : string) :
  print_value (sanitize v) rest = print_value v rest.
Proof.
  revert rest. induction v as [| |b|n|s|l IH|m IH] using value_ind; intros rest;
    try reflexivity.
  - cbn [sanitize]. rewrite !print_value_array. f_equal.
    by apply print_elements_sanitize.
  - cbn [sanitize]. rewrite !print_value_object. f_equal. generalize true.
    induction IH as [|[k x] m Hx _ IHm]; intros first; [done|].
    cbn [snd] in Hx.
    destruct x as [| |b|n|s|l|m']; [apply IHm|..];
      cbn [print_members]; rewrite <- IHm;
      first [rewrite <- Hx; reflexivity | reflexivity].
Qed.

(** X13.  What export and import make of any quiz.  When the quiz with its
    [undefined] array elements turned into [null] and its [undefined]
    properties left out is JSON data, following the download link and loading
    the saved file gives exactly that quiz. *)
Theorem export_then_import_sanitizes (quiz : value) :
  quiz ≠ JUndefined → json_data (sanitize quiz) →
  export_then_import quiz = Some (ParsedValue (sanitize quiz)).
Proof.
  intros Hq Hdata.
  assert (JSON_stringify quiz = Some (print_value quiz ""))
    as Hjson by (by destruct quiz).
  assert (JSON_stringify (sanitize quiz) = Some (print_value quiz "")) as Hs.
  { rewrite <- print_value_sanitize. by destruct quiz as [| | | | | |?]. }
  unfold export_then_import, export. rewrite Hjson.
  cbn [fmap option_fmap option_map mbind option_bind].
  rewrite download_jsonToDataURI. cbn [mbind option_bind].
  by rewrite (JSON_parse_stringify _ _ Hdata Hs).
Qed.

(** *** The values of query fields are JSON data *)

Lemma param_ind (P : param → Prop) :
  (∀ s, P (Text s)) →
  (∀ elements, Forall P elements → P (Many elements)) →
  (∀ members, Forall (λ kp, P kp.2) members → P (Nested members)) →
  ∀ p, P p.
Proof.
  intros Ht Hm Hn. fix IH 1. intros [s|l|m].
  - apply Ht.
  - apply Hm. induction l as [|x l IHl]; constructor; [apply IH|exact IHl].
  - apply Hn. induction m as [|[k x] m IHm]; constructor; [apply IH|exact IHm].
Qed.

Lemma array_index_inj (k k' : string) (i : N) :
  array_index k = Some i → array_index k' = Some i → k = k'.
Proof.
  assert (∀ k, array_index k = Some i → k = print_uint (N.to_uint i) "") as H.
  { intros key. unfold array_index.
    destruct (read_uint key) as [d rest]. destruct d, rest; try discriminate;
      cbv zeta;
      match goal with
      | |- (if String.eqb ?a ?b && ?c then _ else _) = _ → _ =>
          destruct (String.eqb_spec a b) as [Heq|]; [|discriminate];
          destruct c; [|discriminate]; intros [= <-]; exact (eq_sym Heq)
      end. }
  intros Hk Hk'. by rewrite (H k Hk), (H k' Hk').
Qed.

Lemma has_key_false (key : string) (members : list (string * value)) :
  has_key key members = false → Forall (λ kv, kv.1 ≠ key) members.
Proof.
  unfold has_key. intros Hk%bool_decide_eq_false.
  induction members as [|[k x] m IH]; constructor.
  - cbn. intros ->. apply Hk. cbn. by rewrite String.eqb_refl.
  - apply IH. intros Hm. apply Hk. cbn.
    destruct (String.eqb_spec k key) as [->|_]; [by eexists|done].
Qed.

Lemma has_key_true (key : string) (members : list (string * value))
    (P : string → Prop) :
  has_key key members = true → Forall (λ kv, P kv.1) members → P key.
Proof.
  unfold has_key. intros Hk%bool_decide_eq_true.
  induction 1 as [|[k x] m Hx _ IH]; [by destruct Hk|].
  cbn in Hk. destruct (String.eqb_spec k key) as [<-|_]; [exact Hx|by apply IH].
Qed.

Lemma define_property_keys (P : string → Prop) (key : string) (v : value)
    (members : list (string * value)) :
  P key → Forall (λ kv, P kv.1) members →
  Forall (λ kv, P kv.1) (define_property key v members).
Proof.
  intros Hkey. induction 1 as [|[k x] m Hx Hm IH]; [by repeat constructor|].
  cbn [define_property].
  repeat case_match; repeat constructor; done.
Qed.

Lemma define_property_values (P : value → Prop) (key : string) (v : value)
    (members : list (string * value)) :
  P v → Forall (λ kv, P kv.2) members →
  Forall (λ kv, P kv.2) (define_property key v members).
Proof.
  intros Hv. induction 1 as [|[k x] m Hx Hm IH]; [by repeat constructor|].
  cbn [define_property].
  repeat case_match; repeat constructor; done.
Qed.

Lemma define_property_in_order (key : string) (v : value)
    (members : list (string * value)) :
  in_order members → in_order (define_property key v members).
Proof.
  induction members as [|[k x] m IH]; [done|].
  intros [Hk Hm]. cbn [define_property].
  destruct (String.eqb_spec k key) as [->|Hne]; [done|].
  assert (has_key key m = true → before k key) as Hlater.
  { intros Hin. by apply (has_key_true key m (λ k', k' ≠ k ∧ before k k')). }
  assert (before k key →
          in_order ((k, x) :: define_property key v m)) as Hnext.
  { intros Hb. split; [|by apply IH].
    by apply (define_property_keys (λ k', k' ≠ k ∧ before k k')). }
  destruct (array_index key) as [i|] eqn:Hi.
  - destruct (array_index k) as [j|] eqn:Hj.
    + destruct (has_key key m) eqn:Hin.
      * rewrite andb_false_r. by apply Hnext, Hlater.
      * rewrite andb_true_r. destruct (N.ltb_spec i j) as [Hlt|Hge].
        -- split; [|done]. constructor.
           ++ split; [done|]. unfold before. cbn [fst]. by rewrite Hi, Hj.
           ++ pose proof (has_key_false _ _ Hin) as Hfresh.
              rewrite Forall_forall in Hk, Hfresh |- *.
              intros kv Hkv. split; [by apply Hfresh|].
              destruct (Hk kv Hkv) as [_ Hb]. unfold before in Hb |- *.
              rewrite Hi. rewrite Hj in Hb.
              destruct (array_index kv.1); [lia|done].
        -- apply Hnext. unfold before. rewrite Hi, Hj.
           assert (i ≠ j) by (intros ->; by destruct Hne, (array_index_inj k key j)).
           lia.
    + destruct (has_key key m) eqn:Hin; [by apply Hnext, Hlater|].
      split; [|done]. constructor.
      * split; [done|]. unfold before. cbn [fst]. by rewrite Hi, Hj.
      * pose proof (has_key_false _ _ Hin) as Hfresh.
        rewrite Forall_forall in Hk, Hfresh |- *.
        intros kv Hkv. split; [by apply Hfresh|].
        destruct (Hk kv Hkv) as [_ Hb]. unfold before in Hb |- *.
        rewrite Hi. rewrite Hj in Hb. by destruct (array_index kv.1).
  - apply Hnext. unfold before. rewrite Hi. by destruct (array_index k).
Qed.

Lemma define_property_last (key : string) (v : value)
    (members : list (string * value)) :
  Forall (λ kv, kv.1 ≠ key ∧ before kv.1 key) members →
  define_property key v members = members ++ [(key, v)].
Proof.
  induction 1 as [|[k x] m [Hne Hb] _ IH]; [done|].
  cbn [define_property app]. cbn [fst] in Hne, Hb.
  destruct (String.eqb_spec k key) as [|_]; [done|].
  unfold before in Hb.
  destruct (array_index key) as [i|], (array_index k) as [j|];
    try done; try by rewrite IH.
  destruct (N.ltb_spec i j); [lia|]. cbn [andb]. by rewrite IH.
Qed.

Lemma in_order_middle (acc : list (string * value)) (key : string) (v : value)
    (members : list (string * value)) :
  in_order (acc ++ (key, v) :: members) →
  Forall (λ kv, kv.1 ≠ key ∧ before kv.1 key) acc.
Proof.
  induction acc as [|[k x] acc IH]; [done|].
  cbn [app in_order]. intros [Hk Hacc]. constructor; [|by apply IH].
  apply Forall_app in Hk as [_ Hk]. apply Forall_cons in Hk as [[Hne Hb] _].
  cbn [fst] in *. split; [congruence|done].
Qed.

Lemma build_in_order (members acc : list (string * value)) :
  in_order (acc ++ members) →
  foldl (λ acc kv, define_property kv.1 kv.2 acc) acc members = acc ++ members.
Proof.
  revert acc. induction members as [|[k x] m IH]; intros acc Hm.
  - by rewrite app_nil_r.
  - cbn [foldl fst snd].
    rewrite (define_property_last k x acc) by (by eapply in_order_middle).
    rewrite IH; by rewrite <- app_assoc.
Qed.

Lemma foldl_define_in_order (members acc : list (string * value)) :
  in_order acc →
  in_order (foldl (λ acc kv, define_property kv.1 kv.2 acc) acc members).
Proof.
  revert acc. induction members as [|[k x] m IH]; intros acc Hacc; [done|].
  cbn [foldl]. by apply IH, define_property_in_order.
Qed.

Lemma foldl_define_values (P : value → Prop) (members acc : list (string * value)) :
  Forall (λ kv, P kv.2) members → Forall (λ kv, P kv.2) acc →
  Forall (λ kv, P kv.2)
    (foldl (λ acc kv, define_property kv.1 kv.2 acc) acc members).
Proof.
  intros Hm. revert acc. induction Hm as [|[k x] m Hx _ IH]; intros acc Hacc; [done|].
  cbn [foldl]. by apply IH, define_property_values.
Qed.

(** Objects are in enumeration order once they have been built property by
    property. *)
Lemma in_order_enumeration_ordered (members : list (string * value)) :
  in_order members → enumeration_ordered members.
Proof.
  intros Hm. unfold enumeration_ordered, build_object.
  by rewrite (build_in_order members []).
Qed.

Lemma json_data_object (members : list (string * value)) :
  enumeration_ordered members → Forall (λ kv, json_data kv.2) members →
  json_data (JObject members).
Proof.
  intros Hm Hall. split; [done|]. clear Hm.
  induction Hall as [|[k x] m Hx _ IH]; [done|]. by split.
Qed.

Lemma json_data_elements (elements : list value) :
  Forall json_data elements → json_data (JArray elements).
Proof. induction 1 as [|x l Hx _ IH]; [done|]. by split. Qed.

Lemma json_data_param_value (p : param) : json_data (param_value p).
Proof.
  induction p as [s|l IH|m IH] using param_ind.
  - done.
  - cbn [param_value]. apply json_data_elements.
    induction IH as [|x l Hx _ IHl]; by constructor.
  - cbn [param_value]. unfold build_object.
    apply json_data_object.
    + apply in_order_enumeration_ordered. by apply foldl_define_in_order.
    + apply foldl_define_values; [|done].
      induction IH as [|[k x] m Hx _ IHm]; by constructor.
Qed.

(** JSON data holds no [undefined], so that [JSON.stringify] writes all of
    it. *)
Lemma sanitize_json_data (v : value) : json_data v → sanitize v = v.
Proof.
  induction v as [| |b|n|s|l IH|m IH] using value_ind; try done.
  - intros Hl. cbn [sanitize]. f_equal.
    induction IH as [|x l Hx _ IHl]; [done|].
    apply json_data_array in Hl as [Hx' Hl].
    cbn [fmap list_fmap]. rewrite Hx by done. f_equal. by apply IHl.
  - intros Hm%json_data_members. cbn [sanitize]. f_equal.
    induction IH as [|[k x] m Hx _ IHm]; [done|].
    apply Forall_cons in Hm as [Hx' Hm]. cbn [snd] in *.
    rewrite IHm by done. rewrite Hx by done. by destruct x.
Qed.

Lemma json_data_sanitize_field (req : request) (key : string) :
  json_data (sanitize (field req key)).
Proof.
  unfold field. destruct (query req !! key) as [p|]; [|done].
  rewrite sanitize_json_data; apply json_data_param_value.
Qed.

Lemma kept_members (P : string * value → Prop) (members : list (string * value)) :
  Forall P members →
  ∃ kept, sanitize (JObject members) = JObject kept
          ∧ Forall (λ kv, ∃ x, P (kv.1, x) ∧ kv.2 = sanitize x) kept
          ∧ kept.*1 `sublist_of` members.*1.
Proof.
  intros Hm. cbn [sanitize]. eexists. split; [reflexivity|].
  induction Hm as [|[k x] m Hx _ [IH1 IH2]]; [by split|].
  destruct x; try (split; [constructor; [by eexists|done]|by constructor]).
  split; [done|]. by constructor.
Qed.

(** An object with plain keys stays JSON data when the properties that
    [JSON.stringify] leaves out are removed. *)
Lemma json_data_sanitize_object (members : list (string * value)) :
  plain_keys members →
  Forall (λ kv, json_data (sanitize kv.2)) members →
  json_data (sanitize (JObject members)).
Proof.
  intros [Hnd Hidx] Hall.
  assert (Forall (λ kv, array_index kv.1 = None ∧ json_data (sanitize kv.2)) members)
    as Hboth by (by apply Forall_and).
  destruct (kept_members _ members Hboth) as (kept & -> & Hkept & Hsub).
  apply json_data_object.
  - apply plain_keys_enumeration_ordered. split.
    + by eapply sublist_NoDup.
    + eapply Forall_impl; [exact Hkept|]. by intros kv (x & [Hx _] & _).
  - eapply Forall_impl; [exact Hkept|]. by intros kv (x & [_ Hx] & ->).
Qed.

Lemma json_data_sanitize_create (ty : question_type) (req : request) :
  json_data (sanitize (create ty req)).
Proof.
  destruct ty; unfold create; apply json_data_sanitize_object.
  - split; [apply (bool_decide_unpack _); by vm_compute|].
    repeat constructor; vm_compute; reflexivity.
  - repeat constructor; apply json_data_sanitize_field.
  - split; [apply (bool_decide_unpack _); by vm_compute|].
    repeat constructor; vm_compute; reflexivity.
  - repeat constructor; apply json_data_sanitize_field.
Qed.

Lemma json_data_sanitize_authored (title : request) (questions : list value) :
  Forall (λ q, json_data (sanitize q)) questions →
  json_data (sanitize (authored (field title "quizTitle") questions)).
Proof.
  intros Hqs. unfold authored. apply json_data_sanitize_object.
  - split; [apply (bool_decide_unpack _); by vm_compute|].
    repeat constructor; vm_compute; reflexivity.
  - repeat constructor; [apply json_data_sanitize_field|].
    cbn [snd sanitize]. apply json_data_elements. by apply Forall_fmap.
Qed.

(** X14.  Export and import of a quiz made through the forms.  Whatever
    fields the requests had, following the download link of such a quiz and
    loading the saved file gives the quiz in which every missing choice is
    [null] and every other missing field (title, text, answer) is left out;
    the fields that were present come back as they were. *)
Theorem export_then_import_of_authored_quiz (new_request : request)
    (rounds : list addition) :
  let quiz := authored (field new_request "quizTitle") (added_question <$> rounds) in
  export_then_import quiz = Some (ParsedValue (sanitize quiz)).
Proof.
  intros quiz. apply export_then_import_sanitizes; [done|].
  apply json_data_sanitize_authored.
  apply Forall_fmap, Forall_forall. intros r _. apply json_data_sanitize_create.
Qed.

(** ** The overview texts *)

Lemma count_char_app (c : ascii) (a b : string) :
  count_char c (a +:+ b) = count_char c a + count_char c b.
Proof.
  induction a as [|x a IH]; [done|].
  change (String x a +:+ b) with (String x (a +:+ b)).
  cbn [count_char]. rewrite IH. lia.
Qed.

Lemma escape_char_lt (x : ascii) : count_char "<" (escape_char x) = 0.
Proof. destruct x as [[] [] [] [] [] [] [] []]; reflexivity. Qed.

Lemma escape_char_quote (x : ascii) : count_char quote (escape_char x) = 0.
Proof. destruct x as [[] [] [] [] [] [] [] []]; reflexivity. Qed.

Lemma escape_char_apostrophe (x : ascii) : count_char "'" (escape_char x) = 0.
Proof. destruct x as [[] [] [] [] [] [] [] []]; reflexivity. Qed.

Lemma escape_text_clean (c : ascii) (s : string) :
  (∀ x, count_char c (escape_char x) = 0) → count_char c (escape_text s) = 0.
Proof.
  intros Hc. induction s as [|x s IH]; [done|].
  cbn [escape_text]. by rewrite count_char_app, Hc, IH.
Qed.

Lemma escape_clean (c : ascii) (v : value) (s : string) :
  (∀ x, count_char c (escape_char x) = 0) →
  escape v = Normal s → count_char c s = 0.
Proof.
  intros Hc. unfold escape. destruct (to_string v) as [t|e]; [|discriminate].
  cbn. intros [= <-]. by apply escape_text_clean.
Qed.

(** X15.  The overview text of a free-text question holds no [<], no double
    quote and no apostrophe, whatever the question's text and answer are:
    both go through [escape]. *)
Theorem free_overview_is_escaped (question : value) (s : string) :
  overview free question = Normal s →
  count_char "<" s = 0 ∧ count_char quote s = 0 ∧ count_char "'" s = 0.
Proof.
  unfold overview.
  destruct (get question "text") as [text|e]; [|discriminate]. cbn [mbind completion_bind].
  destruct (escape text) as [t|e] eqn:Ht; [|discriminate]. cbn [mbind completion_bind].
  destruct (get question "answer") as [answer|e]; [|discriminate].
  cbn [mbind completion_bind].
  destruct (escape answer) as [a|e] eqn:Ha; [|discriminate].
  cbn [mbind completion_bind]. intros [= <-].
  rewrite !count_char_app.
  rewrite (escape_clean "<" text t escape_char_lt Ht),
    (escape_clean "<" answer a escape_char_lt Ha),
    (escape_clean quote text t escape_char_quote Ht),
    (escape_clean quote answer a escape_char_quote Ha),
    (escape_clean "'" text t escape_char_apostrophe Ht),
    (escape_clean "'" answer a escape_char_apostrophe Ha).
  done.
Qed.

Lemma list_items_lt (l : list value) (items : string) :
  list_items l = Normal items → count_char "<" items = 2 * length l.
Proof.
  revert items. induction l as [|x l IH]; intros items.
  - by intros [= <-].
  - cbn [list_items].
    destruct (escape x) as [item|e] eqn:Hx; [|discriminate]. cbn [mbind completion_bind].
    destruct (list_items l) as [rest|e]; [|discriminate]. cbn [mbind completion_bind].
    intros [= <-]. rewrite !count_char_app, (IH rest eq_refl).
    rewrite (escape_clean "<" x item escape_char_lt Hx). cbn [length]. cbn. lia.
Qed.

(** X16.  The overview text of a multiple-choice question exists only when
    [choices] is an array; the question's text and the choices are escaped,
    the stored answer is not: the [<] characters of the text are the three of
    the markup, two per choice, and those of the answer as it is stored. *)
Theorem multiple_overview_escapes_all_but_the_answer (question : value) (s : string) :
  overview multiple question = Normal s →
  ∃ l answer a,
    get question "choices" = Normal (JArray l)
    ∧ get question "answer" = Normal answer
    ∧ to_string answer = Normal a
    ∧ count_char "<" s = 3 + 2 * length l + count_char "<" a.
Proof.
  unfold overview.
  destruct (get question "text") as [text|e]; [|discriminate]. cbn [mbind completion_bind].
  destruct (escape text) as [t|e] eqn:Ht; [|discriminate]. cbn [mbind completion_bind].
  destruct (get question "choices") as [choices|e]; [|discriminate].
  cbn [mbind completion_bind].
  destruct choices as [| | | | |l|]; try discriminate.
  destruct (list_items l) as [items|e] eqn:Hl; [|discriminate].
  cbn [mbind completion_bind].
  destruct (get question "answer") as [answer|e]; [|discriminate].
  cbn [mbind completion_bind].
  destruct (to_string answer) as [a|e] eqn:Ha; [|discriminate].
  cbn [mbind completion_bind]. intros [= <-].
  exists l, answer, a. split_and!; [done..|].
  rewrite !count_char_app, (list_items_lt l items Hl).
  rewrite (escape_clean "<" text t escape_char_lt Ht).
  change (count_char "<" overview_break) with 0.
  change (count_char "<" " <ol>") with 1.
  change (count_char "<" "</ol>") with 1.
  change (count_char "<" "<p>Correct choice: ") with 1. lia.
Qed.

(** ** The further properties at sample inputs *)

Lemma sendSuspend_then_continue_witness :
  uuid_shaped (nth_uuid 0) = true
  ∧ ((continue_handler (nth_uuid 0) (sendSuspend (nth_uuid 0) 7 initial)).1 = Resumed 7
     ∧ continuations
         (continue_handler (nth_uuid 0) (sendSuspend (nth_uuid 0) 7 initial)).2
         !! nth_uuid 0 = None
     ∧ (continue_handler (nth_uuid 0)
          (continue_handler (nth_uuid 0) (sendSuspend (nth_uuid 0) 7 initial)).2).1
       = Expired).
Proof.
  split; [reflexivity|].
  apply (sendSuspend_then_continue (nth_uuid 0) 7 initial). reflexivity.
Defined.

Lemma abandoned_continuation_is_kept_witness :
  uuid_shaped (nth_uuid 0) = true
  ∧ List.forallb (λ e, negb (concerns (nth_uuid 0) e)) other_session = true
  ∧ (uuids (run ([] ++ Suspend (nth_uuid 0) 7 :: other_session) initial).2 = []
     ∧ continuations (run ([] ++ Suspend (nth_uuid 0) 7 :: other_session) initial).2
         !! nth_uuid 0 = Some 7).
Proof.
  split; [reflexivity|]. split; [vm_compute; reflexivity|].
  apply (abandoned_continuation_is_kept [] other_session (nth_uuid 0) 7);
    [reflexivity|vm_compute; reflexivity].
Defined.

Lemma nth_uuid_1_0 : nth_uuid 1 ≠ nth_uuid 0.
Proof. intros H. vm_compute in H. discriminate H. Defined.

Lemma handle_keeps_other_sessions_witness :
  uuids one_session = []
  ∧ nth_uuid 1 ≠ nth_uuid 0
  ∧ request_token GetLoad ≠ Some (nth_uuid 0)
  ∧ (continuations (handle (nth_uuid 1) GetLoad one_session).2 !! nth_uuid 0
     = continuations one_session !! nth_uuid 0
     ∧ uuids (handle (nth_uuid 1) GetLoad one_session).2 = []).
Proof.
  split; [reflexivity|]. split; [exact nth_uuid_1_0|]. split; [discriminate|].
  apply (handle_keeps_other_sessions (nth_uuid 1) GetLoad one_session (nth_uuid 0));
    [reflexivity|exact nth_uuid_1_0|discriminate].
Defined.

Lemma page_url_resumes_once_witness :
  uuid_shaped (nth_uuid 0) = true
  ∧ handle (nth_uuid 0) GetNew initial
    = (Page NewQuizPage (continueURL (nth_uuid 0)), one_session)
  ∧ (continueURL (nth_uuid 0) = continueURL (nth_uuid 0)
     ∧ ∃ k, (continue_handler (nth_uuid 0) one_session).1 = Resumed k
            ∧ ∀ id2 req id3 req',
                id2 ≠ nth_uuid 0 →
                handle id2 (AllContinue (nth_uuid 0) req) one_session
                = suspend id2 (resume k req)
                    (continue_handler (nth_uuid 0) one_session).2
                ∧ (handle id3 (AllContinue (nth_uuid 0) req')
                     (handle id2 (AllContinue (nth_uuid 0) req) one_session).2).1
                  = Notice).
Proof.
  split; [reflexivity|]. split; [reflexivity|].
  apply (page_url_resumes_once (nth_uuid 0) GetNew initial one_session NewQuizPage
           (continueURL (nth_uuid 0))); reflexivity.
Defined.

Lemma add_question_appends_witness :
  get geo_quiz "questions" = Normal (JArray [capital_question])
  ∧ ∃ quiz' link,
      resume (AwaitQuestion multiple geo_quiz) request_without_choices
      = Suspended (OverviewPage quiz' link) (AwaitOverview quiz')
      ∧ get quiz' "questions"
        = Normal (JArray ([capital_question] ++ [create multiple request_without_choices]))
      ∧ ∀ key, key ≠ "questions" → get quiz' key = get geo_quiz key.
Proof.
  split; [reflexivity|].
  apply (add_question_appends multiple geo_quiz [capital_question]
           request_without_choices). reflexivity.
Defined.

Lemma questions_must_be_an_array_witness :
  (∀ l, get (JObject []) "questions" ≠ Normal (JArray l))
  ∧ (resume (AwaitQuestion free (JObject [])) capital_form = Rejected TypeError
     ∧ playQuiz (JObject []) 0 = Rejected TypeError).
Proof.
  split; [intros l; discriminate|].
  apply (questions_must_be_an_array (JObject []) free capital_form 0).
  intros l; discriminate.
Defined.

Lemma finished_summary_witness :
  get geo_quiz "title" = Normal (JString "Geo")
  ∧ (Z.of_nat (length [quick_answer; slow_answer]) < 2 ^ 32)%Z
  ∧ ∃ answersCorrect,
      finish geo_quiz [quick_answer; slow_answer]
      = Suspended
          (FinishedPage (JString "Geo") answersCorrect
             (ONumber (total_time [quick_answer; slow_answer])) 2)
          (AwaitFinished geo_quiz)
      ∧ operand_number answersCorrect = number_of_Z (score [quick_answer; slow_answer])
      ∧ ([slow_answer] = [] → answersCorrect = OBool (correct quick_answer))
      ∧ ([slow_answer] ≠ [] →
         answersCorrect = ONumber (number_of_Z (score [quick_answer; slow_answer]))).
Proof.
  split; [reflexivity|]. split; [cbn; lia|].
  apply (finished_summary geo_quiz (JString "Geo") quick_answer [slow_answer]);
    [reflexivity|cbn; lia].
Defined.

Lemma capital_turn_marked :
  Forall (λ t, is_Some (expected_mark (asked_type t) (asked_from t) (answer_request t)))
    [capital_turn].
Proof. repeat constructor. exists true. vm_compute. reflexivity. Defined.

Lemma play_of_created_questions_witness :
  Forall (λ t, is_Some (expected_mark (asked_type t) (asked_from t) (answer_request t)))
    [capital_turn]
  ∧ (Z.of_nat (length [capital_turn]) < 2 ^ 32)%Z
  ∧ ∃ answersCorrect,
      feed (playQuiz (authored (JString "Geo") (asked_question <$> [capital_turn])) 1000)
        ([capital_turn] ≫= λ t, [answer_request t; next_request t])
      = Suspended
          (FinishedPage (JString "Geo") answersCorrect
             (ONumber (total_time (played [capital_turn] 1000))) (length [capital_turn]))
          (AwaitFinished (authored (JString "Geo") (asked_question <$> [capital_turn])))
      ∧ operand_number answersCorrect = number_of_Z (score (played [capital_turn] 1000)).
Proof.
  split; [exact capital_turn_marked|]. split; [cbn; lia|].
  apply (play_of_created_questions (JString "Geo") capital_turn [] 1000);
    [exact capital_turn_marked|cbn; lia].
Defined.

Lemma mark_of_created_question_witness :
  query request_with_index_2 !! "correctIndex" = Some (Text "2")
  ∧ query object_answer !! "answer" = Some (Nested [("toString", Text "2")])
  ∧ mark multiple (create multiple request_with_index_2) (field object_answer "answer")
    = Throw TypeError.
Proof.
  split; [by vm_compute|]. split; [by vm_compute|].
  apply (proj2 (proj2 (proj2 (mark_of_created_question request_with_index_2
                                object_answer))) "2" (Text "2"));
    by vm_compute.
Defined.

Lemma capital_addition_asks :
  Forall (λ r, truthy (field (overview_request r) "addQuestion") = true
               ∧ query (overview_request r) !! "type"
                 = Some (Text (typename (added_type r))))
    [capital_addition].
Proof. repeat constructor; vm_compute; reflexivity. Defined.

Lemma authoring_appends_in_order_witness :
  Forall (λ r, truthy (field (overview_request r) "addQuestion") = true
               ∧ query (overview_request r) !! "type"
                 = Some (Text (typename (added_type r))))
    [capital_addition]
  ∧ feed (manageQuiz (authored (JString "Geo") []))
      ([capital_addition] ≫= λ r, [overview_request r; form_request r])
    = manageQuiz (authored (JString "Geo") ([] ++ (added_question <$> [capital_addition]))).
Proof.
  split; [exact capital_addition_asks|].
  apply (authoring_appends_in_order (JString "Geo") [] [capital_addition]).
  exact capital_addition_asks.
Defined.

Lemma overview_link_holds_the_quiz_witness :
  geo_quiz ≠ JUndefined
  ∧ ∃ json,
      JSON_stringify geo_quiz = Some json
      ∧ manageQuiz geo_quiz
        = Suspended (OverviewPage geo_quiz (jsonToDataURI json)) (AwaitOverview geo_quiz)
      ∧ download (jsonToDataURI json) = Some json.
Proof.
  split; [discriminate|].
  apply (overview_link_holds_the_quiz geo_quiz). discriminate.
Defined.

Lemma quiz_without_choices_sanitized : json_data (sanitize quiz_without_choices).
Proof. repeat split; vm_compute; reflexivity. Defined.

Lemma export_then_import_sanitizes_witness :
  quiz_without_choices ≠ JUndefined
  ∧ json_data (sanitize quiz_without_choices)
  ∧ export_then_import quiz_without_choices
    = Some (ParsedValue (sanitize quiz_without_choices)).
Proof.
  split; [discriminate|]. split; [exact quiz_without_choices_sanitized|].
  apply (export_then_import_sanitizes quiz_without_choices);
    [discriminate|exact quiz_without_choices_sanitized].
Defined.

Lemma free_overview_is_escaped_witness :
  overview free markup_question
  = Normal "&lt;b&gt;1 &lt; 2&lt;/b&gt;? -> &#39;yes&#39;"
  ∧ (count_char "<" "&lt;b&gt;1 &lt; 2&lt;/b&gt;? -> &#39;yes&#39;" = 0
     ∧ count_char quote "&lt;b&gt;1 &lt; 2&lt;/b&gt;? -> &#39;yes&#39;" = 0
     ∧ count_char "'" "&lt;b&gt;1 &lt; 2&lt;/b&gt;? -> &#39;yes&#39;" = 0).
Proof.
  split; [vm_compute; reflexivity|].
  apply (free_overview_is_escaped markup_question). vm_compute. reflexivity.
Defined.

Lemma multiple_overview_escapes_all_but_the_answer_witness :
  overview multiple markup_choice_question
  = Normal ("1 &lt; 2? <ol><li>&lt;i&gt;yes&lt;/i&gt;</li><li>undefined</li>"
            +:+ "<li>undefined</li><li>undefined</li><li>undefined</li></ol>"
            +:+ overview_break +:+ "<p>Correct choice: <1>")
  ∧ ∃ l answer a,
      get markup_choice_question "choices" = Normal (JArray l)
      ∧ get markup_choice_question "answer" = Normal answer
      ∧ to_string answer = Normal a
      ∧ count_char "<"
          ("1 &lt; 2? <ol><li>&lt;i&gt;yes&lt;/i&gt;</li><li>undefined</li>"
           +:+ "<li>undefined</li><li>undefined</li><li>undefined</li></ol>"
           +:+ overview_break +:+ "<p>Correct choice: <1>")
        = 3 + 2 * length l + count_char "<" a.
Proof.
  split; [vm_compute; reflexivity|].
  apply (multiple_overview_escapes_all_but_the_answer markup_choice_question).
  vm_compute. reflexivity.
Defined.

(** ** The flows of src/unnamed/part_000 *)

Module Part000_properties.
Import Part000.

Lemma loose_eq_printable (x y : value) :
  printable x = true → printable y = true → ∃ b, loose_eq x y = Normal b.
Proof.
  intros Hx Hy. unfold loose_eq.
  destruct (is_nullish x || is_nullish y); [by eexists|].
  destruct (is_object x && is_object y); [by eexists|].
  assert (∀ v, printable v = true → ∃ p, to_primitive v = Normal p) as Hprim.
  { intros v Hv. unfold printable in Hv. unfold to_primitive.
    destruct (to_string v) as [s|] eqn:Hs; [|discriminate].
    destruct v; by eexists. }
  destruct (Hprim x Hx) as [px ->], (Hprim y Hy) as [py ->].
  cbn [mbind completion_bind]. destruct px, py; by eexists.
Qed.

Lemma to_string_printable (v : value) :
  printable v = true → ∃ s, to_string v = Normal s.
Proof.
  unfold printable. destruct (to_string v) as [s|]; [by eexists|discriminate].
Qed.

Lemma push_questions (title : value) (l : list value) (q : value) :
  push "questions" (authored title l) q = Normal (authored title (l ++ [q])).
Proof. reflexivity. Qed.

Lemma push_answers (answers : list value) (c : value) :
  push "answers" (choice_question answers) c
  = Normal (choice_question (answers ++ [c])).
Proof. reflexivity. Qed.

Lemma made_quiz_push (quiz q : value) :
  made_quiz quiz → made_question q →
  ∃ quiz', push "questions" quiz q = Normal quiz' ∧ made_quiz quiz'.
Proof.
  intros (title & l & -> & Ht & Hl) Hq. eexists. split; [apply push_questions|].
  exists title, (l ++ [q]). split_and!; [done..|]. apply Forall_app. by split; [|constructor].
Qed.

Lemma made_question_free (req : request) :
  convertible req →
  made_question (JObject [("text", field req "question"); ("answer", field req "answer")]).
Proof. intros [_ Hanswer]. eexists. split; [done|]. exact Hanswer. Qed.

Lemma made_question_choice (answers : list value) :
  made_question (choice_question answers).
Proof. by eexists. Qed.

Lemma ask_reachable (quiz : value) (stats : list stat) (l : list value) (start : Z) :
  made_quiz quiz → Forall made_question l →
  match ask quiz stats l start with
  | Suspended _ k => reachable k
  | Rejected _ => False
  | _ => True
  end.
Proof.
  intros Hquiz Hl. destruct Hl as [|q l Hq Hl]; [done|].
  pose proof Hquiz as (title & l' & -> & _). cbn. done.
Qed.


Lemma resume_answer_made (quiz : value) (stats : list stat) (q : value)
    (rest : list value) (start : Z) (req : request) :
  made_quiz quiz → made_question q → convertible req →
  ∃ p stats', resume (AwaitAnswer quiz stats q rest start) req
              = Suspended p (AwaitFeedback quiz stats' rest).
Proof.
  intros (title & l & -> & Htitle & _) (members & -> & Hanswer) Hreq.
  cbn [resume get]. cbn [mbind completion_bind].
  destruct (loose_eq_printable (field req "answer") _ (proj2 Hreq) Hanswer)
    as [b ->].
  destruct (to_string_printable title Htitle) as [s Hs].
  cbn. rewrite Hs. cbn. by eexists _, _.
Qed.

Lemma feed_ask_finishes (quiz : value) (l : list value) :
  made_quiz quiz → Forall made_question l →
  ∀ stats start reqs,
    Forall convertible reqs →
    2 * length l ≤ length reqs →
    feed (ask quiz stats l start) reqs = Sent "Finished".
Proof.
  intros Hquiz Hl. induction Hl as [|q l Hq _ IH]; intros stats start reqs Hreqs Hlen.
  - by destruct reqs.
  - destruct reqs as [|ra [|rn reqs]]; [cbn [length] in Hlen; lia..|].
    cbn [length] in Hlen.
    apply Forall_cons in Hreqs as [Hra Hreqs]. apply Forall_cons in Hreqs as [_ Hreqs].
    pose proof Hquiz as (title & l' & Heq & _).
    assert (ask quiz stats (q :: l) start
            = Suspended (QuestionPage title q) (AwaitAnswer quiz stats q l start))
      as -> by (by subst quiz).
    cbn [feed].
    destruct (resume_answer_made quiz stats q l start ra Hquiz Hq Hra)
      as (p & stats' & ->).
    cbn [feed resume]. apply IH; [done|lia].
Qed.


(** The play throws on an answer, and on the first answer of a quiz with a
    title, that is an object with a member [toString]. *)
Example unconvertible_fields_reject :
  feed (resume AwaitNewQuiz object_title)
    [overview_request capital_addition; capital_form; play_request;
     request_without_answer]
  = Rejected TypeError
  ∧ feed (playQuiz capital_quiz_000 0) [object_answer] = Rejected TypeError.
Proof. split; vm_compute; reflexivity. Qed.

(** X19.  Entering the choices of a multiple-choice question in part_000:
    every request whose [answer] is not the empty text adds a choice (a
    request without an [answer] field too), and the first request whose
    [answer] is the empty text appends the question with the choices entered
    so far to the quiz and shows the overview. *)
Theorem choices_until_empty_answer (title : value) (l answers : list value)
    (p : page) (reqs : list request) (stop : request) :
  Forall (λ req, query req !! "answer" ≠ Some (Text "")) reqs →
  query stop !! "answer" = Some (Text "") →
  feed (Suspended p (AwaitChoice (authored title l) (choice_question answers)))
    (reqs ++ [stop])
  = overview (authored title (l ++ [choice_question (answers ++ (choice <$> reqs))])).
Proof.
  intros Hreqs Hstop. revert answers p.
  induction Hreqs as [|req reqs Hreq _ IH]; intros answers p.
  - cbn [app feed resume]. unfold field at 1. rewrite Hstop.
    cbn. by rewrite app_nil_r.
  - cbn [app feed fmap list_fmap].
    assert (resume (AwaitChoice (authored title l) (choice_question answers)) req
            = Suspended
                (AddMultipleChoicePage (authored title l)
                   (choice_question (answers ++ [choice req])))
                (AwaitChoice (authored title l)
                   (choice_question (answers ++ [choice req])))) as ->.
    { cbn [resume]. unfold field at 1.
      destruct (query req !! "answer") as [[[|c s]| |]|] eqn:Ha; [done|done..]. }
    rewrite IH. by rewrite <- app_assoc.
Qed.

Lemma capital_quiz_000_made : made_quiz capital_quiz_000.
Proof.
  eexists _, _. split_and!; [reflexivity|reflexivity|].
  repeat constructor. by eexists.
Qed.



Lemma choices_until_empty_answer_witness :
  feed (Suspended (AddMultipleChoicePage (authored (JString "Geo") []) (choice_question []))
          (AwaitChoice (authored (JString "Geo") []) (choice_question [])))
    ([paris_choice; request_without_answer] ++ [end_of_choices])
  = overview (authored (JString "Geo")
                ([] ++ [choice_question
                          ([] ++ (choice <$> [paris_choice; request_without_answer]))])).
Proof.
  apply choices_until_empty_answer.
  - repeat constructor; by vm_compute.
  - by vm_compute.
Defined.

End Part000_properties.
